(** * Skill_forge: the matching engine of [backend/ai/ai_matching.py]

    A shallow embedding of [AIMatchingEngine] and the properties its
    specification states about it.

    Conventions of the embedding.
    - Python [float] values are exact real numbers ([R]): rounding error of
      binary64 arithmetic is outside the model, and an equality between
      two scores is an equality of their exact values.  [round(x, n)]
      rounds the exact value to [n] decimals, ties to even.
    - Python [str] values are [string]s of ASCII characters; [lower],
      [strip] and [title] act on the ASCII letters and ASCII white space.
    - A record of the store (a MongoDB document, a Python [dict]) is a
      Rocq record.  A text field that is missing, [None] or empty is the
      empty string: the code tests all of them with [dict.get] and
      truthiness.  The fields [_id] and [embedding] are options.
    - Effects (the record store, the embedding provider, exceptions) are
      threaded through a state-and-exception monad whose state survives a
      raised exception, as the side effects of a Python call do.

    The last sections add the routes of [backend/routes/matching.py] and
    the skill extraction of [backend/ai/job_fetcher.py]. *)

From Stdlib Require Import Reals Lra Lia ZArith List String Ascii Bool.
From Stdlib Require Import Permutation Sorted DecimalString.
Import ListNotations.

Set Implicit Arguments.

(* ------------------------------------------------------------------ *)
(** ** Python strings *)
(* ------------------------------------------------------------------ *)

Module PyStr.

Local Open Scope string_scope.
Local Open Scope N_scope.

(** [bool(s)] for a string. *)
Definition truthy (s : string) : bool :=
match s with EmptyString => false | String _ _ => true end.

Definition is_upper (c : ascii) : bool :=
let n := N_of_ascii c in (65 <=? n) && (n <=? 90).

Definition is_lower (c : ascii) : bool :=
let n := N_of_ascii c in (97 <=? n) && (n <=? 122).

(** White space as [str.isspace] has it on ASCII: TAB..CR, FS..US, SPACE. *)
Definition is_space (c : ascii) : bool :=
let n := N_of_ascii c in
((9 <=? n) && (n <=? 13)) || ((28 <=? n) && (n <=? 32)).

Definition lower_char (c : ascii) : ascii :=
if is_upper c then ascii_of_N (N_of_ascii c + 32) else c.

Definition upper_char (c : ascii) : ascii :=
if is_lower c then ascii_of_N (N_of_ascii c - 32) else c.

(** [s.lower()] *)
Fixpoint lower (s : string) : string :=
match s with
| EmptyString => EmptyString
| String c r => String (lower_char c) (lower r)
end.

(** [s.title()]: a cased character that follows an uncased one is put in
  upper case, one that follows a cased one in lower case. *)
Fixpoint title_from (prev_cased : bool) (s : string) : string :=
match s with
| EmptyString => EmptyString
| String c r =>
    if is_lower c then
      String (if prev_cased then c else upper_char c) (title_from true r)
    else if is_upper c then
      String (if prev_cased then lower_char c else c) (title_from true r)
    else String c (title_from false r)
end.

Definition title (s : string) : string := title_from false s.

Fixpoint lstrip (s : string) : string :=
match s with
| EmptyString => EmptyString
| String c r => if is_space c then lstrip r else s
end.

(** Drops the trailing white space: a character is kept when something
  that is kept follows it, or when it is not white space itself. *)
Fixpoint rstrip (s : string) : string :=
match s with
| EmptyString => EmptyString
| String c r =>
    match rstrip r with
    | EmptyString => if is_space c then EmptyString else String c EmptyString
    | r' => String c r'
    end
end.

(** [s.strip()] *)
Definition strip (s : string) : string := rstrip (lstrip s).

(** [sep.join(parts)] *)
Fixpoint join (sep : string) (parts : list string) : string :=
match parts with
| [] => EmptyString
| [p] => p
| p :: rest => p ++ sep ++ join sep rest
end.

(** [str(n)] for an integer. *)
Definition of_Z (n : Z) : string := NilZero.string_of_int (Z.to_int n).

(** The order of [sorted] on strings: code point by code point. *)
Definition leb (a b : string) : bool := String.leb a b.

End PyStr.

(* ------------------------------------------------------------------ *)
(** ** Python numbers *)
(* ------------------------------------------------------------------ *)

Module PyNum.

Local Open Scope R_scope.

(** [min(a, b)]: the first argument unless the second is smaller. *)
Definition py_min (a b : R) : R := if Rlt_dec b a then b else a.

(** [max(a, b)]: the first argument unless the second is larger. *)
Definition py_max (a b : R) : R := if Rlt_dec a b then b else a.

(** The integer nearest to [x], a tie going to the even one. *)
Definition round_half_even (x : R) : Z :=
let f := Int_part x in
let d := x - IZR f in
if Rlt_dec d (1 / 2) then f
else if Rlt_dec (1 / 2) d then (f + 1)%Z
else if Z.even f then f else (f + 1)%Z.

(** [round(x, ndigits)] for [ndigits >= 0]. *)
Definition py_round (x : R) (ndigits : nat) : R :=
IZR (round_half_even (x * 10 ^ ndigits)) / 10 ^ ndigits.

End PyNum.

(* ------------------------------------------------------------------ *)
(** ** Data model *)
(* ------------------------------------------------------------------ *)

(** An embedding: the vector the provider returns, stored as a list. *)
Definition Vec := list R.

(** The identity of a record ([bson.ObjectId], twelve bytes). *)
Definition oid := N.

Record Skill := mkSkill { s_name : string; s_level : Z }.

Record Experience := mkExperience
  { e_role : string; e_company : string; e_description : string }.

Record Education := mkEducation
  { ed_degree : string; ed_institution : string }.

Record Portfolio := mkPortfolio
  { p_title : string; p_description : string }.

Record Candidate := mkCandidate
  { c_id : option oid;
    c_email : string;
    c_password : option string;
    c_bio : string;
    c_skills : list Skill;
    c_experience : list Experience;
    c_education : list Education;
    c_portfolio : list Portfolio;
    c_embedding : option Vec }.

Record Job := mkJob
  { j_id : option oid;
    j_title : string;
    j_company : string;
    j_description : string;
    j_required_skills : list string;
    j_job_type : string;
    j_location : string;
    j_source : string;
    j_embedding : option Vec }.

(** [bool(x)] for a list. *)
Definition truthy_list {A} (l : list A) : bool :=
  match l with [] => false | _ :: _ => true end.

(** [record.get("embedding")] as a condition: the field is there and the
    vector is not empty. *)
Definition truthy_emb (e : option Vec) : bool :=
  match e with Some (_ :: _) => true | _ => false end.

(* ------------------------------------------------------------------ *)
(** ** Text extraction *)
(* ------------------------------------------------------------------ *)

(** [[s] if s else []]: a field is appended only when it is truthy. *)
Definition part (s : string) : list string :=
  if PyStr.truthy s then [s] else [].

(** [f"{s['name']} ({int(s['level']/10)} stars)"] *)
Definition skill_phrase (s : Skill) : string :=
  (s_name s ++ " (" ++ PyStr.of_Z (Z.quot (s_level s) 10) ++ " stars)")%string.

Definition _extract_candidate_text (candidate : Candidate) : string :=
  let text_parts :=
    part (c_bio candidate)
    ++ (if truthy_list (c_skills candidate)
        then [PyStr.join " "
                (map skill_phrase
                   (filter (fun s => PyStr.truthy (s_name s)) (c_skills candidate)))]
        else [])
    ++ flat_map (fun exp => part (e_role exp) ++ part (e_description exp))
         (c_experience candidate)
    ++ flat_map (fun edu => part (ed_degree edu) ++ part (ed_institution edu))
         (c_education candidate)
    ++ flat_map (fun p => part (p_title p) ++ part (p_description p))
         (c_portfolio candidate)
  in PyStr.strip (PyStr.join " " text_parts).

Definition _extract_job_text (job : Job) : string :=
  let text_parts :=
    part (j_title job)
    ++ part (j_company job)
    ++ part (j_description job)
    ++ (if truthy_list (j_required_skills job)
        then [PyStr.join " " (j_required_skills job)] else [])
    ++ part (j_job_type job)
    ++ part (j_location job)
  in PyStr.strip (PyStr.join " " text_parts).

(* ------------------------------------------------------------------ *)
(** ** Outcomes of a call *)
(* ------------------------------------------------------------------ *)

(** The exceptions the engine can meet. *)
Inductive exn :=
| ProviderError   (* the embedding model failed *)
| StoreError      (* the record store failed *)
| InvalidId       (* [ObjectId(s)] on a string that is no identity *)
| KeyError        (* [record["_id"]] on a record without identity *)
| AttributeError  (* [.get] on [None] *)
| ValueError.     (* [np.dot] on vectors of different lengths *)

Inductive result (A : Type) :=
| Ok (a : A)
| Raise (e : exn).

Arguments Ok {A} a.
Arguments Raise {A} e.

(* ------------------------------------------------------------------ *)
(** ** Matching utilities *)
(* ------------------------------------------------------------------ *)

Section Dict.

Variable V : Type.

(** A [dict] with string keys, in insertion order. *)
Definition dict := list (string * V).

Fixpoint dict_get (k : string) (d : dict) : option V :=
  match d with
  | [] => None
  | (k', v) :: r => if String.eqb k k' then Some v else dict_get k r
  end.

(** [d[k] = v]: overwrites the value of a key that is there. *)
Fixpoint dict_set (k : string) (v : V) (d : dict) : dict :=
  match d with
  | [] => [(k, v)]
  | (k', v') :: r =>
      if String.eqb k k' then (k', v) :: r else (k', v') :: dict_set k v r
  end.

(** [{key(x): val(x) for x in l}] *)
Definition dict_of {A} (key : A -> string) (val : A -> V) (l : list A) : dict :=
  fold_left (fun d x => dict_set (key x) (val x) d) l [].

End Dict.

Local Open Scope R_scope.

(** The [for skill in required] loop: [(total_weight, matched_weight)]. *)
Definition skill_loop (cand_skills : dict Z) (required : list string)
  : nat * R :=
  fold_left
    (fun (acc : nat * R) skill =>
       let total_weight := S (fst acc) in
       match dict_get skill cand_skills with
       | Some level => (total_weight, snd acc + IZR level / 100)
       | None => (total_weight, snd acc)
       end)
    required (O, 0).

Definition _calculate_skill_match (candidate : Candidate) (job : Job) : R :=
  if negb (truthy_list (j_required_skills job)) then 0
  else
    let required := map PyStr.lower (j_required_skills job) in
    if negb (truthy_list (c_skills candidate)) then 0
    else
      let cand_skills :=
        dict_of (fun s => PyStr.lower (s_name s)) s_level
          (filter (fun s => PyStr.truthy (s_name s)) (c_skills candidate)) in
      let '(total_weight, matched_weight) := skill_loop cand_skills required in
      if Nat.eqb total_weight 0 then 0
      else matched_weight / INR total_weight.

(** The sum of the products of the components, pair by pair. *)
Fixpoint dot_sum (a b : Vec) : R :=
  match a, b with
  | x :: a', y :: b' => x * y + dot_sum a' b'
  | _, _ => 0
  end.

(** [np.dot(a, b)] on two flat vectors: their sizes must agree. *)
Definition np_dot (a b : Vec) : result R :=
  if Nat.eqb (List.length a) (List.length b) then Ok (dot_sum a b) else Raise ValueError.

(** [np.linalg.norm(a)]: the square root of [a . a]. *)
Definition np_norm (a : Vec) : R := sqrt (dot_sum a a).

Definition _cosine_similarity (a b : option Vec) : result R :=
  match a, b with
  | Some a, Some b =>
      let denom := np_norm a * np_norm b in
      if Req_dec_T denom 0 then Ok 0
      else match np_dot a b with
           | Ok d => Ok (d / denom)
           | Raise e => Raise e
           end
  | _, _ => Ok 0
  end.

Definition _calculate_experience_boost (candidate : Candidate) : R :=
  let exp := c_experience candidate in
  if negb (truthy_list exp) then 0
  else PyNum.py_min (INR (List.length exp) * (5 / 100)) (2 / 10).

(** The last two lines of [calculate_match_score]. *)
Definition composite (semantic_sim skill_score exp_boost : R) : R :=
  let final_score :=
    (6 / 10) * semantic_sim + (3 / 10) * skill_score + (1 / 10) * exp_boost in
  PyNum.py_round (PyNum.py_max 0 (PyNum.py_min 1 final_score)) 3.

(* ------------------------------------------------------------------ *)
(** ** The world of a call: store, provider, exceptions *)
(* ------------------------------------------------------------------ *)

(** The two collections in their natural order, the texts sent to the
    embedding model so far (latest first) and the number of operations
    issued to the store so far. *)
Record World := mkWorld
  { candidates : list Candidate;
    jobs : list Job;
    encoded : list string;
    store_ops : nat }.

(** What the engine does not own.
    - [ObjectId s]: the identity codec of [bson]; [None] when it raises.
    - [str_oid i]: [str(i)].
    - [model_encode k text]: the answer of the model to its [k]-th call;
      [None] when it raises.
    - [store_up k]: whether the [k]-th operation on the store succeeds. *)
Record Env := mkEnv
  { ObjectId : string -> option oid;
    str_oid : oid -> string;
    model_encode : nat -> string -> option Vec;
    store_up : nat -> bool }.

(** A computation: an outcome and the world it leaves behind. *)
Definition M (A : Type) := World -> result A * World.

Definition ret {A} (a : A) : M A := fun w => (Ok a, w).

Definition raise {A} (e : exn) : M A := fun w => (Raise e, w).

Definition bind {A B} (m : M A) (k : A -> M B) : M B :=
  fun w => match m w with
           | (Ok a, w') => k a w'
           | (Raise e, w') => (Raise e, w')
           end.

(** [try: body  except Exception: handler] *)
Definition try_except {A} (body handler : M A) : M A :=
  fun w => match body w with
           | (Ok a, w') => (Ok a, w')
           | (Raise _, w') => handler w'
           end.

Definition lift {A} (r : result A) : M A := fun w => (r, w).

Declare Scope py_scope.
Delimit Scope py_scope with py.
Notation "x <- m ;; k" := (bind m (fun x => k))
  (at level 61, m at next level, right associativity) : py_scope.
Notation "m ;;; k" := (bind m (fun _ => k))
  (at level 61, right associativity) : py_scope.

Local Open Scope py_scope.

Fixpoint mapM {A B} (f : A -> M B) (l : list A) : M (list B) :=
  match l with
  | [] => ret []
  | x :: r => y <- f x ;; ys <- mapM f r ;; ret (y :: ys)
  end.

(** *** Lists as Python has them *)

(** [l[:n]]; a negative [n] counts from the end. *)
Definition slice_to {A} (n : Z) (l : list A) : list A :=
  if (n <? 0)%Z then firstn (List.length l - Z.to_nat (- n)) l
  else firstn (Z.to_nat n) l.

Section SortDesc.

Variable A : Type.
Variable key : A -> R.

(** [x] goes in front of the first element whose key is not larger. *)
Fixpoint insert_desc (x : A) (l : list A) : list A :=
  match l with
  | [] => [x]
  | y :: r => if Rlt_dec (key x) (key y) then y :: insert_desc x r
              else x :: y :: r
  end.

(** [l.sort(key=key, reverse=True)]: the stable sort by decreasing key. *)
Definition sort_desc (l : list A) : list A := fold_right insert_desc [] l.

End SortDesc.

(** [sorted(l)] on strings. *)
Fixpoint insert_str (x : string) (l : list string) : list string :=
  match l with
  | [] => [x]
  | y :: r => if PyStr.leb x y then x :: y :: r else y :: insert_str x r
  end.

Definition sorted (l : list string) : list string := fold_right insert_str [] l.

(** [set(l)], as the list of its distinct elements. *)
Definition py_set (l : list string) : list string := nodup string_dec l.

Definition mem (x : string) (l : list string) : bool :=
  existsb (String.eqb x) l.

(** *** The store *)

Definition id_is (i : oid) (x : option oid) : bool :=
  match x with Some i' => N.eqb i i' | None => false end.

(** [update_one]: the first record that matches is changed, if any. *)
Fixpoint update_first {A} (p : A -> bool) (f : A -> A) (l : list A) : list A :=
  match l with
  | [] => []
  | x :: r => if p x then f x :: r else x :: update_first p f r
  end.

Definition set_c_embedding (v : Vec) (c : Candidate) : Candidate :=
  mkCandidate (c_id c) (c_email c) (c_password c) (c_bio c) (c_skills c)
    (c_experience c) (c_education c) (c_portfolio c) (Some v).

Definition set_j_embedding (v : Vec) (j : Job) : Job :=
  mkJob (j_id j) (j_title j) (j_company j) (j_description j)
    (j_required_skills j) (j_job_type j) (j_location j) (j_source j) (Some v).

(** The projection [{"password": 0}]. *)
Definition without_password (c : Candidate) : Candidate :=
  mkCandidate (c_id c) (c_email c) None (c_bio c) (c_skills c)
    (c_experience c) (c_education c) (c_portfolio c) (c_embedding c).

Definition tick (w : World) : World :=
  mkWorld (candidates w) (jobs w) (encoded w) (S (store_ops w)).

Definition with_candidates (l : list Candidate) (w : World) : World :=
  mkWorld l (jobs w) (encoded w) (store_ops w).

Definition with_jobs (l : list Job) (w : World) : World :=
  mkWorld (candidates w) l (encoded w) (store_ops w).

Definition log_encode (text : string) (w : World) : World :=
  mkWorld (candidates w) (jobs w) (text :: encoded w) (store_ops w).

(** [query = {"source": source} if source else {}] *)
Definition source_query (source : option string) (j : Job) : bool :=
  match source with
  | Some s => if PyStr.truthy s then String.eqb (j_source j) s else true
  | None => true
  end.

Section Engine.

Variable env : Env.

(** One operation on the store: it is counted, and it fails as a whole
    when the store is down. *)
Definition store_call {A} (op : World -> A * World) : M A :=
  fun w =>
    let w1 := tick w in
    if store_up env (store_ops w)
    then let (a, w2) := op w1 in (Ok a, w2)
    else (Raise StoreError, w1).

Definition read {A} (q : World -> A) : World -> A * World :=
  fun w => (q w, w).

(** [cands_col.find_one({"email": email})] *)
Definition find_candidate_by_email (email : string) : M (option Candidate) :=
  store_call
    (read (fun w => find (fun c => String.eqb (c_email c) email) (candidates w))).

(** [cands_col.find_one({"_id": i})] *)
Definition find_candidate_by_id (i : oid) : M (option Candidate) :=
  store_call (read (fun w => find (fun c => id_is i (c_id c)) (candidates w))).

(** [jobs_col.find_one({"_id": i})] *)
Definition find_job_by_id (i : oid) : M (option Job) :=
  store_call (read (fun w => find (fun j => id_is i (j_id j)) (jobs w))).

(** [list(jobs_col.find(query))] *)
Definition find_jobs (source : option string) : M (list Job) :=
  store_call (read (fun w => filter (source_query source) (jobs w))).

(** [list(cands_col.find({}, {"password": 0}))] *)
Definition find_candidates : M (list Candidate) :=
  store_call (read (fun w => map without_password (candidates w))).

(** [cands_col.update_one({"_id": i}, {"$set": {"embedding": v}})] *)
Definition update_candidate_embedding (i : oid) (v : Vec) : M unit :=
  store_call
    (fun w => (tt, with_candidates
                     (update_first (fun c => id_is i (c_id c))
                        (set_c_embedding v) (candidates w)) w)).

(** [jobs_col.update_one({"_id": i}, {"$set": {"embedding": v}})] *)
Definition update_job_embedding (i : oid) (v : Vec) : M unit :=
  store_call
    (fun w => (tt, with_jobs
                     (update_first (fun j => id_is i (j_id j))
                        (set_j_embedding v) (jobs w)) w)).

(** *** Embedding + DB utilities *)

(** [self.model.encode(text)] *)
Definition model_call (text : string) : M Vec :=
  fun w =>
    let w' := log_encode text w in
    match model_encode env (List.length (encoded w)) text with
    | Some v => (Ok v, w')
    | None => (Raise ProviderError, w')
    end.

Definition encode_text (text : string) : M (option Vec) :=
  if negb (PyStr.truthy text) then ret None
  else emb <- model_call text ;; ret (Some emb).

Definition embed_and_store_job (job : Job) : M (option Vec) :=
  let job_text := _extract_job_text job in
  if negb (PyStr.truthy job_text) then ret None
  else
    emb <- encode_text job_text ;;
    match emb with
    | None => ret None
    | Some v =>
        match j_id job with
        | None => raise KeyError
        | Some i => update_job_embedding i v ;;; ret (Some v)
        end
    end.

Definition embed_and_store_candidate (candidate : Candidate) : M (option Vec) :=
  let cand_text := _extract_candidate_text candidate in
  if negb (PyStr.truthy cand_text) then ret None
  else
    emb <- encode_text cand_text ;;
    match emb with
    | None => ret None
    | Some v =>
        match c_id candidate with
        | None => raise KeyError
        | Some i => update_candidate_embedding i v ;;; ret (Some v)
        end
    end.

(** *** Composite score *)

(** The first [try] block of [calculate_match_score]. *)
Definition resolve_candidate_embedding (candidate : Candidate)
    (cand_text : string) : M (option Vec) :=
  try_except
    (match c_id candidate with
     | Some i =>
         cand_db <- find_candidate_by_id i ;;
         match cand_db with
         | Some d =>
             if truthy_emb (c_embedding d) then ret (c_embedding d)
             else embed_and_store_candidate candidate
         | None => embed_and_store_candidate candidate
         end
     | None => encode_text cand_text
     end)
    (encode_text cand_text).

(** The second [try] block of [calculate_match_score]. *)
Definition resolve_job_embedding (job : Job) (job_text : string)
    : M (option Vec) :=
  try_except
    (match j_id job with
     | Some i =>
         job_db <- find_job_by_id i ;;
         match job_db with
         | Some d =>
             if truthy_emb (j_embedding d) then ret (j_embedding d)
             else embed_and_store_job job
         | None => embed_and_store_job job
         end
     | None => encode_text job_text
     end)
    (encode_text job_text).

Definition calculate_match_score (candidate : Candidate) (job : Job) : M R :=
  let cand_text := _extract_candidate_text candidate in
  let job_text := _extract_job_text job in
  if negb (PyStr.truthy cand_text) || negb (PyStr.truthy job_text) then ret 0
  else
    candidate_emb <- resolve_candidate_embedding candidate cand_text ;;
    job_emb <- resolve_job_embedding job job_text ;;
    semantic_sim <- lift (_cosine_similarity candidate_emb job_emb) ;;
    let skill_score := _calculate_skill_match candidate job in
    let exp_boost := _calculate_experience_boost candidate in
    ret (composite semantic_sim skill_score exp_boost).

(** [calculate_match_score] on what a [find_one] gave back: the text
    extraction fails on [None]. *)
Definition score_fetched (candidate : option Candidate) (job : option Job)
    : M R :=
  match candidate, job with
  | Some c, Some j => calculate_match_score c j
  | _, _ => raise AttributeError
  end.

(** *** Candidate <-> Job search *)

(** A copy of a record with its identity as a string and its score. *)
Record Scored (D : Type) := mkScored
  { sc_doc : D; sc_id : string; match_score : R }.

(** [copy["_id"] = str(copy["_id"]); copy["match_score"] = score] *)
Definition scored_copy {D} (doc : D) (id : option oid) (score : R)
    : M (Scored D) :=
  match id with
  | Some i => ret (mkScored doc (str_oid env i) score)
  | None => raise KeyError
  end.

(** [record = col.find_one({"_id": record["_id"]})] *)
Definition refetch_candidate (candidate : Candidate) : M (option Candidate) :=
  match c_id candidate with
  | Some i => find_candidate_by_id i
  | None => raise KeyError
  end.

Definition refetch_job (job : Job) : M (option Job) :=
  match j_id job with
  | Some i => find_job_by_id i
  | None => raise KeyError
  end.

(** [if not candidate.get("embedding"):] embed, store and fetch again. *)
Definition ensure_candidate_embedding (candidate : Candidate)
    : M (option Candidate) :=
  if negb (truthy_emb (c_embedding candidate))
  then embed_and_store_candidate candidate ;;; refetch_candidate candidate
  else ret (Some candidate).

(** [if not job.get("embedding"):] embed, store and fetch again. *)
Definition ensure_job_embedding (job : Job) : M (option Job) :=
  if negb (truthy_emb (j_embedding job))
  then embed_and_store_job job ;;; refetch_job job
  else ret (Some job).

Definition find_matching_jobs_for_candidate (candidate_email : string)
    (top_n : Z) (source : option string) : M (list (Scored Job)) :=
  found <- find_candidate_by_email candidate_email ;;
  match found with
  | None => ret []
  | Some candidate0 =>
      candidate <- ensure_candidate_embedding candidate0 ;;
      jobs <- find_jobs source ;;
      scored <-
        mapM (fun job =>
                score <- score_fetched candidate (Some job) ;;
                scored_copy job (j_id job) score)
             jobs ;;
      ret (slice_to top_n (sort_desc (@match_score Job) scored))
  end.

(** The body of the [for candidate in candidates] loop. *)
Definition score_candidate (job : option Job) (candidate0 : Candidate)
    : M (Scored Candidate) :=
  candidate <- ensure_candidate_embedding candidate0 ;;
  score <- score_fetched candidate job ;;
  match candidate with
  | Some c => scored_copy c (c_id c) score
  | None => raise AttributeError
  end.

Definition find_matching_candidates_for_job (job_id : string) (top_n : Z)
    : M (list (Scored Candidate)) :=
  looked_up <-
    try_except
      (match ObjectId env job_id with
       | Some i => found <- find_job_by_id i ;; ret (Some found)
       | None => raise InvalidId
       end)
      (ret None) ;;
  match looked_up with
  | None => ret []                       (* [except Exception: return []] *)
  | Some None => ret []                  (* [if not job: return []] *)
  | Some (Some job0) =>
      job <- ensure_job_embedding job0 ;;
      candidates <- find_candidates ;;
      scored <- mapM (score_candidate job) candidates ;;
      ret (slice_to top_n (sort_desc (@match_score Candidate) scored))
  end.

(** *** Skill gap analysis *)

Definition _generate_recommendations (missing_skills : list string)
    : list string :=
  map (fun s => ("Consider learning " ++ PyStr.title s
                 ++ " through online courses or certifications")%string)
      (slice_to 5 missing_skills).

Record GapReport := mkGapReport
  { job_title : string;
    match_percentage : R;
    matching_skills : list string;
    missing_skills : list string;
    total_required : nat;
    recommendations : list string }.

(** The dictionary [analyze_skill_gaps] returns: one with the key
    ["error"], or a report. *)
Inductive GapResult :=
| GapError (message : string)
| Gaps (report : GapReport).

Definition gap_report (candidate : Candidate) (job : Job) : GapReport :=
  let candidate_skills :=
    py_set (map (fun s => PyStr.lower (s_name s)) (c_skills candidate)) in
  let required_skills := py_set (map PyStr.lower (j_required_skills job)) in
  let missing_skills :=
    sorted (filter (fun s => negb (mem s candidate_skills)) required_skills) in
  let matching_skills :=
    sorted (filter (fun s => mem s candidate_skills) required_skills) in
  let match_percentage :=
    if Nat.ltb 0 (List.length required_skills)
    then PyNum.py_round
           (INR (List.length matching_skills)
            / INR (List.length required_skills) * 100) 1
    else 0 in
  mkGapReport (j_title job) match_percentage matching_skills missing_skills
    (List.length required_skills) (_generate_recommendations missing_skills).

Definition analyze_skill_gaps (candidate_email job_id : string) : M GapResult :=
  candidate <- find_candidate_by_email candidate_email ;;
  looked_up <-
    try_except
      (match ObjectId env job_id with
       | Some i => found <- find_job_by_id i ;; ret (Some found)
       | None => raise InvalidId
       end)
      (ret None) ;;
  match looked_up with
  | None => ret (GapError "Invalid job ID")
  | Some job =>
      match candidate, job with
      | Some c, Some j => ret (Gaps (gap_report c j))
      | _, _ => ret (GapError "Candidate or job not found")
      end
  end.

End Engine.

(* ------------------------------------------------------------------ *)
(** ** A concrete environment, for the examples *)
(* ------------------------------------------------------------------ *)

Module Sample.

Local Open Scope N_scope.

Definition hex_digit (c : ascii) : option N :=
  let n := N_of_ascii c in
  if (48 <=? n) && (n <=? 57) then Some (n - 48)
  else if (97 <=? n) && (n <=? 102) then Some (n - 87)
  else if (65 <=? n) && (n <=? 70) then Some (n - 55)
  else None.

Fixpoint hex_value (acc : N) (s : string) : option N :=
  match s with
  | EmptyString => Some acc
  | String c r =>
      match hex_digit c with
      | Some d => hex_value (16 * acc + d) r
      | None => None
      end
  end.

(** Twenty-four hexadecimal digits name an identity; nothing else does. *)
Definition parse_oid (s : string) : option oid :=
  if Nat.eqb (String.length s) 24 then hex_value 0 s else None.

Definition hex_char (d : N) : ascii :=
  if d <? 10 then ascii_of_N (48 + d) else ascii_of_N (87 + d).

Fixpoint hex_string (digits : nat) (n : N) (acc : string) : string :=
  match digits with
  | O => acc
  | S k => hex_string k (n / 16) (String (hex_char (n mod 16)) acc)
  end.

Definition print_oid (i : oid) : string := hex_string 24 i EmptyString.

(** A model that answers every text with the same unit vector. *)
Definition steady_model (_ : nat) (_ : string) : option Vec :=
  Some [1%R; 0%R].


Definition always_up (_ : nat) : bool := true.

Definition env : Env := mkEnv parse_oid print_oid steady_model always_up.



Local Open Scope string_scope.

Definition python80 : Skill := mkSkill "python" 80.

Definition alice : Candidate :=
  mkCandidate (Some 1) "alice@example.org" (Some "hash") "Backend developer"
    [python80] [mkExperience "Engineer" "Acme" "APIs"] [] [] None.

Definition stranger : Candidate :=
  mkCandidate None "" None "Data analyst" [] [] [] [] None.

Definition backend_job : Job :=
  mkJob (Some 10) "Backend engineer" "Initech" "Build services"
    ["Python"; "SQL"] "Full-time" "Remote" "hr" None.

Definition draft_job : Job :=
  mkJob None "Analyst" "" "" [] "" "" "hr" None.

Definition world : World := mkWorld [alice] [backend_job] [] 0.

End Sample.

(* ------------------------------------------------------------------ *)
(** ** Numbers *)
(* ------------------------------------------------------------------ *)

Lemma py_min_Rmin (a b : R) : PyNum.py_min a b = Rmin a b.
Proof.
  unfold PyNum.py_min, Rmin.
  destruct (Rlt_dec b a), (Rle_dec a b); lra.
Qed.



Lemma round_half_even_near (x : R) :
  Rabs (IZR (PyNum.round_half_even x) - x) <= 1 / 2.
Proof.
  unfold PyNum.round_half_even.
  destruct (base_Int_part x) as [Hlo Hhi].
  destruct (Rlt_dec _ _) as [H1 | H1].
  - apply Rabs_le. lra.
  - destruct (Rlt_dec _ _) as [H2 | H2].
    + rewrite plus_IZR. apply Rabs_le. lra.
    + destruct (Z.even _).
      * apply Rabs_le. lra.
      * rewrite plus_IZR. apply Rabs_le. lra.
Qed.

(** Rounding is monotone against an integer bound on either side. *)
Lemma round_half_even_le (x : R) (n : Z) :
  x <= IZR n -> (PyNum.round_half_even x <= n)%Z.
Proof.
  intros Hx. unfold PyNum.round_half_even.
  destruct (base_Int_part x) as [Hlo Hhi].
  assert (Hf : (Int_part x <= n)%Z) by (apply le_IZR; lra).
  destruct (Rlt_dec _ _) as [H1 | H1]; [exact Hf |].
  assert (Hlt : (Int_part x < n)%Z).
  { apply lt_IZR. lra. }
  destruct (Rlt_dec _ _); [lia |].
  destruct (Z.even _); lia.
Qed.

Lemma round_half_even_ge (x : R) (n : Z) :
  IZR n <= x -> (n <= PyNum.round_half_even x)%Z.
Proof.
  intros Hx. unfold PyNum.round_half_even.
  destruct (base_Int_part x) as [Hlo Hhi].
  assert (Hf : (n <= Int_part x)%Z).
  { apply Z.lt_succ_r. apply lt_IZR. rewrite succ_IZR. lra. }
  destruct (Rlt_dec _ _); [exact Hf |].
  destruct (Rlt_dec _ _); [lia |].
  destruct (Z.even _); lia.
Qed.

Lemma round_half_even_IZR (n : Z) : PyNum.round_half_even (IZR n) = n.
Proof.
  apply Z.le_antisymm.
  - apply round_half_even_le. lra.
  - apply round_half_even_ge. lra.
Qed.

Lemma pow10_pos (n : nat) : 0 < 10 ^ n.
Proof. apply pow_lt. lra. Qed.

(** [round(x, n)] is a whole number of units [10^-n], at most half a unit
    away from [x]. *)
Lemma py_round_spec (x : R) (n : nat) :
  exists k : Z,
    PyNum.py_round x n = IZR k / 10 ^ n
    /\ Rabs (PyNum.py_round x n - x) <= / 2 / 10 ^ n.
Proof.
  exists (PyNum.round_half_even (x * 10 ^ n)). split; [reflexivity |].
  unfold PyNum.py_round.
  pose proof (pow10_pos n) as Hp.
  pose proof (round_half_even_near (x * 10 ^ n)) as Hn.
  set (k := IZR (PyNum.round_half_even (x * 10 ^ n))) in *.
  replace (k / 10 ^ n - x) with ((k - x * 10 ^ n) / 10 ^ n) by (field; lra).
  unfold Rdiv at 1. rewrite Rabs_mult, (Rabs_pos_eq (/ 10 ^ n)).
  - apply Rmult_le_reg_r with (10 ^ n); [exact Hp |].
    replace (Rabs (k - x * 10 ^ n) * / 10 ^ n * 10 ^ n)
      with (Rabs (k - x * 10 ^ n)) by (field; lra).
    replace (/ 2 / 10 ^ n * 10 ^ n) with (1 / 2) by (field; lra).
    exact Hn.
  - left. apply Rinv_0_lt_compat. exact Hp.
Qed.


Lemma py_round_IZR_div (k : Z) (n : nat) :
  PyNum.py_round (IZR k / 10 ^ n) n = IZR k / 10 ^ n.
Proof.
  unfold PyNum.py_round.
  pose proof (pow10_pos n) as Hp.
  replace (IZR k / 10 ^ n * 10 ^ n) with (IZR k) by (field; lra).
  rewrite round_half_even_IZR. reflexivity.
Qed.

Lemma py_round_0 (n : nat) : PyNum.py_round 0 n = 0.
Proof.
  replace 0 with (IZR 0 / 10 ^ n) at 1.
  - rewrite py_round_IZR_div. unfold Rdiv. apply Rmult_0_l.
  - unfold Rdiv. apply Rmult_0_l.
Qed.



(* ------------------------------------------------------------------ *)
(** ** Experience boost *)
(* ------------------------------------------------------------------ *)

Lemma experience_boost_formula (c : Candidate) :
  _calculate_experience_boost c
  = Rmin (INR (List.length (c_experience c)) * (5 / 100)) (2 / 10).
Proof.
  unfold _calculate_experience_boost.
  destruct (c_experience c) as [| e r]; cbn [truthy_list negb].
  - cbn [List.length INR]. rewrite Rmin_left; lra.
  - apply py_min_Rmin.
Qed.

(** C9. The experience boost is [min(count * 0.05, 0.2)] of the number of
    experience entries: never above 0.2, non-decreasing in the count, 0.0
    for no entry and 0.2 for four entries and for ten. *)
Theorem experience_boost_spec (c : Candidate) :
  let n := List.length (c_experience c) in
  _calculate_experience_boost c = Rmin (INR n * (5 / 100)) (2 / 10)
  /\ _calculate_experience_boost c <= 2 / 10
  /\ (forall c' : Candidate,
        (n <= List.length (c_experience c'))%nat ->
        _calculate_experience_boost c <= _calculate_experience_boost c')
  /\ (n = 0%nat -> _calculate_experience_boost c = 0)
  /\ (n = 4%nat -> _calculate_experience_boost c = 2 / 10)
  /\ (n = 10%nat -> _calculate_experience_boost c = 2 / 10).
Proof.
  intros n. subst n. rewrite experience_boost_formula.
  repeat split.
  - apply Rmin_r.
  - intros c' Hle. rewrite experience_boost_formula.
    apply le_INR in Hle.
    apply Rle_min_compat_r. lra.
  - intros ->. cbn [INR]. rewrite Rmin_left; lra.
  - intros ->. rewrite Rmin_left; [| cbn; lra]. cbn. lra.
  - intros ->. rewrite Rmin_right; [| cbn; lra]. reflexivity.
Qed.

(* ------------------------------------------------------------------ *)
(** ** Cosine similarity *)
(* ------------------------------------------------------------------ *)









(** The boost of a candidate with four experience entries. *)
Lemma experience_boost_witness :
  let four := repeat (mkExperience "Engineer" "Acme" "APIs") 4 in
  _calculate_experience_boost
    (mkCandidate None "" None "" [] four [] [] None) = 2 / 10.
Proof.
  intros four.
  destruct (experience_boost_spec
              (mkCandidate None "" None "" [] four [] [] None))
    as (_ & _ & _ & _ & Hfour & _).
  apply Hfour. reflexivity.
Defined.

(* ------------------------------------------------------------------ *)
(** ** Skill overlap *)
(* ------------------------------------------------------------------ *)

Definition sum_R (l : list R) : R := fold_right Rplus 0 l.

(** A skill as the matching sees it: its name in lower case, its level. *)
Definition skill_key (s : Skill) : string * Z :=
  (PyStr.lower (s_name s), s_level s).

(** The level the candidate map holds for a key: that of the last skill
    with a name, whose name in lower case is the key. *)
Definition last_level_of (k : string) (keys : list (string * Z)) : option Z :=
  fold_left
    (fun acc kv =>
       if PyStr.truthy (fst kv) && String.eqb k (fst kv) then Some (snd kv)
       else acc)
    keys None.

Definition last_level (k : string) (skills : list Skill) : option Z :=
  last_level_of k (map skill_key skills).

(** What one required skill adds to [matched_weight]. *)
Definition skill_term (skills : list Skill) (required_skill : string) : R :=
  match last_level (PyStr.lower required_skill) skills with
  | Some level => IZR level / 100
  | None => 0
  end.

Lemma truthy_lower (s : string) : PyStr.truthy (PyStr.lower s) = PyStr.truthy s.
Proof. destruct s; reflexivity. Qed.

Lemma dict_get_set (V : Type) (k k' : string) (v : V) (d : dict V) :
  dict_get k (dict_set k' v d)
  = if String.eqb k k' then Some v else dict_get k d.
Proof.
  induction d as [| [k0 v0] d IH]; cbn.
  - reflexivity.
  - destruct (String.eqb_spec k' k0) as [-> | Hne]; cbn.
    + destruct (String.eqb k k0); reflexivity.
    + rewrite IH. destruct (String.eqb_spec k k0) as [-> | Hne'].
      * destruct (String.eqb_spec k0 k') as [E | _]; [congruence | reflexivity].
      * reflexivity.
Qed.

Lemma dict_get_fold (V A : Type) (key : A -> string) (val : A -> V)
    (k : string) (l : list A) (d : dict V) :
  dict_get k (fold_left (fun d x => dict_set (key x) (val x) d) l d)
  = fold_left (fun acc x => if String.eqb k (key x) then Some (val x) else acc)
      l (dict_get k d).
Proof.
  revert d. induction l as [| x l IH]; intros d; cbn; [reflexivity |].
  rewrite IH, dict_get_set. reflexivity.
Qed.

(** The dictionary [cand_skills] is the last-wins map of the claim. *)
Lemma cand_skills_lookup (k : string) (skills : list Skill) :
  dict_get k
    (dict_of (fun s => PyStr.lower (s_name s)) s_level
       (filter (fun s => PyStr.truthy (s_name s)) skills))
  = last_level k skills.
Proof.
  unfold dict_of, last_level, last_level_of. rewrite dict_get_fold. cbn [dict_get].
  generalize (@None Z) as acc.
  induction skills as [| s skills IH]; intros acc; cbn; [reflexivity |].
  rewrite truthy_lower.
  destruct (PyStr.truthy (s_name s)); cbn; apply IH.
Qed.

Lemma skill_loop_acc (d : dict Z) (required : list string) (n : nat) (m : R) :
  fold_left
    (fun (acc : nat * R) skill =>
       let total_weight := S (fst acc) in
       match dict_get skill d with
       | Some level => (total_weight, snd acc + IZR level / 100)
       | None => (total_weight, snd acc)
       end)
    required (n, m)
  = ((n + List.length required)%nat,
     m + sum_R (map (fun skill => match dict_get skill d with
                                  | Some level => IZR level / 100
                                  | None => 0
                                  end) required)).
Proof.
  revert n m. induction required as [| r required IH]; intros n m; cbn.
  - f_equal; [lia | lra].
  - destruct (dict_get r d); cbn; rewrite IH; f_equal; try lia;
      unfold sum_R; lra.
Qed.

(** The value [_calculate_skill_match] returns, in closed form. *)
Lemma skill_match_formula (c : Candidate) (j : Job) :
  _calculate_skill_match c j
  = if truthy_list (j_required_skills j) && truthy_list (c_skills c)
    then sum_R (map (skill_term (c_skills c)) (j_required_skills j))
         / INR (List.length (j_required_skills j))
    else 0.
Proof.
  unfold _calculate_skill_match.
  destruct (j_required_skills j) as [| r required] eqn:Hreq; [reflexivity |].
  cbn [truthy_list negb andb].
  destruct (c_skills c) as [| s skills] eqn:Hsk; [reflexivity |].
  cbn [truthy_list negb]. rewrite <- Hsk.
  unfold skill_loop. rewrite skill_loop_acc.
  rewrite length_map. cbn [List.length Nat.add Nat.eqb].
  f_equal. rewrite Rplus_0_l. rewrite map_map. f_equal.
  apply map_ext. intros x. unfold skill_term. rewrite cand_skills_lookup.
  reflexivity.
Qed.






(* ------------------------------------------------------------------ *)
(** ** Reasoning about computations *)
(* ------------------------------------------------------------------ *)

Unset Implicit Arguments.

(** [post m w Q]: run from [w], [m] ends in an outcome and a world that
    satisfy [Q]. *)
Definition post {A} (m : M A) (w : World) (Q : result A -> World -> Prop)
    : Prop :=
  Q (fst (m w)) (snd (m w)).

Lemma post_run {A} {m : M A} {w : World} {Q : result A -> World -> Prop} {r w'} :
  post m w Q -> m w = (r, w') -> Q r w'.
Proof. unfold post. intros H E. rewrite E in H. exact H. Qed.

Lemma post_weaken {A} {m : M A} {w : World} {P Q : result A -> World -> Prop} :
  post m w P -> (forall r w', P r w' -> Q r w') -> post m w Q.
Proof. unfold post. auto. Qed.

Lemma post_and {A} {m : M A} {w : World} {P Q : result A -> World -> Prop} :
  post m w P -> post m w Q -> post m w (fun r w' => P r w' /\ Q r w').
Proof. unfold post. auto. Qed.

Lemma post_ret {A} (a : A) w (Q : result A -> World -> Prop) :
  Q (Ok a) w -> post (ret a) w Q.
Proof. auto. Qed.

Lemma post_raise {A} (e : exn) w (Q : result A -> World -> Prop) :
  Q (Raise e) w -> post (raise e) w Q.
Proof. auto. Qed.

Lemma post_lift {A} (r : result A) w (Q : result A -> World -> Prop) :
  Q r w -> post (lift r) w Q.
Proof. auto. Qed.

Lemma post_bind {A B} (m : M A) (k : A -> M B) w (Q : result B -> World -> Prop) :
  post m w (fun r w1 => match r with
                        | Ok a => post (k a) w1 Q
                        | Raise e => Q (Raise e) w1
                        end) ->
  post (bind m k) w Q.
Proof.
  unfold post, bind. destruct (m w) as [[a | e] w1]; cbn; auto.
Qed.

Lemma post_try {A} (body handler : M A) w (Q : result A -> World -> Prop) :
  post body w (fun r w1 => match r with
                           | Ok a => Q (Ok a) w1
                           | Raise _ => post handler w1 Q
                           end) ->
  post (try_except body handler) w Q.
Proof.
  unfold post, try_except. destruct (body w) as [[a | e] w1]; cbn; auto.
Qed.

Lemma post_store_call (env : Env) {A} (op : World -> A * World) w
    (Q : result A -> World -> Prop) :
  (store_up env (store_ops w) = true ->
   Q (Ok (fst (op (tick w)))) (snd (op (tick w)))) ->
  (store_up env (store_ops w) = false -> Q (Raise StoreError) (tick w)) ->
  post (store_call env op) w Q.
Proof.
  unfold post, store_call. intros Hup Hdown.
  destruct (store_up env (store_ops w)).
  - destruct (op (tick w)); cbn in *. auto.
  - cbn. auto.
Qed.

Lemma post_model_call (env : Env) (text : string) w
    (Q : result Vec -> World -> Prop) :
  (forall v, model_encode env (List.length (encoded w)) text = Some v ->
             Q (Ok v) (log_encode text w)) ->
  (model_encode env (List.length (encoded w)) text = None ->
   Q (Raise ProviderError) (log_encode text w)) ->
  post (model_call env text) w Q.
Proof.
  unfold post, model_call. intros Hsome Hnone.
  destruct (model_encode env _ text); cbn; auto.
Qed.

Lemma post_encode_text (env : Env) (text : string) w
    (Q : result (option Vec) -> World -> Prop) :
  PyStr.truthy text = true ->
  (forall v, model_encode env (List.length (encoded w)) text = Some v ->
             Q (Ok (Some v)) (log_encode text w)) ->
  (model_encode env (List.length (encoded w)) text = None ->
   Q (Raise ProviderError) (log_encode text w)) ->
  post (encode_text env text) w Q.
Proof.
  intros Ht Hsome Hnone. unfold encode_text. rewrite Ht. cbn [negb].
  apply post_bind, post_model_call.
  - intros v Hv. apply post_ret. auto.
  - auto.
Qed.

Lemma post_mapM {A B} (f : A -> M B) (I : World -> Prop)
    (P : A -> B -> Prop) (l : list A) w :
  I w ->
  (forall x w0, In x l -> I w0 ->
     post (f x) w0 (fun r w1 => I w1 /\ forall y, r = Ok y -> P x y)) ->
  post (mapM f l) w
    (fun r w1 => I w1 /\ forall ys, r = Ok ys -> Forall2 P l ys).
Proof.
  revert w. induction l as [| x l IH]; intros w Hw Hf; cbn [mapM].
  - apply post_ret. split; [exact Hw |]. intros ys [= <-]. constructor.
  - apply post_bind.
    apply (post_weaken (Hf x w (or_introl eq_refl) Hw)).
    intros [y | e] w1 [Hw1 Hy]; [| split; [exact Hw1 | discriminate]].
    apply post_bind.
    apply (post_weaken (IH w1 Hw1 (fun x0 w0 Hin => Hf x0 w0 (or_intror Hin)))).
    intros [ys | e] w2 [Hw2 Hys]; [| split; [exact Hw2 | discriminate]].
    apply post_ret. split; [exact Hw2 |].
    intros ys' [= <-]. constructor; auto.
Qed.

(* ------------------------------------------------------------------ *)
(** ** The composite score *)
(* ------------------------------------------------------------------ *)

(** Every stored embedding that counts (one that is not empty) has [D]
    components. *)
Definition emb_dim (D : nat) (e : option Vec) : Prop :=
  forall v, e = Some v -> truthy_emb e = true -> List.length v = D.

Definition dims_ok (D : nat) (w : World) : Prop :=
  Forall (fun c => emb_dim D (c_embedding c)) (candidates w)
  /\ Forall (fun j => emb_dim D (j_embedding j)) (jobs w).

(** The model answers every call, with a vector of [D] components. *)
Definition provider_total (D : nat) (env : Env) : Prop :=
  forall k text, exists v,
    model_encode env k text = Some v /\ List.length v = D.

(** The store answers every operation. *)
Definition store_total (env : Env) : Prop := forall k, store_up env k = true.

Lemma update_first_Forall {A} (P : A -> Prop) (p : A -> bool)
    (f : A -> A) (l : list A) :
  Forall P l -> (forall x, P x -> P (f x)) -> Forall P (update_first p f l).
Proof.
  intros Hl Hf. induction Hl as [| x l Hx Hl IH]; cbn; [constructor |].
  destruct (p x); constructor; auto.
Qed.

Lemma dims_ok_set_candidate D i v w w' :
  List.length v = D -> dims_ok D w ->
  candidates w'
  = update_first (fun c => id_is i (c_id c)) (set_c_embedding v) (candidates w) ->
  jobs w' = jobs w ->
  dims_ok D w'.
Proof.
  intros Hv [Hc Hj] Ec Ej. split; rewrite ?Ec, ?Ej; [| exact Hj].
  apply update_first_Forall; [exact Hc |].
  intros c _ v' [= <-] _. exact Hv.
Qed.

Lemma dims_ok_set_job D i v w w' :
  List.length v = D -> dims_ok D w ->
  candidates w' = candidates w ->
  jobs w'
  = update_first (fun j => id_is i (j_id j)) (set_j_embedding v) (jobs w) ->
  dims_ok D w'.
Proof.
  intros Hv [Hc Hj] Ec Ej. split; rewrite ?Ec, ?Ej; [exact Hc |].
  apply update_first_Forall; [exact Hj |].
  intros j _ v' [= <-] _. exact Hv.
Qed.

Ltac simpl_world :=
  cbn [fst snd candidates jobs encoded store_ops tick with_candidates
       with_jobs log_encode].

(** What a resolution must deliver for the score to be computed: a vector
    of [D] components, in a store that still has only such vectors. *)
Definition resolved (D : nat) (r : result (option Vec)) (w : World) : Prop :=
  dims_ok D w /\ exists v, r = Ok (Some v) /\ List.length v = D.

Section Totality.

Variable env : Env.
Variable D : nat.
Hypothesis Hmodel : provider_total D env.

Lemma encode_text_resolved (text : string) (w : World) :
  PyStr.truthy text = true -> dims_ok D w ->
  post (encode_text env text) w (resolved D).
Proof.
  intros Ht Hd. apply post_encode_text; [exact Ht | |].
  - intros v Hv. split; [exact Hd |]. exists v. split; [reflexivity |].
    destruct (Hmodel (List.length (encoded w)) text) as (v' & Hv' & Hlen).
    congruence.
  - intros Hnone.
    destruct (Hmodel (List.length (encoded w)) text) as (v' & Hv' & _).
    congruence.
Qed.

(** [embed_and_store_candidate] yields a vector of [D] components or
    raises, and keeps the store in shape either way. *)
Lemma embed_and_store_candidate_dims (c : Candidate) (w : World) :
  PyStr.truthy (_extract_candidate_text c) = true -> dims_ok D w ->
  post (embed_and_store_candidate env c) w
    (fun r w' => match r with
                 | Ok _ => resolved D r w'
                 | Raise _ => dims_ok D w'
                 end).
Proof.
  intros Ht Hd. unfold embed_and_store_candidate. rewrite Ht. cbn [negb].
  apply post_bind.
  apply (post_weaken (encode_text_resolved _ w Ht Hd)).
  intros r w1 [Hd1 (v & -> & Hlen)].
  destruct (c_id c) as [i |]; [| apply post_raise; exact Hd1].
  apply post_bind, post_store_call; simpl_world.
  - intros _. apply post_ret. split.
    + eapply dims_ok_set_candidate; [exact Hlen | exact Hd1 | |]; reflexivity.
    + eauto.
  - intros _. exact Hd1.
Qed.

Lemma embed_and_store_job_dims (j : Job) (w : World) :
  PyStr.truthy (_extract_job_text j) = true -> dims_ok D w ->
  post (embed_and_store_job env j) w
    (fun r w' => match r with
                 | Ok _ => resolved D r w'
                 | Raise _ => dims_ok D w'
                 end).
Proof.
  intros Ht Hd. unfold embed_and_store_job. rewrite Ht. cbn [negb].
  apply post_bind.
  apply (post_weaken (encode_text_resolved _ w Ht Hd)).
  intros r w1 [Hd1 (v & -> & Hlen)].
  destruct (j_id j) as [i |]; [| apply post_raise; exact Hd1].
  apply post_bind, post_store_call; simpl_world.
  - intros _. apply post_ret. split.
    + eapply dims_ok_set_job; [exact Hlen | exact Hd1 | |]; reflexivity.
    + eauto.
  - intros _. exact Hd1.
Qed.

(** The first [try] block always yields a vector of [D] components. *)
Lemma resolve_candidate_embedding_total (c : Candidate) (w : World) :
  PyStr.truthy (_extract_candidate_text c) = true -> dims_ok D w ->
  post (resolve_candidate_embedding env c (_extract_candidate_text c)) w
    (resolved D).
Proof.
  intros Ht Hd. unfold resolve_candidate_embedding. apply post_try.
  assert (Hembed : forall w0, dims_ok D w0 ->
    post (embed_and_store_candidate env c) w0
      (fun r w1 => match r with
                   | Ok a => resolved D (Ok a) w1
                   | Raise _ =>
                       post (encode_text env (_extract_candidate_text c)) w1
                         (resolved D)
                   end)).
  { intros w0 Hd0.
    apply (post_weaken (embed_and_store_candidate_dims c w0 Ht Hd0)).
    intros [a | e] w1 H; [exact H |].
    apply encode_text_resolved; assumption. }
  destruct (c_id c) as [i |].
  - unfold find_candidate_by_id, read.
    apply post_bind, post_store_call; simpl_world.
    + intros _.
      destruct (find _ (candidates w)) as [d |] eqn:Hfind;
        [| apply Hembed; exact Hd].
      destruct (truthy_emb (c_embedding d)) eqn:Htr; [| apply Hembed; exact Hd].
      apply post_ret. split; [exact Hd |].
      apply find_some in Hfind. destruct Hfind as [Hin _].
      destruct Hd as [Hc _]. rewrite Forall_forall in Hc.
      specialize (Hc d Hin).
      destruct (c_embedding d) as [v |] eqn:He; [| discriminate].
      exists v. split; [reflexivity |]. apply Hc; [reflexivity | exact Htr].
    + intros _. apply encode_text_resolved; assumption.
  - apply (post_weaken (encode_text_resolved _ w Ht Hd)).
    intros r w1 H. destruct H as [Hd1 (v & -> & Hlen)]. split; eauto.
Qed.

Lemma resolve_job_embedding_total (j : Job) (w : World) :
  PyStr.truthy (_extract_job_text j) = true -> dims_ok D w ->
  post (resolve_job_embedding env j (_extract_job_text j)) w (resolved D).
Proof.
  intros Ht Hd. unfold resolve_job_embedding. apply post_try.
  assert (Hembed : forall w0, dims_ok D w0 ->
    post (embed_and_store_job env j) w0
      (fun r w1 => match r with
                   | Ok a => resolved D (Ok a) w1
                   | Raise _ =>
                       post (encode_text env (_extract_job_text j)) w1
                         (resolved D)
                   end)).
  { intros w0 Hd0.
    apply (post_weaken (embed_and_store_job_dims j w0 Ht Hd0)).
    intros [a | e] w1 H; [exact H |].
    apply encode_text_resolved; assumption. }
  destruct (j_id j) as [i |].
  - unfold find_job_by_id, read.
    apply post_bind, post_store_call; simpl_world.
    + intros _.
      destruct (find _ (jobs w)) as [d |] eqn:Hfind;
        [| apply Hembed; exact Hd].
      destruct (truthy_emb (j_embedding d)) eqn:Htr; [| apply Hembed; exact Hd].
      apply post_ret. split; [exact Hd |].
      apply find_some in Hfind. destruct Hfind as [Hin _].
      destruct Hd as [_ Hj]. rewrite Forall_forall in Hj.
      specialize (Hj d Hin).
      destruct (j_embedding d) as [v |] eqn:He; [| discriminate].
      exists v. split; [reflexivity |]. apply Hj; [reflexivity | exact Htr].
    + intros _. apply encode_text_resolved; assumption.
  - apply (post_weaken (encode_text_resolved _ w Ht Hd)).
    intros r w1 H. destruct H as [Hd1 (v & -> & Hlen)]. split; eauto.
Qed.

Lemma cosine_similarity_same_dim (a b : Vec) :
  List.length a = D -> List.length b = D ->
  exists s, _cosine_similarity (Some a) (Some b) = Ok s.
Proof.
  intros Ha Hb. cbn. destruct (Req_dec_T _ _); [eauto |].
  unfold np_dot. rewrite Ha, Hb, Nat.eqb_refl. eauto.
Qed.

(** With a model that answers, a scoring request returns a number, and
    leaves the store in shape, whatever the store does. *)
Lemma calculate_match_score_total (c : Candidate) (j : Job) (w : World) :
  dims_ok D w ->
  post (calculate_match_score env c j) w
    (fun r w' => dims_ok D w' /\ exists s, r = Ok s).
Proof.
  intros Hd. unfold calculate_match_score.
  destruct (PyStr.truthy (_extract_candidate_text c)) eqn:Hc;
    [| apply post_ret; eauto].
  destruct (PyStr.truthy (_extract_job_text j)) eqn:Hj;
    [| apply post_ret; eauto].
  cbn [negb orb]. apply post_bind.
  apply (post_weaken (resolve_candidate_embedding_total c w Hc Hd)).
  intros r w1 [Hd1 (vc & -> & Hlc)].
  apply post_bind.
  apply (post_weaken (resolve_job_embedding_total j w1 Hj Hd1)).
  intros r w2 [Hd2 (vj & -> & Hlj)].
  apply post_bind, post_lift.
  destruct (cosine_similarity_same_dim vc vj Hlc Hlj) as (s & ->).
  apply post_ret. eauto.
Qed.

End Totality.

Lemma truthy_false_iff (s : string) : PyStr.truthy s = false <-> s = ""%string.
Proof. destruct s; cbn; split; congruence. Qed.

Lemma truthy_true_iff (s : string) : PyStr.truthy s = true <-> s <> ""%string.
Proof. destruct s; cbn; split; congruence. Qed.



Lemma sample_provider_total : provider_total 2 Sample.env.
Proof. intros k text. exists [1; 0]. split; reflexivity. Qed.

Lemma sample_dims_ok : dims_ok 2 Sample.world.
Proof. split; repeat constructor; intros v; discriminate. Qed.


(* ------------------------------------------------------------------ *)
(** ** Failures while an embedding is resolved *)
(* ------------------------------------------------------------------ *)

Tactic Notation "simpl_world" "in" hyp(H) :=
  cbn [fst snd candidates jobs encoded store_ops tick with_candidates
       with_jobs log_encode] in H.




Section Fallback.

Variable env : Env.






End Fallback.





(* ------------------------------------------------------------------ *)
(** ** Malformed job identities *)
(* ------------------------------------------------------------------ *)

(** What the two job-scoped operations of the engine do with a malformed
    job identity, and with a valid identity that matches no record:
    [analyze_skill_gaps] tells them apart, ["Invalid job ID"] against
    ["Candidate or job not found"]; [find_matching_candidates_for_job]
    returns the empty list for both. *)
Lemma malformed_job_identity (env : Env) (w : World)
    (candidate_email job_id : string) (top_n : Z) :
  ObjectId env job_id = None ->
  (store_up env (store_ops w) = true ->
   analyze_skill_gaps env candidate_email job_id w
   = (Ok (GapError "Invalid job ID"), tick w))
  /\ (forall (valid_id : string) (i : oid),
        ObjectId env valid_id = Some i ->
        find (fun j => id_is i (j_id j)) (jobs w) = None ->
        store_up env (store_ops w) = true ->
        store_up env (S (store_ops w)) = true ->
        analyze_skill_gaps env candidate_email valid_id w
        = (Ok (GapError "Candidate or job not found"), tick (tick w)))
  /\ GapError "Invalid job ID" <> GapError "Candidate or job not found"
  /\ find_matching_candidates_for_job env job_id top_n w = (Ok [], w)
  /\ (forall (valid_id : string) (i : oid),
        ObjectId env valid_id = Some i ->
        find (fun j => id_is i (j_id j)) (jobs w) = None ->
        store_up env (store_ops w) = true ->
        find_matching_candidates_for_job env valid_id top_n w
        = (Ok [], tick w)).
Proof.
  intros Hbad. split; [| split; [| split; [| split]]].
  - intros Hup. unfold analyze_skill_gaps, find_candidate_by_email.
    unfold bind, try_except, store_call, read, raise, ret.
    rewrite Hup, Hbad. reflexivity.
  - intros valid_id i Hid Hnone Hup1 Hup2.
    unfold analyze_skill_gaps, find_candidate_by_email, find_job_by_id.
    unfold bind, try_except, store_call, read, raise, ret.
    rewrite Hup1, Hid. simpl_world. rewrite Hup2. simpl_world. rewrite Hnone.
    destruct (find _ (candidates w)); reflexivity.
  - discriminate.
  - unfold find_matching_candidates_for_job.
    unfold bind, try_except, raise, ret. rewrite Hbad. reflexivity.
  - intros valid_id i Hid Hnone Hup.
    unfold find_matching_candidates_for_job, find_job_by_id.
    unfold bind, try_except, store_call, read, raise, ret.
    rewrite Hid, Hup. simpl_world. rewrite Hnone. reflexivity.
Qed.

(** C1, at a failing input.  A malformed job identity should have an
    outcome of its own, never that of a valid identity that matches no
    record.  In the sample world, whose only job has identity 10, the
    string [not-an-id] is no identity and [0000000000000000000000ff] is the
    identity 255 of no record.  [analyze_skill_gaps] answers the first with
    ["Invalid job ID"] and the second with ["Candidate or job not found"];
    [find_matching_candidates_for_job] answers both with the empty list. *)
Theorem malformed_and_unknown_job_look_alike :
  ObjectId Sample.env "not-an-id" = None
  /\ ObjectId Sample.env "0000000000000000000000ff" = Some 255%N
  /\ find (fun j => id_is 255%N (j_id j)) (jobs Sample.world) = None
  /\ fst (analyze_skill_gaps Sample.env "alice@example.org" "not-an-id"
            Sample.world) = Ok (GapError "Invalid job ID")
  /\ fst (analyze_skill_gaps Sample.env "alice@example.org"
            "0000000000000000000000ff" Sample.world)
     = Ok (GapError "Candidate or job not found")
  /\ fst (find_matching_candidates_for_job Sample.env "not-an-id" 20
            Sample.world) = Ok []
  /\ fst (find_matching_candidates_for_job Sample.env
            "0000000000000000000000ff" 20 Sample.world) = Ok [].
Proof.
  destruct (malformed_job_identity Sample.env Sample.world "alice@example.org"
              "not-an-id" 20 eq_refl) as (Hbad & Hunknown & _ & Hlist & Hlist').
  split; [reflexivity |]. split; [reflexivity |]. split; [reflexivity |].
  split; [rewrite Hbad; reflexivity |].
  split;
    [rewrite (Hunknown "0000000000000000000000ff"%string 255%N); reflexivity |].
  split; [rewrite Hlist; reflexivity |].
  rewrite (Hlist' "0000000000000000000000ff"%string 255%N); reflexivity.
Qed.

(* ------------------------------------------------------------------ *)
(** ** Skill gaps *)
(* ------------------------------------------------------------------ *)

Lemma insert_str_perm (x : string) (l : list string) :
  Permutation (insert_str x l) (x :: l).
Proof.
  induction l as [| y l IH]; cbn; [reflexivity |].
  destruct (PyStr.leb x y); [reflexivity |].
  rewrite IH. apply perm_swap.
Qed.

Lemma sorted_perm (l : list string) : Permutation (sorted l) l.
Proof.
  induction l as [| x l IH]; cbn; [constructor |].
  rewrite insert_str_perm. constructor. exact IH.
Qed.




Lemma mem_In (x : string) (l : list string) : mem x l = true <-> In x l.
Proof.
  unfold mem. rewrite existsb_exists. split.
  - intros (y & Hin & Heq). apply String.eqb_eq in Heq. subst. exact Hin.
  - intros Hin. exists x. split; [exact Hin | apply String.eqb_refl].
Qed.



(** The skill sets of the report. *)
Lemma gap_report_sets (c : Candidate) (j : Job) (s : string) :
  let required := map PyStr.lower (j_required_skills j) in
  let possessed := map (fun k => PyStr.lower (s_name k)) (c_skills c) in
  (In s (matching_skills (gap_report c j)) <-> In s required /\ In s possessed)
  /\ (In s (missing_skills (gap_report c j))
      <-> In s required /\ ~ In s possessed).
Proof.
  intros required possessed. cbn [gap_report matching_skills missing_skills].
  fold required possessed. unfold py_set. split.
  - rewrite (Permutation_in' eq_refl (sorted_perm _)) at 1.
    rewrite filter_In, nodup_In, mem_In, nodup_In. reflexivity.
  - rewrite (Permutation_in' eq_refl (sorted_perm _)) at 1.
    rewrite filter_In, nodup_In, negb_true_iff, <- not_true_iff_false, mem_In,
      nodup_In.
    reflexivity.
Qed.






(* ------------------------------------------------------------------ *)
(** ** Sorting and slicing *)
(* ------------------------------------------------------------------ *)

Section SortDescFacts.

Context {A : Type}.
Variable key : A -> R.

(** [x] does not come after [y] in a decreasing order. *)
Definition desc (x y : A) : Prop := key y <= key x.

(** The elements whose key is [v]. *)
Definition key_is (v : R) (x : A) : bool :=
  if Req_dec_T (key x) v then true else false.

Lemma insert_desc_perm (x : A) (l : list A) :
  Permutation (insert_desc key x l) (x :: l).
Proof.
  induction l as [| y l IH]; cbn; [reflexivity |].
  destruct (Rlt_dec (key x) (key y)); [| reflexivity].
  rewrite IH. apply perm_swap.
Qed.

Lemma sort_desc_perm (l : list A) : Permutation (sort_desc key l) l.
Proof.
  induction l as [| x l IH]; cbn; [constructor |].
  rewrite insert_desc_perm. constructor. exact IH.
Qed.

Lemma insert_desc_sorted (x : A) (l : list A) :
  StronglySorted desc l -> StronglySorted desc (insert_desc key x l).
Proof.
  induction 1 as [| y l Hl IH Hy]; cbn.
  - repeat constructor.
  - destruct (Rlt_dec (key x) (key y)) as [Hlt | Hge].
    + constructor; [exact IH |].
      rewrite Forall_forall in *. intros z Hz.
      apply (Permutation_in z (insert_desc_perm x l)) in Hz.
      destruct Hz as [<- | Hz]; [unfold desc; lra | apply Hy, Hz].
    + constructor; [constructor; assumption |].
      constructor; [unfold desc; lra |].
      rewrite Forall_forall in *. intros z Hz.
      specialize (Hy z Hz). unfold desc in *. lra.
Qed.

Lemma sort_desc_sorted (l : list A) : StronglySorted desc (sort_desc key l).
Proof.
  induction l as [| x l IH]; cbn; [constructor |].
  apply insert_desc_sorted, IH.
Qed.

Lemma insert_desc_stable (v : R) (x : A) (l : list A) :
  filter (key_is v) (insert_desc key x l) = filter (key_is v) (x :: l).
Proof.
  induction l as [| y l IH]; [reflexivity |].
  cbn [insert_desc]. destruct (Rlt_dec (key x) (key y)) as [Hlt | _];
    [| reflexivity].
  cbn [filter] in *. rewrite IH. unfold key_is.
  destruct (Req_dec_T (key x) v), (Req_dec_T (key y) v); try reflexivity.
  lra.
Qed.

(** Stability: the elements of one key keep the order they came in. *)
Lemma sort_desc_stable (v : R) (l : list A) :
  filter (key_is v) (sort_desc key l) = filter (key_is v) l.
Proof.
  induction l as [| x l IH]; [reflexivity |].
  cbn [sort_desc fold_right]. rewrite insert_desc_stable.
  cbn [filter]. fold (sort_desc key l). rewrite IH. reflexivity.
Qed.

Lemma StronglySorted_app_l (R0 : A -> A -> Prop) (l r : list A) :
  StronglySorted R0 (l ++ r) -> StronglySorted R0 l.
Proof.
  induction l as [| x l IH]; cbn; intros H; [constructor |].
  apply StronglySorted_inv in H. destruct H as [Hs Hf].
  constructor; [apply IH, Hs |].
  apply Forall_app in Hf. apply Hf.
Qed.

End SortDescFacts.

(** [l[:n]] is a prefix of [l]. *)
Lemma slice_to_prefix {A} (n : Z) (l : list A) :
  exists rest, l = slice_to n l ++ rest.
Proof.
  unfold slice_to. destruct (n <? 0)%Z; eexists; symmetry; apply firstn_skipn.
Qed.

Lemma slice_to_length {A} (n : Z) (l : list A) :
  (0 <= n)%Z -> (List.length (slice_to n l) <= Z.to_nat n)%nat.
Proof.
  intros Hn. unfold slice_to. destruct (Z.ltb_spec n 0); [lia |].
  apply firstn_le_length.
Qed.

(* ------------------------------------------------------------------ *)
(** ** Candidate -> jobs search *)
(* ------------------------------------------------------------------ *)

Lemma post_intro {A} (m : M A) (w : World) (Q : result A -> World -> Prop) :
  (forall r w', m w = (r, w') -> Q r w') -> post m w Q.
Proof. intros H. apply H, surjective_pairing. Qed.

Lemma post_mapM_total {A B} (f : A -> M B) (I : World -> Prop)
    (l : list A) w :
  I w ->
  (forall x w0, In x l -> I w0 ->
     post (f x) w0 (fun r w1 => I w1 /\ exists y, r = Ok y)) ->
  post (mapM f l) w (fun r w1 => I w1 /\ exists ys, r = Ok ys).
Proof.
  revert w. induction l as [| x l IH]; intros w Hw Hf; cbn [mapM].
  - apply post_ret. eauto.
  - apply post_bind.
    apply (post_weaken (Hf x w (or_introl eq_refl) Hw)).
    intros r w1 [Hw1 (y & ->)].
    apply post_bind.
    apply (post_weaken (IH w1 Hw1 (fun x0 w0 Hin => Hf x0 w0 (or_intror Hin)))).
    intros r w2 [Hw2 (ys & ->)].
    apply post_ret. eauto.
Qed.

(** Every record of the store has an identity. *)
Definition ids_ok (w : World) : Prop :=
  Forall (fun c => c_id c <> None) (candidates w)
  /\ Forall (fun j => j_id j <> None) (jobs w).

Lemma find_update_first {A} (p : A -> bool) (f : A -> A) (l : list A) (d : A) :
  (forall x, p (f x) = p x) ->
  find p l = Some d -> find p (update_first p f l) = Some (f d).
Proof.
  intros Hp. induction l as [| x l IH]; cbn; [discriminate |].
  destruct (p x) eqn:Hx.
  - intros [= <-]. cbn. rewrite Hp, Hx. reflexivity.
  - intros H. cbn. rewrite Hx. apply IH, H.
Qed.

Lemma find_update_first_none {A} (p : A -> bool) (f : A -> A) (l : list A) :
  find p l = None -> update_first p f l = l.
Proof.
  induction l as [| x l IH]; cbn; [reflexivity |].
  destruct (p x); [discriminate |]. intros H. rewrite IH; auto.
Qed.

Section JobsSearch.

Variable env : Env.







Section Total.

Variable D : nat.
Hypothesis Hstore : store_total env.
Hypothesis Hmodel : provider_total D env.

Lemma post_encode_text_total (text : string) (w : World)
    (Q : result (option Vec) -> World -> Prop) :
  PyStr.truthy text = true ->
  (forall v, List.length v = D -> Q (Ok (Some v)) (log_encode text w)) ->
  post (encode_text env text) w Q.
Proof.
  intros Ht HQ.
  destruct (Hmodel (List.length (encoded w)) text) as (v & Hv & Hlen).
  apply post_encode_text; [exact Ht | |]; intros; [apply HQ |]; congruence.
Qed.




End Total.

End JobsSearch.

Lemma Forall2_In_r {A B} (P : A -> B -> Prop) (l : list A) (l' : list B)
    (y : B) :
  Forall2 P l l' -> In y l' -> exists x, In x l /\ P x y.
Proof.
  induction 1 as [| x0 y0 l l' Hxy _ IH]; cbn; [contradiction |].
  intros [<- | Hin]; [eauto |].
  destruct (IH Hin) as (x & Hx & HP). eauto.
Qed.

(** What sorting by decreasing key and cutting at [top_n] gives. *)
Lemma ranked_properties {A} (key : A -> R) (scored : list A) (top_n : Z) :
  let res := slice_to top_n (sort_desc key scored) in
  ((0 <= top_n)%Z -> (List.length res <= Z.to_nat top_n)%nat)
  /\ StronglySorted (desc key) res
  /\ (forall x, In x res -> In x scored)
  /\ (forall v, exists rest,
        filter (key_is key v) scored = filter (key_is key v) res ++ rest).
Proof.
  intros res. subst res.
  destruct (slice_to_prefix top_n (sort_desc key scored)) as (rest & Hrest).
  split; [apply slice_to_length |].
  split.
  { apply StronglySorted_app_l with rest. rewrite <- Hrest.
    apply sort_desc_sorted. }
  split.
  { intros x Hx. apply (Permutation_in x (sort_desc_perm key scored)).
    rewrite Hrest. apply in_or_app. left. exact Hx. }
  intros v. exists (filter (key_is key v) rest).
  rewrite <- filter_app, <- Hrest. symmetry. apply sort_desc_stable.
Qed.


Lemma sample_ids_ok : ids_ok Sample.world.
Proof. split; repeat constructor; discriminate. Qed.


(* ------------------------------------------------------------------ *)
(** ** Stored embeddings are reused *)
(* ------------------------------------------------------------------ *)

(** The model answers every call with a vector that is not empty. *)
Definition provider_answers (env : Env) : Prop :=
  forall k text, exists v, model_encode env k text = Some v /\ v <> [].

Lemma truthy_emb_nonempty (v : Vec) : v <> [] -> truthy_emb (Some v) = true.
Proof. destruct v; [congruence | reflexivity]. Qed.

Lemma truthy_emb_inv (e : option Vec) :
  truthy_emb e = true -> exists v, e = Some v /\ v <> [].
Proof.
  destruct e as [[| x v] |]; try discriminate.
  intros _. exists (x :: v). split; [reflexivity | discriminate].
Qed.

Section Cache.

Variable env : Env.

(** A hit: the stored vector is returned, and only the look-up
    happened. *)
Lemma resolve_candidate_embedding_hit (c d : Candidate) (text : string)
    (i : oid) (v : Vec) (w : World) :
  store_up env (store_ops w) = true ->
  c_id c = Some i ->
  find (fun x => id_is i (c_id x)) (candidates w) = Some d ->
  c_embedding d = Some v -> v <> [] ->
  resolve_candidate_embedding env c text w = (Ok (Some v), tick w).
Proof.
  intros Hup Hid Hfind Hemb Hv.
  unfold resolve_candidate_embedding, find_candidate_by_id.
  unfold try_except, bind, store_call, read, ret.
  rewrite Hid, Hup. simpl_world. rewrite Hfind, Hemb.
  rewrite (truthy_emb_nonempty v Hv). reflexivity.
Qed.

Lemma resolve_job_embedding_hit (j d : Job) (text : string)
    (i : oid) (v : Vec) (w : World) :
  store_up env (store_ops w) = true ->
  j_id j = Some i ->
  find (fun x => id_is i (j_id x)) (jobs w) = Some d ->
  j_embedding d = Some v -> v <> [] ->
  resolve_job_embedding env j text w = (Ok (Some v), tick w).
Proof.
  intros Hup Hid Hfind Hemb Hv.
  unfold resolve_job_embedding, find_job_by_id.
  unfold try_except, bind, store_call, read, ret.
  rewrite Hid, Hup. simpl_world. rewrite Hfind, Hemb.
  rewrite (truthy_emb_nonempty v Hv). reflexivity.
Qed.

Hypothesis Hstore : store_total env.
Hypothesis Hmodel : provider_answers env.

(** After a resolution the record carries the vector that was used. *)
Lemma resolve_candidate_embedding_stores (c d : Candidate) (i : oid)
    (w : World) :
  PyStr.truthy (_extract_candidate_text c) = true ->
  c_id c = Some i ->
  find (fun x => id_is i (c_id x)) (candidates w) = Some d ->
  post (resolve_candidate_embedding env c (_extract_candidate_text c)) w
    (fun r w' =>
       jobs w' = jobs w
       /\ exists v d',
            r = Ok (Some v) /\ v <> []
            /\ find (fun x => id_is i (c_id x)) (candidates w') = Some d'
            /\ c_embedding d' = Some v).
Proof.
  intros Ht Hid Hfind. unfold resolve_candidate_embedding. rewrite Hid.
  apply post_try. unfold find_candidate_by_id, read.
  apply post_bind, post_store_call; simpl_world;
    [| rewrite Hstore; discriminate].
  intros _. rewrite Hfind.
  destruct (truthy_emb (c_embedding d)) eqn:Htr.
  - apply post_ret. split; [reflexivity |].
    destruct (truthy_emb_inv _ Htr) as (v & Hemb & Hv).
    exists v, d. rewrite Hemb. auto.
  - unfold embed_and_store_candidate. rewrite Ht, Hid. cbn [negb].
    destruct (Hmodel (List.length (encoded (tick w))) (_extract_candidate_text c))
      as (v & Hv & Hne).
    apply post_bind, post_encode_text; [exact Ht | | congruence].
    intros v' Hv'. assert (v' = v) as -> by congruence.
    unfold update_candidate_embedding.
    apply post_bind, post_store_call; simpl_world;
      [| rewrite Hstore; discriminate].
    intros _. apply post_ret. split; [reflexivity |].
    exists v, (set_c_embedding v d). repeat split; [exact Hne |].
    simpl_world. apply find_update_first; [| exact Hfind].
    intros x. reflexivity.
Qed.

Lemma resolve_job_embedding_stores (j d : Job) (i : oid) (w : World) :
  PyStr.truthy (_extract_job_text j) = true ->
  j_id j = Some i ->
  find (fun x => id_is i (j_id x)) (jobs w) = Some d ->
  post (resolve_job_embedding env j (_extract_job_text j)) w
    (fun r w' =>
       candidates w' = candidates w
       /\ exists v d',
            r = Ok (Some v) /\ v <> []
            /\ find (fun x => id_is i (j_id x)) (jobs w') = Some d'
            /\ j_embedding d' = Some v).
Proof.
  intros Ht Hid Hfind. unfold resolve_job_embedding. rewrite Hid.
  apply post_try. unfold find_job_by_id, read.
  apply post_bind, post_store_call; simpl_world;
    [| rewrite Hstore; discriminate].
  intros _. rewrite Hfind.
  destruct (truthy_emb (j_embedding d)) eqn:Htr.
  - apply post_ret. split; [reflexivity |].
    destruct (truthy_emb_inv _ Htr) as (v & Hemb & Hv).
    exists v, d. rewrite Hemb. auto.
  - unfold embed_and_store_job. rewrite Ht, Hid. cbn [negb].
    destruct (Hmodel (List.length (encoded (tick w))) (_extract_job_text j))
      as (v & Hv & Hne).
    apply post_bind, post_encode_text; [exact Ht | | congruence].
    intros v' Hv'. assert (v' = v) as -> by congruence.
    unfold update_job_embedding.
    apply post_bind, post_store_call; simpl_world;
      [| rewrite Hstore; discriminate].
    intros _. apply post_ret. split; [reflexivity |].
    exists v, (set_j_embedding v d). repeat split; [exact Hne |].
    simpl_world. apply find_update_first; [| exact Hfind].
    intros x. reflexivity.
Qed.

End Cache.

(** C6. A record that carries a stored embedding has it returned
    unchanged, the model not being called; and once a score was
    computed for two records of the store, a second request for the same
    pair returns the same score from the stored vectors: no text is sent to
    the model and the collections are left as they are. *)
Theorem embedding_cache (env : Env) (c : Candidate) (j : Job) (w : World)
    (ic ij : oid) (dc : Candidate) (dj : Job) :
  store_total env ->
  c_id c = Some ic -> j_id j = Some ij ->
  find (fun x => id_is ic (c_id x)) (candidates w) = Some dc ->
  find (fun x => id_is ij (j_id x)) (jobs w) = Some dj ->
  (forall vc vj : Vec,
     c_embedding dc = Some vc -> vc <> [] ->
     j_embedding dj = Some vj -> vj <> [] ->
     resolve_candidate_embedding env c (_extract_candidate_text c) w
     = (Ok (Some vc), tick w)
     /\ resolve_job_embedding env j (_extract_job_text j) (tick w)
        = (Ok (Some vj), tick (tick w))
     /\ encoded (snd (calculate_match_score env c j w)) = encoded w
     /\ candidates (snd (calculate_match_score env c j w)) = candidates w
     /\ jobs (snd (calculate_match_score env c j w)) = jobs w)
  /\ (provider_answers env ->
      forall (s : R) (w1 : World),
        calculate_match_score env c j w = (Ok s, w1) ->
        fst (calculate_match_score env c j w1) = Ok s
        /\ encoded (snd (calculate_match_score env c j w1)) = encoded w1
        /\ candidates (snd (calculate_match_score env c j w1)) = candidates w1
        /\ jobs (snd (calculate_match_score env c j w1)) = jobs w1).
Proof.
  intros Hstore Hic Hij Hfc Hfj.
  assert (Hhit : forall w0 dc0 dj0 vc vj,
    find (fun x => id_is ic (c_id x)) (candidates w0) = Some dc0 ->
    find (fun x => id_is ij (j_id x)) (jobs w0) = Some dj0 ->
    c_embedding dc0 = Some vc -> vc <> [] ->
    j_embedding dj0 = Some vj -> vj <> [] ->
    resolve_candidate_embedding env c (_extract_candidate_text c) w0
    = (Ok (Some vc), tick w0)
    /\ resolve_job_embedding env j (_extract_job_text j) (tick w0)
       = (Ok (Some vj), tick (tick w0))).
  { intros w0 dc0 dj0 vc vj Hf1 Hf2 He1 Hv1 He2 Hv2. split.
    - apply resolve_candidate_embedding_hit with dc0 ic; auto.
    - apply resolve_job_embedding_hit with dj0 ij; auto. }
  assert (Hquiet : forall w0 dc0 dj0 vc vj,
    find (fun x => id_is ic (c_id x)) (candidates w0) = Some dc0 ->
    find (fun x => id_is ij (j_id x)) (jobs w0) = Some dj0 ->
    c_embedding dc0 = Some vc -> vc <> [] ->
    j_embedding dj0 = Some vj -> vj <> [] ->
    fst (calculate_match_score env c j w0)
    = (if negb (PyStr.truthy (_extract_candidate_text c))
          || negb (PyStr.truthy (_extract_job_text j))
       then Ok 0
       else match _cosine_similarity (Some vc) (Some vj) with
            | Ok sem => Ok (composite sem (_calculate_skill_match c j)
                              (_calculate_experience_boost c))
            | Raise e => Raise e
            end)
    /\ encoded (snd (calculate_match_score env c j w0)) = encoded w0
    /\ candidates (snd (calculate_match_score env c j w0)) = candidates w0
    /\ jobs (snd (calculate_match_score env c j w0)) = jobs w0).
  { intros w0 dc0 dj0 vc vj Hf1 Hf2 He1 Hv1 He2 Hv2.
    destruct (Hhit w0 dc0 dj0 vc vj Hf1 Hf2 He1 Hv1 He2 Hv2) as [E1 E2].
    unfold calculate_match_score.
    destruct (negb _ || negb _); [repeat split |].
    unfold bind, lift, ret. rewrite E1, E2.
    destruct (_cosine_similarity _ _); repeat split. }
  split.
  - intros vc vj Hec Hvc Hej Hvj.
    destruct (Hhit w dc dj vc vj Hfc Hfj Hec Hvc Hej Hvj) as [E1 E2].
    split; [exact E1 |]. split; [exact E2 |].
    apply (Hquiet w dc dj vc vj); assumption.
  - intros Hmodel s w1 Hrun.
    destruct (PyStr.truthy (_extract_candidate_text c)) eqn:Hc.
    2:{ revert Hrun. unfold calculate_match_score. rewrite Hc.
        cbn [negb orb]. intros [= <- <-]. repeat split. }
    destruct (PyStr.truthy (_extract_job_text j)) eqn:Hj.
    2:{ revert Hrun. unfold calculate_match_score. rewrite Hc, Hj.
        cbn [negb orb]. intros [= <- <-]. repeat split. }
    revert Hrun. unfold calculate_match_score at 1. rewrite Hc, Hj.
    cbn [negb orb]. unfold bind at 1.
    destruct (resolve_candidate_embedding env c _ w) as [rc wa] eqn:Ec.
    destruct (post_run
                (resolve_candidate_embedding_stores env Hstore Hmodel c dc ic w
                   Hc Hic Hfc) Ec)
      as (Hja & vc & dc' & -> & Hvc & Hfc' & Hec').
    unfold bind at 1.
    assert (Hfja : find (fun x => id_is ij (j_id x)) (jobs wa) = Some dj)
      by (rewrite Hja; exact Hfj).
    destruct (resolve_job_embedding env j _ wa) as [rj wb] eqn:Ej.
    destruct (post_run
                (resolve_job_embedding_stores env Hstore Hmodel j dj ij wa
                   Hj Hij Hfja) Ej)
      as (Hcb & vj & dj' & -> & Hvj & Hfj' & Hej').
    rewrite <- Hcb in Hfc'.
    destruct (Hquiet wb dc' dj' vc vj Hfc' Hfj' Hec' Hvc Hej' Hvj)
      as (Hfst & Hrest).
    cbn [negb orb] in Hfst.
    unfold bind, lift, ret.
    destruct (_cosine_similarity (Some vc) (Some vj)) as [sem | e] eqn:Ecos;
      [| discriminate].
    intros [= <- <-]. split; [exact Hfst | exact Hrest].
Qed.

Lemma sample_provider_answers : provider_answers Sample.env.
Proof. intros k text. exists [1; 0]. split; [reflexivity | discriminate]. Qed.

(** The sample pair scored twice in a row. *)
Lemma embedding_cache_witness :
  exists (s : R) (w1 : World),
    calculate_match_score Sample.env Sample.alice Sample.backend_job
      Sample.world = (Ok s, w1)
    /\ fst (calculate_match_score Sample.env Sample.alice Sample.backend_job w1)
       = Ok s
    /\ encoded (snd (calculate_match_score Sample.env Sample.alice
                       Sample.backend_job w1)) = encoded w1.
Proof.
  destruct (embedding_cache Sample.env Sample.alice Sample.backend_job
              Sample.world 1%N 10%N Sample.alice Sample.backend_job)
    as (_ & Hround).
  - intros k. reflexivity.
  - reflexivity.
  - reflexivity.
  - reflexivity.
  - reflexivity.
  - pose proof (calculate_match_score_total Sample.env 2 sample_provider_total
                  Sample.alice Sample.backend_job Sample.world sample_dims_ok)
      as [_ (s & Hs)].
    exists s, (snd (calculate_match_score Sample.env Sample.alice
                      Sample.backend_job Sample.world)).
    assert (Hrun : calculate_match_score Sample.env Sample.alice
                     Sample.backend_job Sample.world
                   = (Ok s, snd (calculate_match_score Sample.env Sample.alice
                                   Sample.backend_job Sample.world))).
    { rewrite <- Hs. apply surjective_pairing. }
    destruct (Hround sample_provider_answers s _ Hrun) as (H2 & Henc & _).
    auto.
Defined.

(* ------------------------------------------------------------------ *)
(** ** An empty stored embedding counts as none *)
(* ------------------------------------------------------------------ *)

(** Two embedding fields that the engine cannot tell apart: the same
    vector, or no vector that counts on either side. *)
Definition emb_eqv (e e' : option Vec) : Prop :=
  e = e' \/ (truthy_emb e = false /\ truthy_emb e' = false).

Definition cand_eqv (c c' : Candidate) : Prop :=
  set_c_embedding [] c = set_c_embedding [] c'
  /\ emb_eqv (c_embedding c) (c_embedding c').

Definition job_eqv (j j' : Job) : Prop :=
  set_j_embedding [] j = set_j_embedding [] j'
  /\ emb_eqv (j_embedding j) (j_embedding j').

Definition world_eqv (w w' : World) : Prop :=
  Forall2 cand_eqv (candidates w) (candidates w')
  /\ Forall2 job_eqv (jobs w) (jobs w')
  /\ encoded w = encoded w'
  /\ store_ops w = store_ops w'.

Inductive res_eqv {A B} (R0 : A -> B -> Prop) : result A -> result B -> Prop :=
| res_eqv_ok a b : R0 a b -> res_eqv R0 (Ok a) (Ok b)
| res_eqv_raise e : res_eqv R0 (Raise e) (Raise e).

Definition opt_eqv {A B} (R0 : A -> B -> Prop) (x : option A) (y : option B)
    : Prop :=
  match x, y with
  | Some a, Some b => R0 a b
  | None, None => True
  | _, _ => False
  end.

(** Two computations that cannot be told apart: from worlds that differ
    only in embeddings that do not count, they end in outcomes and worlds
    that differ only so. *)
Definition sim {A B} (R0 : A -> B -> Prop) (m : M A) (m' : M B) : Prop :=
  forall w w', world_eqv w w' ->
    res_eqv R0 (fst (m w)) (fst (m' w'))
    /\ world_eqv (snd (m w)) (snd (m' w')).

Lemma emb_eqv_refl e : emb_eqv e e.
Proof. left. reflexivity. Qed.

Lemma emb_eqv_truthy e e' : emb_eqv e e' -> truthy_emb e = truthy_emb e'.
Proof. intros [-> | [H H']]; congruence. Qed.

Lemma emb_eqv_same e e' :
  emb_eqv e e' -> truthy_emb e = true -> e = e'.
Proof. intros [-> | [H _]] Ht; congruence. Qed.

Lemma cand_eqv_refl c : cand_eqv c c.
Proof. split; [reflexivity | apply emb_eqv_refl]. Qed.

Lemma job_eqv_refl j : job_eqv j j.
Proof. split; [reflexivity | apply emb_eqv_refl]. Qed.

Lemma Forall2_refl {A} (R0 : A -> A -> Prop) (l : list A) :
  (forall x, R0 x x) -> Forall2 R0 l l.
Proof. intros H. induction l; constructor; auto. Qed.

Lemma world_eqv_refl w : world_eqv w w.
Proof.
  repeat split; apply Forall2_refl; [apply cand_eqv_refl | apply job_eqv_refl].
Qed.

(** Everything but the embedding agrees. *)
Lemma cand_eqv_fields c c' :
  cand_eqv c c' ->
  c_id c = c_id c' /\ c_email c = c_email c' /\ c_password c = c_password c'
  /\ c_bio c = c_bio c' /\ c_skills c = c_skills c'
  /\ c_experience c = c_experience c' /\ c_education c = c_education c'
  /\ c_portfolio c = c_portfolio c'.
Proof.
  intros [H _]. unfold set_c_embedding in H. injection H. intros. auto 10.
Qed.

Lemma job_eqv_fields j j' :
  job_eqv j j' ->
  j_id j = j_id j' /\ j_title j = j_title j' /\ j_company j = j_company j'
  /\ j_description j = j_description j'
  /\ j_required_skills j = j_required_skills j'
  /\ j_job_type j = j_job_type j' /\ j_location j = j_location j'
  /\ j_source j = j_source j'.
Proof.
  intros [H _]. unfold set_j_embedding in H. injection H. intros. auto 10.
Qed.

Lemma cand_eqv_text c c' :
  cand_eqv c c' -> _extract_candidate_text c = _extract_candidate_text c'.
Proof.
  intros H. apply cand_eqv_fields in H.
  destruct H as (_ & _ & _ & Hb & Hs & Hx & Hd & Hp).
  unfold _extract_candidate_text. rewrite Hb, Hs, Hx, Hd, Hp. reflexivity.
Qed.

Lemma job_eqv_text j j' :
  job_eqv j j' -> _extract_job_text j = _extract_job_text j'.
Proof.
  intros H. apply job_eqv_fields in H.
  destruct H as (_ & Ht & Hc & Hd & Hr & Hy & Hl & _).
  unfold _extract_job_text. rewrite Ht, Hc, Hd, Hr, Hy, Hl. reflexivity.
Qed.

Lemma eqv_skill_match c c' j j' :
  cand_eqv c c' -> job_eqv j j' ->
  _calculate_skill_match c j = _calculate_skill_match c' j'.
Proof.
  intros Hc Hj. apply cand_eqv_fields in Hc. apply job_eqv_fields in Hj.
  destruct Hc as (_ & _ & _ & _ & Hs & _).
  destruct Hj as (_ & _ & _ & _ & Hr & _).
  unfold _calculate_skill_match. rewrite Hs, Hr. reflexivity.
Qed.

Lemma eqv_experience_boost c c' :
  cand_eqv c c' ->
  _calculate_experience_boost c = _calculate_experience_boost c'.
Proof.
  intros Hc. apply cand_eqv_fields in Hc.
  destruct Hc as (_ & _ & _ & _ & _ & Hx & _).
  unfold _calculate_experience_boost. rewrite Hx. reflexivity.
Qed.

Lemma cand_eqv_set v c c' :
  cand_eqv c c' -> cand_eqv (set_c_embedding v c) (set_c_embedding v c').
Proof.
  intros Hc. apply cand_eqv_fields in Hc.
  destruct Hc as (H1 & H2 & H3 & H4 & H5 & H6 & H7 & H8).
  split; [| apply emb_eqv_refl].
  unfold set_c_embedding. cbn. congruence.
Qed.

Lemma job_eqv_set v j j' :
  job_eqv j j' -> job_eqv (set_j_embedding v j) (set_j_embedding v j').
Proof.
  intros Hj. apply job_eqv_fields in Hj.
  destruct Hj as (H1 & H2 & H3 & H4 & H5 & H6 & H7 & H8).
  split; [| apply emb_eqv_refl].
  unfold set_j_embedding. cbn. congruence.
Qed.

Lemma cand_eqv_without_password c c' :
  cand_eqv c c' -> cand_eqv (without_password c) (without_password c').
Proof.
  intros Hc. pose proof (cand_eqv_fields c c' Hc) as
    (H1 & H2 & H3 & H4 & H5 & H6 & H7 & H8).
  split; [| exact (proj2 Hc)].
  unfold set_c_embedding, without_password. cbn. congruence.
Qed.

Section ListsEqv.

Context {A : Type} (R0 : A -> A -> Prop).
Variables p p' : A -> bool.
Hypothesis Hp : forall x x', R0 x x' -> p x = p' x'.

Lemma find_eqv (l l' : list A) :
  Forall2 R0 l l' -> opt_eqv R0 (find p l) (find p' l').
Proof.
  induction 1 as [| x x' l l' Hx _ IH]; cbn; [exact I |].
  rewrite <- (Hp _ _ Hx). destruct (p x); [exact Hx | exact IH].
Qed.

Lemma filter_eqv (l l' : list A) :
  Forall2 R0 l l' -> Forall2 R0 (filter p l) (filter p' l').
Proof.
  induction 1 as [| x x' l l' Hx _ IH]; cbn; [constructor |].
  rewrite <- (Hp _ _ Hx). destruct (p x); [constructor |]; assumption.
Qed.

Lemma update_first_eqv (f f' : A -> A) (l l' : list A) :
  (forall x x', R0 x x' -> R0 (f x) (f' x')) ->
  Forall2 R0 l l' -> Forall2 R0 (update_first p f l) (update_first p' f' l').
Proof.
  intros Hf. induction 1 as [| x x' l l' Hx Hl IH]; cbn; [constructor |].
  rewrite <- (Hp _ _ Hx). destruct (p x); constructor; auto.
Qed.

End ListsEqv.

Lemma Forall2_map_eqv {A} (R0 : A -> A -> Prop) (f f' : A -> A) (l l' : list A) :
  (forall x x', R0 x x' -> R0 (f x) (f' x')) ->
  Forall2 R0 l l' -> Forall2 R0 (map f l) (map f' l').
Proof. intros Hf. induction 1; cbn; constructor; auto. Qed.

Lemma Forall2_firstn {A B} (R0 : A -> B -> Prop) (n : nat) (l : list A)
    (l' : list B) :
  Forall2 R0 l l' -> Forall2 R0 (firstn n l) (firstn n l').
Proof.
  intros H. revert n. induction H; intros [| n]; cbn; constructor; auto.
Qed.

Lemma slice_to_eqv {A B} (R0 : A -> B -> Prop) (n : Z) (l : list A)
    (l' : list B) :
  Forall2 R0 l l' -> Forall2 R0 (slice_to n l) (slice_to n l').
Proof.
  intros H. unfold slice_to. rewrite (Forall2_length H).
  destruct (n <? 0)%Z; apply Forall2_firstn, H.
Qed.

Lemma sim_ret {A B} (R0 : A -> B -> Prop) (a : A) (b : B) :
  R0 a b -> sim R0 (ret a) (ret b).
Proof. intros H w w' Hw. split; [constructor; exact H | exact Hw]. Qed.

Lemma sim_raise {A B} (R0 : A -> B -> Prop) (e : exn) :
  sim R0 (raise e) (raise e).
Proof. intros w w' Hw. split; [constructor | exact Hw]. Qed.

Lemma sim_lift {A B} (R0 : A -> B -> Prop) (r : result A) (r' : result B) :
  res_eqv R0 r r' -> sim R0 (lift r) (lift r').
Proof. intros H w w' Hw. split; assumption. Qed.

Lemma sim_bind {A A' B B'} (R0 : A -> A' -> Prop) (S0 : B -> B' -> Prop)
    (m : M A) (m' : M A') (k : A -> M B) (k' : A' -> M B') :
  sim R0 m m' ->
  (forall a a', R0 a a' -> sim S0 (k a) (k' a')) ->
  sim S0 (bind m k) (bind m' k').
Proof.
  intros Hm Hk w w' Hw. unfold bind.
  destruct (Hm w w' Hw) as [Hr Hw1].
  destruct (m w) as [r w1], (m' w') as [r' w1']. cbn in Hr, Hw1.
  destruct Hr as [a a' Ha | e].
  - apply Hk; assumption.
  - split; [constructor | exact Hw1].
Qed.

Lemma sim_try {A B} (R0 : A -> B -> Prop) (body handler : M A)
    (body' handler' : M B) :
  sim R0 body body' -> sim R0 handler handler' ->
  sim R0 (try_except body handler) (try_except body' handler').
Proof.
  intros Hb Hh w w' Hw. unfold try_except.
  destruct (Hb w w' Hw) as [Hr Hw1].
  destruct (body w) as [r w1], (body' w') as [r' w1']. cbn in Hr, Hw1.
  destruct Hr as [a a' Ha | e].
  - split; [constructor; exact Ha | exact Hw1].
  - apply Hh, Hw1.
Qed.

Lemma world_eqv_tick w w' : world_eqv w w' -> world_eqv (tick w) (tick w').
Proof.
  intros (Hc & Hj & He & Ho). repeat split; cbn; auto.
Qed.

Lemma sim_store_call (env : Env) {A B} (R0 : A -> B -> Prop)
    (op : World -> A * World) (op' : World -> B * World) :
  (forall w w', world_eqv w w' ->
     R0 (fst (op w)) (fst (op' w'))
     /\ world_eqv (snd (op w)) (snd (op' w'))) ->
  sim R0 (store_call env op) (store_call env op').
Proof.
  intros Hop w w' Hw. unfold store_call.
  pose proof (world_eqv_tick w w' Hw) as Ht.
  destruct Hw as (_ & _ & _ & <-).
  destruct (store_up env (store_ops w)).
  - destruct (Hop _ _ Ht) as [Hr Hw2].
    destruct (op (tick w)), (op' (tick w')). cbn in *.
    split; [constructor; exact Hr | exact Hw2].
  - split; [constructor | exact Ht].
Qed.

Lemma sim_mapM {A A' B B'} (R0 : A -> A' -> Prop) (S0 : B -> B' -> Prop)
    (f : A -> M B) (f' : A' -> M B') (l : list A) (l' : list A') :
  Forall2 R0 l l' ->
  (forall x x', R0 x x' -> sim S0 (f x) (f' x')) ->
  sim (Forall2 S0) (mapM f l) (mapM f' l').
Proof.
  intros Hl Hf. induction Hl as [| x x' l l' Hx _ IH]; cbn [mapM].
  - apply sim_ret. constructor.
  - apply sim_bind with S0; [apply Hf, Hx |]. intros y y' Hy.
    apply sim_bind with (Forall2 S0); [exact IH |]. intros ys ys' Hys.
    apply sim_ret. constructor; assumption.
Qed.

Section Indifference.

Variable env : Env.

Lemma sim_encode_text (text : string) :
  sim eq (encode_text env text) (encode_text env text).
Proof.
  unfold encode_text. destruct (negb _); [apply sim_ret; reflexivity |].
  intros w w' Hw. unfold bind, model_call, ret.
  destruct Hw as (Hc & Hj & He & Ho). rewrite <- He.
  destruct (model_encode env _ text); cbn;
    (split; [constructor; reflexivity | repeat split; cbn; congruence]).
Qed.

Lemma id_is_eqv_c i c c' : cand_eqv c c' -> id_is i (c_id c) = id_is i (c_id c').
Proof. intros H. apply cand_eqv_fields in H. destruct H as (-> & _). reflexivity. Qed.

Lemma id_is_eqv_j i j j' : job_eqv j j' -> id_is i (j_id j) = id_is i (j_id j').
Proof. intros H. apply job_eqv_fields in H. destruct H as (-> & _). reflexivity. Qed.

Lemma sim_find_candidate_by_id (i : oid) :
  sim (opt_eqv cand_eqv) (find_candidate_by_id env i)
    (find_candidate_by_id env i).
Proof.
  apply sim_store_call. intros w w' Hw. split; [| exact Hw].
  cbn. apply find_eqv with (R0 := cand_eqv); [apply id_is_eqv_c | apply Hw].
Qed.

Lemma sim_find_job_by_id (i : oid) :
  sim (opt_eqv job_eqv) (find_job_by_id env i) (find_job_by_id env i).
Proof.
  apply sim_store_call. intros w w' Hw. split; [| exact Hw].
  cbn. apply find_eqv with (R0 := job_eqv); [apply id_is_eqv_j | apply Hw].
Qed.

Lemma sim_update_candidate (i : oid) (v : Vec) :
  sim eq (update_candidate_embedding env i v)
    (update_candidate_embedding env i v).
Proof.
  apply sim_store_call. intros w w' Hw. split; [reflexivity |].
  destruct Hw as (Hc & Hj & He & Ho). repeat split; cbn; auto.
  apply update_first_eqv; [apply id_is_eqv_c | apply cand_eqv_set | exact Hc].
Qed.

Lemma sim_update_job (i : oid) (v : Vec) :
  sim eq (update_job_embedding env i v) (update_job_embedding env i v).
Proof.
  apply sim_store_call. intros w w' Hw. split; [reflexivity |].
  destruct Hw as (Hc & Hj & He & Ho). repeat split; cbn; auto.
  apply update_first_eqv; [apply id_is_eqv_j | apply job_eqv_set | exact Hj].
Qed.

Lemma sim_embed_and_store_candidate c c' :
  cand_eqv c c' ->
  sim eq (embed_and_store_candidate env c) (embed_and_store_candidate env c').
Proof.
  intros Hc. unfold embed_and_store_candidate.
  rewrite <- (cand_eqv_text c c' Hc).
  destruct (cand_eqv_fields c c' Hc) as (<- & _).
  destruct (negb _); [apply sim_ret; reflexivity |].
  apply sim_bind with eq; [apply sim_encode_text |].
  intros e e' <-. destruct e as [v |]; [| apply sim_ret; reflexivity].
  destruct (c_id c); [| apply sim_raise].
  apply sim_bind with eq; [apply sim_update_candidate |].
  intros _ _ _. apply sim_ret. reflexivity.
Qed.

Lemma sim_embed_and_store_job j j' :
  job_eqv j j' ->
  sim eq (embed_and_store_job env j) (embed_and_store_job env j').
Proof.
  intros Hj. unfold embed_and_store_job.
  rewrite <- (job_eqv_text j j' Hj).
  destruct (job_eqv_fields j j' Hj) as (<- & _).
  destruct (negb _); [apply sim_ret; reflexivity |].
  apply sim_bind with eq; [apply sim_encode_text |].
  intros e e' <-. destruct e as [v |]; [| apply sim_ret; reflexivity].
  destruct (j_id j); [| apply sim_raise].
  apply sim_bind with eq; [apply sim_update_job |].
  intros _ _ _. apply sim_ret. reflexivity.
Qed.

Lemma sim_resolve_candidate c c' text :
  cand_eqv c c' ->
  sim eq (resolve_candidate_embedding env c text)
    (resolve_candidate_embedding env c' text).
Proof.
  intros Hc. unfold resolve_candidate_embedding.
  destruct (cand_eqv_fields c c' Hc) as (<- & _).
  apply sim_try; [| apply sim_encode_text].
  destruct (c_id c) as [i |]; [| apply sim_encode_text].
  apply sim_bind with (opt_eqv cand_eqv); [apply sim_find_candidate_by_id |].
  intros [d |] [d' |] Hd; try contradiction;
    [| apply sim_embed_and_store_candidate, Hc].
  cbn in Hd. destruct Hd as [_ He].
  rewrite <- (emb_eqv_truthy _ _ He).
  destruct (truthy_emb (c_embedding d)) eqn:Ht;
    [| apply sim_embed_and_store_candidate, Hc].
  apply sim_ret. apply emb_eqv_same; assumption.
Qed.

Lemma sim_resolve_job j j' text :
  job_eqv j j' ->
  sim eq (resolve_job_embedding env j text)
    (resolve_job_embedding env j' text).
Proof.
  intros Hj. unfold resolve_job_embedding.
  destruct (job_eqv_fields j j' Hj) as (<- & _).
  apply sim_try; [| apply sim_encode_text].
  destruct (j_id j) as [i |]; [| apply sim_encode_text].
  apply sim_bind with (opt_eqv job_eqv); [apply sim_find_job_by_id |].
  intros [d |] [d' |] Hd; try contradiction;
    [| apply sim_embed_and_store_job, Hj].
  cbn in Hd. destruct Hd as [_ He].
  rewrite <- (emb_eqv_truthy _ _ He).
  destruct (truthy_emb (j_embedding d)) eqn:Ht;
    [| apply sim_embed_and_store_job, Hj].
  apply sim_ret. apply emb_eqv_same; assumption.
Qed.

Lemma res_eqv_refl {A} (r : result A) : res_eqv eq r r.
Proof. destruct r; constructor. reflexivity. Qed.

(** [calculate_match_score] cannot tell an empty stored embedding from
    none. *)
Lemma sim_calculate_match_score c c' j j' :
  cand_eqv c c' -> job_eqv j j' ->
  sim eq (calculate_match_score env c j) (calculate_match_score env c' j').
Proof.
  intros Hc Hj. unfold calculate_match_score.
  rewrite <- (cand_eqv_text c c' Hc), <- (job_eqv_text j j' Hj).
  rewrite <- (eqv_skill_match c c' j j' Hc Hj),
    <- (eqv_experience_boost c c' Hc).
  destruct (negb _ || negb _); [apply sim_ret; reflexivity |].
  apply sim_bind with eq; [apply sim_resolve_candidate, Hc |].
  intros ec ? <-.
  apply sim_bind with eq; [apply sim_resolve_job, Hj |].
  intros ej ? <-.
  apply sim_bind with eq; [apply sim_lift, res_eqv_refl |].
  intros sem ? <-. apply sim_ret. reflexivity.
Qed.

End Indifference.

(** Two scored copies that cannot be told apart. *)
Definition scored_eqv {D} (R0 : D -> D -> Prop) (x y : Scored D) : Prop :=
  R0 (sc_doc x) (sc_doc y) /\ sc_id x = sc_id y
  /\ match_score x = match_score y.

Lemma insert_desc_eqv {D} (R0 : D -> D -> Prop) (x x' : Scored D)
    (l l' : list (Scored D)) :
  scored_eqv R0 x x' -> Forall2 (scored_eqv R0) l l' ->
  Forall2 (scored_eqv R0)
    (insert_desc (@match_score D) x l) (insert_desc (@match_score D) x' l').
Proof.
  intros Hx. induction 1 as [| y y' l l' Hy Hl IH]; cbn.
  - constructor; [exact Hx | constructor].
  - rewrite <- (proj2 (proj2 Hx)), <- (proj2 (proj2 Hy)).
    destruct (Rlt_dec _ _).
    + constructor; [exact Hy | exact IH].
    + constructor; [exact Hx |]. constructor; [exact Hy | exact Hl].
Qed.

Lemma sort_desc_eqv {D} (R0 : D -> D -> Prop) (l l' : list (Scored D)) :
  Forall2 (scored_eqv R0) l l' ->
  Forall2 (scored_eqv R0)
    (sort_desc (@match_score D) l) (sort_desc (@match_score D) l').
Proof.
  induction 1; cbn; [constructor |]. apply insert_desc_eqv; assumption.
Qed.

Section IndifferentSearch.

Variable env : Env.

Lemma sim_find_candidate_by_email (email : string) :
  sim (opt_eqv cand_eqv) (find_candidate_by_email env email)
    (find_candidate_by_email env email).
Proof.
  apply sim_store_call. intros w w' Hw. split; [| exact Hw].
  cbn. apply find_eqv with (R0 := cand_eqv); [| apply Hw].
  intros c c' Hc. apply cand_eqv_fields in Hc.
  destruct Hc as (_ & -> & _). reflexivity.
Qed.

Lemma sim_find_jobs (source : option string) :
  sim (Forall2 job_eqv) (find_jobs env source) (find_jobs env source).
Proof.
  apply sim_store_call. intros w w' Hw. split; [| exact Hw].
  cbn. apply filter_eqv; [| apply Hw].
  intros j j' Hj. apply job_eqv_fields in Hj.
  destruct Hj as (_ & _ & _ & _ & _ & _ & _ & Hs).
  unfold source_query. rewrite Hs. reflexivity.
Qed.

Lemma sim_find_candidates :
  sim (Forall2 cand_eqv) (find_candidates env) (find_candidates env).
Proof.
  apply sim_store_call. intros w w' Hw. split; [| exact Hw].
  cbn. apply Forall2_map_eqv; [apply cand_eqv_without_password | apply Hw].
Qed.

Lemma sim_ensure_candidate c c' :
  cand_eqv c c' ->
  sim (opt_eqv cand_eqv) (ensure_candidate_embedding env c)
    (ensure_candidate_embedding env c').
Proof.
  intros Hc. unfold ensure_candidate_embedding.
  rewrite <- (emb_eqv_truthy _ _ (proj2 Hc)).
  destruct (negb _); [| apply sim_ret; exact Hc].
  apply sim_bind with eq; [apply sim_embed_and_store_candidate, Hc |].
  intros _ _ _. unfold refetch_candidate.
  destruct (cand_eqv_fields c c' Hc) as (<- & _).
  destruct (c_id c); [apply sim_find_candidate_by_id | apply sim_raise].
Qed.

Lemma sim_ensure_job j j' :
  job_eqv j j' ->
  sim (opt_eqv job_eqv) (ensure_job_embedding env j)
    (ensure_job_embedding env j').
Proof.
  intros Hj. unfold ensure_job_embedding.
  rewrite <- (emb_eqv_truthy _ _ (proj2 Hj)).
  destruct (negb _); [| apply sim_ret; exact Hj].
  apply sim_bind with eq; [apply sim_embed_and_store_job, Hj |].
  intros _ _ _. unfold refetch_job.
  destruct (job_eqv_fields j j' Hj) as (<- & _).
  destruct (j_id j); [apply sim_find_job_by_id | apply sim_raise].
Qed.

Lemma sim_score_fetched c c' j j' :
  opt_eqv cand_eqv c c' -> opt_eqv job_eqv j j' ->
  sim eq (score_fetched env c j) (score_fetched env c' j').
Proof.
  intros Hc Hj. unfold score_fetched.
  destruct c, c'; try contradiction; [| apply sim_raise].
  destruct j, j'; try contradiction; [| apply sim_raise].
  apply sim_calculate_match_score; assumption.
Qed.

Lemma sim_scored_copy {D} (R0 : D -> D -> Prop) (d d' : D)
    (i : option oid) (s : R) :
  R0 d d' ->
  sim (scored_eqv R0) (scored_copy env d i s) (scored_copy env d' i s).
Proof.
  intros Hd. unfold scored_copy. destruct i; [| apply sim_raise].
  apply sim_ret. repeat split. exact Hd.
Qed.

(** [find_matching_jobs_for_candidate] cannot tell an empty stored
    embedding from none. *)
Lemma sim_find_matching_jobs (email : string) (top_n : Z)
    (source : option string) :
  sim (Forall2 (scored_eqv job_eqv))
    (find_matching_jobs_for_candidate env email top_n source)
    (find_matching_jobs_for_candidate env email top_n source).
Proof.
  unfold find_matching_jobs_for_candidate.
  apply sim_bind with (opt_eqv cand_eqv);
    [apply sim_find_candidate_by_email |].
  intros [c0 |] [c0' |] Hc0; try contradiction;
    [| apply sim_ret; constructor].
  apply sim_bind with (opt_eqv cand_eqv); [apply sim_ensure_candidate, Hc0 |].
  intros c c' Hc.
  apply sim_bind with (Forall2 job_eqv); [apply sim_find_jobs |].
  intros l l' Hl.
  apply sim_bind with (Forall2 (scored_eqv job_eqv)).
  - apply sim_mapM with job_eqv; [exact Hl |].
    intros j j' Hj.
    apply sim_bind with eq; [apply sim_score_fetched; assumption |].
    intros s ? <-.
    destruct (job_eqv_fields j j' Hj) as (<- & _).
    apply sim_scored_copy, Hj.
  - intros scored scored' Hs. apply sim_ret.
    apply slice_to_eqv, sort_desc_eqv, Hs.
Qed.

Lemma sim_score_candidate j j' c c' :
  opt_eqv job_eqv j j' -> cand_eqv c c' ->
  sim (scored_eqv cand_eqv) (score_candidate env j c)
    (score_candidate env j' c').
Proof.
  intros Hj Hc. unfold score_candidate.
  apply sim_bind with (opt_eqv cand_eqv); [apply sim_ensure_candidate, Hc |].
  intros d d' Hd.
  apply sim_bind with eq; [apply sim_score_fetched; assumption |].
  intros s ? <-.
  destruct d as [d |], d' as [d' |]; try contradiction; [| apply sim_raise].
  cbn in Hd. destruct (cand_eqv_fields d d' Hd) as (<- & _).
  apply sim_scored_copy, Hd.
Qed.

(** So cannot [find_matching_candidates_for_job]. *)
Lemma sim_find_matching_candidates (job_id : string) (top_n : Z) :
  sim (Forall2 (scored_eqv cand_eqv))
    (find_matching_candidates_for_job env job_id top_n)
    (find_matching_candidates_for_job env job_id top_n).
Proof.
  unfold find_matching_candidates_for_job.
  apply sim_bind with (opt_eqv (opt_eqv job_eqv)).
  - apply sim_try; [| apply sim_ret; exact I].
    destruct (ObjectId env job_id); [| apply sim_raise].
    apply sim_bind with (opt_eqv job_eqv); [apply sim_find_job_by_id |].
    intros j j' Hj. apply sim_ret. exact Hj.
  - intros [[j0 |] |] [[j0' |] |] Hj0; try contradiction;
      try (apply sim_ret; constructor).
    cbn in Hj0.
    apply sim_bind with (opt_eqv job_eqv); [apply sim_ensure_job, Hj0 |].
    intros j j' Hj.
    apply sim_bind with (Forall2 cand_eqv); [apply sim_find_candidates |].
    intros l l' Hl.
    apply sim_bind with (Forall2 (scored_eqv cand_eqv)).
    + apply sim_mapM with cand_eqv; [exact Hl |].
      intros c c' Hc. apply sim_score_candidate; assumption.
    + intros scored scored' Hs. apply sim_ret.
      apply slice_to_eqv, sort_desc_eqv, Hs.
Qed.

End IndifferentSearch.

(** *** The texts sent to the model only accumulate *)

Definition grows (w w' : World) : Prop :=
  exists rest, encoded w' = rest ++ encoded w.

Definition mono {A} (m : M A) : Prop := forall w, grows w (snd (m w)).

Lemma grows_refl w : grows w w.
Proof. exists []. reflexivity. Qed.

Lemma grows_trans w1 w2 w3 : grows w1 w2 -> grows w2 w3 -> grows w1 w3.
Proof.
  intros (r1 & H1) (r2 & H2). exists (r2 ++ r1).
  rewrite H2, H1. apply app_assoc.
Qed.

Lemma mono_ret {A} (a : A) : mono (ret a).
Proof. intros w. apply grows_refl. Qed.

Lemma mono_raise {A} (e : exn) : mono (@raise A e).
Proof. intros w. apply grows_refl. Qed.

Lemma mono_lift {A} (r : result A) : mono (lift r).
Proof. intros w. apply grows_refl. Qed.

Lemma mono_bind {A B} (m : M A) (k : A -> M B) :
  mono m -> (forall a, mono (k a)) -> mono (bind m k).
Proof.
  intros Hm Hk w. unfold bind. specialize (Hm w).
  destruct (m w) as [[a | e] w1]; cbn in *; [| exact Hm].
  eapply grows_trans; [exact Hm | apply Hk].
Qed.

Lemma mono_try {A} (body handler : M A) :
  mono body -> mono handler -> mono (try_except body handler).
Proof.
  intros Hb Hh w. unfold try_except. specialize (Hb w).
  destruct (body w) as [[a | e] w1]; cbn in *; [exact Hb |].
  eapply grows_trans; [exact Hb | apply Hh].
Qed.

Lemma mono_store_call (env : Env) {A} (op : World -> A * World) :
  (forall w, encoded (snd (op w)) = encoded w) -> mono (store_call env op).
Proof.
  intros Hop w. unfold store_call.
  destruct (store_up env (store_ops w)); [| exists []; reflexivity].
  specialize (Hop (tick w)). destruct (op (tick w)) as [a w2]. cbn in *.
  exists []. exact Hop.
Qed.

Lemma mono_model_call (env : Env) (text : string) : mono (model_call env text).
Proof.
  intros w. unfold model_call.
  destruct (model_encode env _ text); exists [text]; reflexivity.
Qed.

Lemma mono_mapM {A B} (f : A -> M B) (l : list A) :
  (forall x, mono (f x)) -> mono (mapM f l).
Proof.
  intros Hf. induction l as [| x l IH]; cbn [mapM]; [apply mono_ret |].
  apply mono_bind; [apply Hf |]. intros y.
  apply mono_bind; [exact IH |]. intros ys. apply mono_ret.
Qed.

Ltac mono_step :=
  first
    [ apply mono_ret | apply mono_raise | apply mono_lift
    | apply mono_model_call
    | apply mono_store_call; intros ?; reflexivity
    | apply mono_try
    | apply mono_bind; [| intros ?]
    | apply mono_mapM; intros ?
    | match goal with
      | |- mono (match ?x with _ => _ end) => destruct x
      | |- mono (if ?x then _ else _) => destruct x
      end ].

Section Accumulate.

Variable env : Env.

Lemma mono_encode_text text : mono (encode_text env text).
Proof. unfold encode_text. repeat mono_step. Qed.

Lemma mono_embed_and_store_candidate c :
  mono (embed_and_store_candidate env c).
Proof.
  unfold embed_and_store_candidate, update_candidate_embedding.
  repeat first [apply mono_encode_text | mono_step].
Qed.

Lemma mono_embed_and_store_job j : mono (embed_and_store_job env j).
Proof.
  unfold embed_and_store_job, update_job_embedding.
  repeat first [apply mono_encode_text | mono_step].
Qed.

Lemma mono_calculate_match_score c j : mono (calculate_match_score env c j).
Proof.
  unfold calculate_match_score, resolve_candidate_embedding,
    resolve_job_embedding, find_candidate_by_id, find_job_by_id, read.
  repeat first [apply mono_encode_text | apply mono_embed_and_store_candidate
               | apply mono_embed_and_store_job | mono_step].
Qed.

Lemma mono_score_fetched c j : mono (score_fetched env c j).
Proof.
  unfold score_fetched.
  repeat first [apply mono_calculate_match_score | mono_step].
Qed.

Lemma mono_scored_copy {D} (d : D) i s : mono (scored_copy env d i s).
Proof. unfold scored_copy. repeat mono_step. Qed.

Lemma mono_ensure_candidate c : mono (ensure_candidate_embedding env c).
Proof.
  unfold ensure_candidate_embedding, refetch_candidate,
    find_candidate_by_id, read.
  repeat first [apply mono_embed_and_store_candidate | mono_step].
Qed.

Lemma mono_ensure_job j : mono (ensure_job_embedding env j).
Proof.
  unfold ensure_job_embedding, refetch_job, find_job_by_id, read.
  repeat first [apply mono_embed_and_store_job | mono_step].
Qed.

Lemma mono_score_candidate j c : mono (score_candidate env j c).
Proof.
  unfold score_candidate.
  repeat first [apply mono_ensure_candidate | apply mono_score_fetched
               | apply mono_scored_copy | mono_step].
Qed.

End Accumulate.

(** *** What happens to a record whose embedding does not count *)

(** [m] sends [text] to the model before anything else it sends. *)
Definition logs {A} (text : string) (m : M A) : Prop :=
  forall w, exists rest, encoded (snd (m w)) = rest ++ text :: encoded w.

Lemma logs_bind {A B} (text : string) (m : M A) (k : A -> M B) :
  logs text m -> (forall a, mono (k a)) -> logs text (bind m k).
Proof.
  intros Hm Hk w. unfold bind. destruct (Hm w) as (rest & Hrest).
  destruct (m w) as [[a | e] w1]; cbn in *; [| eauto].
  destruct (Hk a w1) as (rest' & Hrest').
  exists (rest' ++ rest). rewrite Hrest', Hrest. apply app_assoc.
Qed.

(** The world after the model was asked for [text] and its answer [v] was
    stored in the candidate [i]. *)
Definition candidate_embedded (i : oid) (text : string) (v : Vec) (w : World)
    : World :=
  mkWorld
    (update_first (fun x => id_is i (c_id x)) (set_c_embedding v) (candidates w))
    (jobs w) (text :: encoded w) (S (S (store_ops w))).

Definition job_embedded (i : oid) (text : string) (v : Vec) (w : World)
    : World :=
  mkWorld (candidates w)
    (update_first (fun x => id_is i (j_id x)) (set_j_embedding v) (jobs w))
    (text :: encoded w) (S (S (store_ops w))).

(** Every stored embedding that does not count, removed. *)
Definition forget_emb (e : option Vec) : option Vec :=
  if truthy_emb e then e else None.

Definition forget_c (c : Candidate) : Candidate :=
  mkCandidate (c_id c) (c_email c) (c_password c) (c_bio c) (c_skills c)
    (c_experience c) (c_education c) (c_portfolio c)
    (forget_emb (c_embedding c)).

Definition forget_j (j : Job) : Job :=
  mkJob (j_id j) (j_title j) (j_company j) (j_description j)
    (j_required_skills j) (j_job_type j) (j_location j) (j_source j)
    (forget_emb (j_embedding j)).

Definition forget_empty (w : World) : World :=
  mkWorld (map forget_c (candidates w)) (map forget_j (jobs w)) (encoded w)
    (store_ops w).

Lemma emb_eqv_forget e : emb_eqv e (forget_emb e).
Proof.
  unfold forget_emb. destruct (truthy_emb e) eqn:H; [left; reflexivity |].
  right. split; [exact H | reflexivity].
Qed.

Lemma world_eqv_forget w : world_eqv w (forget_empty w).
Proof.
  repeat split; cbn.
  - induction (candidates w); cbn; constructor; [| assumption].
    split; [reflexivity | apply emb_eqv_forget].
  - induction (jobs w); cbn; constructor; [| assumption].
    split; [reflexivity | apply emb_eqv_forget].
Qed.

Section Recompute.

Variable env : Env.

Lemma resolve_candidate_embedding_recomputes (c d : Candidate) (i : oid)
    (v : Vec) (w : World) :
  c_id c = Some i ->
  find (fun x => id_is i (c_id x)) (candidates w) = Some d ->
  truthy_emb (c_embedding d) = false ->
  PyStr.truthy (_extract_candidate_text c) = true ->
  store_up env (store_ops w) = true ->
  store_up env (S (store_ops w)) = true ->
  model_encode env (List.length (encoded w)) (_extract_candidate_text c)
  = Some v ->
  resolve_candidate_embedding env c (_extract_candidate_text c) w
  = (Ok (Some v), candidate_embedded i (_extract_candidate_text c) v w)
  /\ find (fun x => id_is i (c_id x))
       (candidates (candidate_embedded i (_extract_candidate_text c) v w))
     = Some (set_c_embedding v d).
Proof.
  intros Hid Hfind Htr Ht Hup1 Hup2 Hv. split.
  - unfold resolve_candidate_embedding, find_candidate_by_id,
      embed_and_store_candidate, encode_text, update_candidate_embedding.
    unfold try_except, bind, store_call, read, model_call, ret.
    rewrite Hid, Hup1. simpl_world. rewrite Hfind, Htr, Ht. cbn [negb].
    simpl_world. rewrite Hv. simpl_world. rewrite Hup2. reflexivity.
  - cbn. apply find_update_first; [| exact Hfind]. intros x. reflexivity.
Qed.

Lemma resolve_job_embedding_recomputes (j d : Job) (i : oid)
    (v : Vec) (w : World) :
  j_id j = Some i ->
  find (fun x => id_is i (j_id x)) (jobs w) = Some d ->
  truthy_emb (j_embedding d) = false ->
  PyStr.truthy (_extract_job_text j) = true ->
  store_up env (store_ops w) = true ->
  store_up env (S (store_ops w)) = true ->
  model_encode env (List.length (encoded w)) (_extract_job_text j) = Some v ->
  resolve_job_embedding env j (_extract_job_text j) w
  = (Ok (Some v), job_embedded i (_extract_job_text j) v w)
  /\ find (fun x => id_is i (j_id x))
       (jobs (job_embedded i (_extract_job_text j) v w))
     = Some (set_j_embedding v d).
Proof.
  intros Hid Hfind Htr Ht Hup1 Hup2 Hv. split.
  - unfold resolve_job_embedding, find_job_by_id,
      embed_and_store_job, encode_text, update_job_embedding.
    unfold try_except, bind, store_call, read, model_call, ret.
    rewrite Hid, Hup1. simpl_world. rewrite Hfind, Htr, Ht. cbn [negb].
    simpl_world. rewrite Hv. simpl_world. rewrite Hup2. reflexivity.
  - cbn. apply find_update_first; [| exact Hfind]. intros x. reflexivity.
Qed.

Lemma logs_embed_and_store_candidate (c : Candidate) :
  PyStr.truthy (_extract_candidate_text c) = true ->
  logs (_extract_candidate_text c) (embed_and_store_candidate env c).
Proof.
  intros Ht. unfold embed_and_store_candidate. rewrite Ht. cbn [negb].
  apply logs_bind.
  - intros w. unfold encode_text. rewrite Ht. cbn [negb].
    unfold bind, model_call, ret.
    destruct (model_encode env _ _); exists []; reflexivity.
  - intros e. unfold update_candidate_embedding. repeat mono_step.
Qed.

Lemma logs_embed_and_store_job (j : Job) :
  PyStr.truthy (_extract_job_text j) = true ->
  logs (_extract_job_text j) (embed_and_store_job env j).
Proof.
  intros Ht. unfold embed_and_store_job. rewrite Ht. cbn [negb].
  apply logs_bind.
  - intros w. unfold encode_text. rewrite Ht. cbn [negb].
    unfold bind, model_call, ret.
    destruct (model_encode env _ _); exists []; reflexivity.
  - intros e. unfold update_job_embedding. repeat mono_step.
Qed.

(** The search for a candidate whose stored embedding does not count
    sends the text of the candidate to the model. *)
Lemma find_matching_jobs_recomputes (email : string) (top_n : Z)
    (source : option string) (c0 : Candidate) (w : World) :
  store_up env (store_ops w) = true ->
  find (fun c => String.eqb (c_email c) email) (candidates w) = Some c0 ->
  truthy_emb (c_embedding c0) = false ->
  PyStr.truthy (_extract_candidate_text c0) = true ->
  exists rest,
    encoded (snd (find_matching_jobs_for_candidate env email top_n source w))
    = rest ++ _extract_candidate_text c0 :: encoded w.
Proof.
  intros Hup Hfind Htr Ht.
  unfold find_matching_jobs_for_candidate, find_candidate_by_email.
  unfold bind at 1. unfold store_call, read. rewrite Hup. simpl_world.
  rewrite Hfind. unfold ensure_candidate_embedding. rewrite Htr. cbn [negb].
  match goal with
  | |- exists rest, encoded (snd (?m (tick w))) = _ =>
      enough (H : logs (_extract_candidate_text c0) m) by exact (H (tick w))
  end.
  apply (logs_bind (A := option Candidate)).
  - apply logs_bind; [apply logs_embed_and_store_candidate, Ht |].
    intros _. unfold refetch_candidate, find_candidate_by_id, read.
    repeat mono_step.
  - intros cand. unfold find_jobs, read.
    repeat first [apply mono_score_fetched | apply mono_scored_copy
                 | mono_step].
Qed.

(** The search for a job whose stored embedding does not count sends
    the text of the job to the model. *)
Lemma find_matching_candidates_recomputes (job_id : string) (top_n : Z)
    (i : oid) (j0 : Job) (w : World) :
  ObjectId env job_id = Some i ->
  store_up env (store_ops w) = true ->
  find (fun j => id_is i (j_id j)) (jobs w) = Some j0 ->
  truthy_emb (j_embedding j0) = false ->
  PyStr.truthy (_extract_job_text j0) = true ->
  exists rest,
    encoded (snd (find_matching_candidates_for_job env job_id top_n w))
    = rest ++ _extract_job_text j0 :: encoded w.
Proof.
  intros Hid Hup Hfind Htr Ht.
  unfold find_matching_candidates_for_job, find_job_by_id.
  unfold bind at 1. unfold try_except, bind at 1.
  unfold store_call, read, ret. rewrite Hid, Hup. simpl_world.
  rewrite Hfind. unfold ensure_job_embedding. rewrite Htr. cbn [negb].
  match goal with
  | |- exists rest, encoded (snd (?m (tick w))) = _ =>
      enough (H : logs (_extract_job_text j0) m) by exact (H (tick w))
  end.
  apply (logs_bind (A := option Job)).
  - apply logs_bind; [apply logs_embed_and_store_job, Ht |].
    intros _. unfold refetch_job, find_job_by_id, read.
    repeat mono_step.
  - intros job. unfold find_candidates, read.
    repeat first [apply mono_score_candidate | mono_step].
Qed.

End Recompute.

Lemma res_eqv_eq {A} (r r' : result A) : res_eqv eq r r' -> r = r'.
Proof. intros [a b -> | e]; reflexivity. Qed.

(** C10. A stored embedding that is an empty vector is treated as no
    embedding.  [calculate_match_score] and the two searches give the same
    outcome, and leave the same store but for such embeddings, in two
    worlds that differ only in embeddings that are absent or empty; so in
    a world and in that world with every empty embedding removed.  For a
    record whose stored embedding is the empty vector,
    [calculate_match_score] asks the model for the text and stores the
    answer over the empty vector, which it returns; and the searches send
    the text of their subject to the model. *)
Theorem empty_embedding_counts_as_none (env : Env) :
  (forall w, world_eqv w (forget_empty w))
  /\ (forall c c' j j',
        cand_eqv c c' -> job_eqv j j' ->
        sim eq (calculate_match_score env c j) (calculate_match_score env c' j'))
  /\ (forall c j w,
        fst (calculate_match_score env c j w)
        = fst (calculate_match_score env c j (forget_empty w)))
  /\ (forall email top_n source,
        sim (Forall2 (scored_eqv job_eqv))
          (find_matching_jobs_for_candidate env email top_n source)
          (find_matching_jobs_for_candidate env email top_n source))
  /\ (forall job_id top_n,
        sim (Forall2 (scored_eqv cand_eqv))
          (find_matching_candidates_for_job env job_id top_n)
          (find_matching_candidates_for_job env job_id top_n))
  /\ (forall (c d : Candidate) (i : oid) (v : Vec) (w : World),
        c_id c = Some i ->
        find (fun x => id_is i (c_id x)) (candidates w) = Some d ->
        c_embedding d = Some [] ->
        _extract_candidate_text c <> ""%string ->
        store_up env (store_ops w) = true ->
        store_up env (S (store_ops w)) = true ->
        model_encode env (List.length (encoded w)) (_extract_candidate_text c)
        = Some v ->
        resolve_candidate_embedding env c (_extract_candidate_text c) w
        = (Ok (Some v), candidate_embedded i (_extract_candidate_text c) v w)
        /\ find (fun x => id_is i (c_id x))
             (candidates (candidate_embedded i (_extract_candidate_text c) v w))
           = Some (set_c_embedding v d))
  /\ (forall (j d : Job) (i : oid) (v : Vec) (w : World),
        j_id j = Some i ->
        find (fun x => id_is i (j_id x)) (jobs w) = Some d ->
        j_embedding d = Some [] ->
        _extract_job_text j <> ""%string ->
        store_up env (store_ops w) = true ->
        store_up env (S (store_ops w)) = true ->
        model_encode env (List.length (encoded w)) (_extract_job_text j)
        = Some v ->
        resolve_job_embedding env j (_extract_job_text j) w
        = (Ok (Some v), job_embedded i (_extract_job_text j) v w)
        /\ find (fun x => id_is i (j_id x))
             (jobs (job_embedded i (_extract_job_text j) v w))
           = Some (set_j_embedding v d))
  /\ (forall email top_n source (c0 : Candidate) (w : World),
        store_up env (store_ops w) = true ->
        find (fun c => String.eqb (c_email c) email) (candidates w) = Some c0 ->
        c_embedding c0 = Some [] ->
        _extract_candidate_text c0 <> ""%string ->
        exists rest,
          encoded (snd (find_matching_jobs_for_candidate env email top_n
                          source w))
          = rest ++ _extract_candidate_text c0 :: encoded w)
  /\ (forall job_id top_n (i : oid) (j0 : Job) (w : World),
        ObjectId env job_id = Some i ->
        store_up env (store_ops w) = true ->
        find (fun j => id_is i (j_id j)) (jobs w) = Some j0 ->
        j_embedding j0 = Some [] ->
        _extract_job_text j0 <> ""%string ->
        exists rest,
          encoded (snd (find_matching_candidates_for_job env job_id top_n w))
          = rest ++ _extract_job_text j0 :: encoded w).
Proof.
  split; [exact world_eqv_forget |].
  split; [apply sim_calculate_match_score |].
  split.
  { intros c j w. apply res_eqv_eq.
    apply (sim_calculate_match_score env c c j j (cand_eqv_refl c)
             (job_eqv_refl j) w (forget_empty w) (world_eqv_forget w)). }
  split; [apply sim_find_matching_jobs |].
  split; [apply sim_find_matching_candidates |].
  split.
  { intros c d i v w Hid Hfind Hemb Ht.
    apply truthy_true_iff in Ht.
    apply resolve_candidate_embedding_recomputes; try assumption.
    rewrite Hemb. reflexivity. }
  split.
  { intros j d i v w Hid Hfind Hemb Ht.
    apply truthy_true_iff in Ht.
    apply resolve_job_embedding_recomputes; try assumption.
    rewrite Hemb. reflexivity. }
  split.
  { intros email top_n source c0 w Hup Hfind Hemb Ht.
    apply truthy_true_iff in Ht.
    apply find_matching_jobs_recomputes; try assumption.
    rewrite Hemb. reflexivity. }
  intros job_id top_n i j0 w Hid Hup Hfind Hemb Ht.
  apply truthy_true_iff in Ht.
  apply find_matching_candidates_recomputes with i; try assumption.
  rewrite Hemb. reflexivity.
Qed.

(** The sample candidate with an empty vector for embedding. *)
Definition alice_empty : Candidate := set_c_embedding [] Sample.alice.

Lemma empty_embedding_witness :
  let w := mkWorld [alice_empty] [Sample.backend_job] [] 0 in
  let text := _extract_candidate_text alice_empty in
  resolve_candidate_embedding Sample.env alice_empty text w
  = (Ok (Some [1; 0]), candidate_embedded 1%N text [1; 0] w)
  /\ find (fun x => id_is 1%N (c_id x))
       (candidates (candidate_embedded 1%N text [1; 0] w))
     = Some (set_c_embedding [1; 0] alice_empty).
Proof.
  intros w text.
  destruct (empty_embedding_counts_as_none Sample.env)
    as (_ & _ & _ & _ & _ & Hrecompute & _).
  apply Hrecompute; try reflexivity.
  vm_compute. discriminate.
Defined.

(* ------------------------------------------------------------------ *)
(** ** A worked example *)
(* ------------------------------------------------------------------ *)


(* ------------------------------------------------------------------ *)
(** * Further properties of the engine *)
(* ------------------------------------------------------------------ *)

(** ** Bounds on the three signals *)











(** The levels of the model of the repository: a percentage. *)
Definition levels_ok (skills : list Skill) : Prop :=
  Forall (fun s => (0 <= s_level s <= 100)%Z) skills.

Lemma last_level_of_from (k : string) (keys : list (string * Z))
    (acc : option Z) (l : Z) :
  fold_left
    (fun acc kv =>
       if PyStr.truthy (fst kv) && String.eqb k (fst kv) then Some (snd kv)
       else acc)
    keys acc = Some l ->
  acc = Some l \/ exists kv, In kv keys /\ snd kv = l.
Proof.
  revert acc. induction keys as [| kv keys IH]; intros acc; cbn.
  - auto.
  - intros H. apply IH in H. destruct H as [H | (kv' & Hin & Hl)].
    + destruct (_ && _); [| auto].
      right. exists kv. split; [auto | congruence].
    + right. exists kv'. auto.
Qed.

Lemma last_level_bounds (k : string) (skills : list Skill) (l : Z) :
  levels_ok skills -> last_level k skills = Some l -> (0 <= l <= 100)%Z.
Proof.
  intros Hok H. unfold last_level, last_level_of in H.
  apply last_level_of_from in H. destruct H as [H | (kv & Hin & <-)];
    [discriminate |].
  apply in_map_iff in Hin. destruct Hin as (s & <- & Hs).
  unfold levels_ok in Hok. rewrite Forall_forall in Hok. apply Hok, Hs.
Qed.

Lemma skill_term_bounds (skills : list Skill) (required_skill : string) :
  levels_ok skills -> 0 <= skill_term skills required_skill <= 1.
Proof.
  intros Hok. unfold skill_term.
  destruct (last_level _ skills) as [l |] eqn:Hl; [| lra].
  apply (last_level_bounds _ _ _ Hok) in Hl. destruct Hl as [H0 H1].
  apply IZR_le in H0, H1. lra.
Qed.

Lemma sum_R_bounds (f : string -> R) (l : list string) :
  (forall x, 0 <= f x <= 1) ->
  0 <= sum_R (map f l) <= INR (List.length l).
Proof.
  intros Hf. unfold sum_R.
  induction l as [| x l IH]; [cbn; lra |].
  cbn [map fold_right List.length]. rewrite S_INR.
  specialize (Hf x). lra.
Qed.

Lemma skill_match_bounds_aux (c : Candidate) (j : Job) :
  levels_ok (c_skills c) -> 0 <= _calculate_skill_match c j <= 1.
Proof.
  intros Hok. rewrite skill_match_formula.
  destruct (_ && _); [| lra].
  destruct (j_required_skills j) as [| r required] eqn:Hreq.
  - cbn. unfold Rdiv. rewrite Rinv_0. lra.
  - rewrite <- Hreq.
    pose proof (sum_R_bounds (skill_term (c_skills c)) (j_required_skills j)
                  (fun x => skill_term_bounds (c_skills c) x Hok)) as Hs.
    assert (Hn : 0 < INR (List.length (j_required_skills j))).
    { rewrite Hreq. cbn [List.length]. apply lt_0_INR. lia. }
    split.
    + apply Rmult_le_pos; [lra |]. left. apply Rinv_0_lt_compat, Hn.
    + apply Rmult_le_reg_r with (INR (List.length (j_required_skills j)));
        [exact Hn |].
      unfold Rdiv. rewrite Rmult_assoc, Rinv_l by lra. lra.
Qed.

(** X3. With candidate levels that are percentages, the skill match is
    between 0 and 1; it is 1 exactly when every required skill is held at
    level 100. *)
Theorem skill_match_bounds (c : Candidate) (j : Job) :
  levels_ok (c_skills c) ->
  0 <= _calculate_skill_match c j <= 1
  /\ (j_required_skills j <> [] -> c_skills c <> [] ->
      (_calculate_skill_match c j = 1
       <-> Forall (fun r => last_level (PyStr.lower r) (c_skills c)
                            = Some 100%Z) (j_required_skills j))).
Proof.
  intros Hok. split; [apply skill_match_bounds_aux, Hok |].
  intros Hj Hc. rewrite skill_match_formula.
  destruct (j_required_skills j) as [| r0 req0] eqn:Hreq; [congruence |].
  destruct (c_skills c) as [| s0 sk0] eqn:Hsk; [congruence |].
  cbn [truthy_list andb]. rewrite <- Hreq, <- Hsk in *. clear Hj Hc.
  assert (Hn : 0 < INR (List.length (j_required_skills j))).
  { rewrite Hreq. cbn [List.length]. apply lt_0_INR. lia. }
  assert (Hiff : sum_R (map (skill_term (c_skills c)) (j_required_skills j))
                 = INR (List.length (j_required_skills j))
                 <-> Forall (fun r => last_level (PyStr.lower r) (c_skills c)
                                      = Some 100%Z) (j_required_skills j)).
  { clear Hn Hreq r0 req0. unfold sum_R.
    induction (j_required_skills j) as [| r l IH].
    - cbn. split; [constructor | reflexivity].
    - cbn [map fold_right List.length]. rewrite S_INR.
      pose proof (skill_term_bounds (c_skills c) r Hok) as Hr.
      pose proof (sum_R_bounds (skill_term (c_skills c)) l
                    (fun x => skill_term_bounds (c_skills c) x Hok)) as Hl.
      unfold sum_R in Hl.
      assert (Hterm : skill_term (c_skills c) r = 1
                      <-> last_level (PyStr.lower r) (c_skills c) = Some 100%Z).
      { unfold skill_term.
        destruct (last_level _ _) as [lv |] eqn:E.
        - split.
          + intros H. f_equal. apply eq_IZR. lra.
          + intros [= ->]. lra.
        - split; [lra | discriminate]. }
      split.
      + intros H. constructor; [apply Hterm; lra | apply IH; lra].
      + intros H. inversion H as [| ? ? H1 H2]; subst.
        apply Hterm in H1. apply IH in H2. lra. }
  rewrite <- Hiff. split.
  - intros H. apply Rmult_eq_compat_r with
      (r := INR (List.length (j_required_skills j))) in H.
    unfold Rdiv in H. rewrite Rmult_assoc, Rinv_l in H by lra. lra.
  - intros ->. field. lra.
Qed.

Lemma skill_match_bounds_witness :
  0 <= _calculate_skill_match Sample.alice Sample.backend_job <= 1.
Proof.
  apply (skill_match_bounds Sample.alice Sample.backend_job).
  repeat constructor; cbn; lia.
Defined.





(** ** Which records can be scored *)

(** A string of white space only. *)
Fixpoint blank (s : string) : bool :=
  match s with
  | EmptyString => true
  | String c r => PyStr.is_space c && blank r
  end.

Definition starts_with_space (s : string) : bool :=
  match s with
  | EmptyString => false
  | String c _ => PyStr.is_space c
  end.

Fixpoint ends_with_space (s : string) : bool :=
  match s with
  | EmptyString => false
  | String c EmptyString => PyStr.is_space c
  | String _ r => ends_with_space r
  end.

Lemma blank_app (a b : string) : blank (a ++ b) = blank a && blank b.
Proof.
  induction a as [| c a IH]; cbn; [reflexivity |].
  rewrite IH. apply andb_assoc.
Qed.

Lemma blank_join (parts : list string) :
  blank (PyStr.join " " parts) = forallb blank parts.
Proof.
  induction parts as [| p parts IH]; [reflexivity |].
  destruct parts as [| q parts].
  - cbn. rewrite andb_true_r. reflexivity.
  - change (PyStr.join " " (p :: q :: parts))
      with (p ++ " " ++ PyStr.join " " (q :: parts))%string.
    rewrite !blank_app, IH. reflexivity.
Qed.

Lemma lstrip_blank (s : string) : blank (PyStr.lstrip s) = blank s.
Proof.
  induction s as [| c s IH]; [reflexivity |].
  cbn. destruct (PyStr.is_space c) eqn:Hc; cbn; [exact IH |].
  rewrite Hc. reflexivity.
Qed.

Lemma lstrip_starts (s : string) : starts_with_space (PyStr.lstrip s) = false.
Proof.
  induction s as [| c s IH]; [reflexivity |].
  cbn. destruct (PyStr.is_space c) eqn:Hc; [exact IH | exact Hc].
Qed.

Lemma rstrip_empty_iff (s : string) :
  PyStr.rstrip s = EmptyString <-> blank s = true.
Proof.
  induction s as [| c s IH]; cbn; [split; reflexivity |].
  destruct (PyStr.rstrip s) as [| c' r'] eqn:Hr.
  - destruct (PyStr.is_space c); cbn.
    + split; [intros _; apply IH; reflexivity | reflexivity].
    + split; discriminate.
  - split; [discriminate |]. intros H. apply andb_true_iff in H.
    destruct H as [_ H]. apply IH in H. discriminate.
Qed.

Lemma rstrip_starts (s : string) :
  starts_with_space s = false -> starts_with_space (PyStr.rstrip s) = false.
Proof.
  destruct s as [| c s]; [reflexivity |]. cbn. intros Hc.
  destruct (PyStr.rstrip s); [rewrite Hc |]; cbn; auto.
Qed.

Lemma rstrip_ends (s : string) : ends_with_space (PyStr.rstrip s) = false.
Proof.
  induction s as [| c s IH]; [reflexivity |]. cbn.
  destruct (PyStr.rstrip s) as [| c' r'] eqn:Hr.
  - destruct (PyStr.is_space c) eqn:Hc; cbn; [reflexivity | exact Hc].
  - exact IH.
Qed.

Lemma strip_empty_iff (s : string) :
  PyStr.strip s = EmptyString <-> blank s = true.
Proof. unfold PyStr.strip. rewrite rstrip_empty_iff, lstrip_blank. reflexivity. Qed.

Lemma forallb_blank_part (s : string) : forallb blank (part s) = blank s.
Proof.
  unfold part. destruct s; cbn; [reflexivity |]. apply andb_true_r.
Qed.

Lemma forallb_flat_map {A} (f : A -> list string) (l : list A) :
  forallb blank (flat_map f l) = forallb (fun x => forallb blank (f x)) l.
Proof.
  induction l as [| x l IH]; [reflexivity |].
  cbn. rewrite forallb_app, IH. reflexivity.
Qed.

Lemma skill_phrase_not_blank (s : Skill) : blank (skill_phrase s) = false.
Proof.
  unfold skill_phrase. rewrite blank_app.
  change (blank (" (" ++ _)) with false. apply andb_false_r.
Qed.

Lemma forallb_blank_phrases (skills : list Skill) :
  forallb blank (map skill_phrase skills) = true -> skills = [].
Proof.
  destruct skills as [| s skills]; [reflexivity |].
  cbn. rewrite skill_phrase_not_blank. discriminate.
Qed.

(** A text is blank: every field that goes into it is. *)
Definition blank_job (j : Job) : bool :=
  blank (j_title j) && blank (j_company j) && blank (j_description j)
  && forallb blank (j_required_skills j)
  && blank (j_job_type j) && blank (j_location j).

Definition blank_candidate (c : Candidate) : bool :=
  blank (c_bio c)
  && forallb (fun s => negb (PyStr.truthy (s_name s))) (c_skills c)
  && forallb (fun e => blank (e_role e) && blank (e_description e))
       (c_experience c)
  && forallb (fun e => blank (ed_degree e) && blank (ed_institution e))
       (c_education c)
  && forallb (fun p => blank (p_title p) && blank (p_description p))
       (c_portfolio c).

Lemma extract_job_text_empty (j : Job) :
  _extract_job_text j = EmptyString <-> blank_job j = true.
Proof.
  unfold _extract_job_text. rewrite strip_empty_iff, blank_join.
  rewrite !forallb_app, !forallb_blank_part. unfold blank_job.
  assert (Hreq : forallb blank
                   (if truthy_list (j_required_skills j)
                    then [PyStr.join " " (j_required_skills j)] else [])
                 = forallb blank (j_required_skills j)).
  { destruct (j_required_skills j) as [| r l] eqn:E; [reflexivity |].
    cbn [truthy_list forallb]. rewrite blank_join, andb_true_r. reflexivity. }
  rewrite Hreq, !andb_assoc. reflexivity.
Qed.

Lemma extract_candidate_text_empty (c : Candidate) :
  _extract_candidate_text c = EmptyString <-> blank_candidate c = true.
Proof.
  unfold _extract_candidate_text. rewrite strip_empty_iff, blank_join.
  rewrite !forallb_app, !forallb_flat_map, forallb_blank_part.
  unfold blank_candidate.
  assert (Hsk : forallb blank
                  (if truthy_list (c_skills c)
                   then [PyStr.join " "
                           (map skill_phrase
                              (filter (fun s => PyStr.truthy (s_name s))
                                 (c_skills c)))]
                   else [])
                = forallb (fun s => negb (PyStr.truthy (s_name s)))
                    (c_skills c)).
  { destruct (c_skills c) as [| s0 l0] eqn:E; [reflexivity |].
    cbn [truthy_list]. rewrite <- E. clear E s0 l0.
    cbn [forallb]. rewrite blank_join, andb_true_r.
    induction (c_skills c) as [| s l IH]; [reflexivity |].
    cbn [filter forallb]. destruct (PyStr.truthy (s_name s)); cbn [negb andb].
    - cbn [map forallb]. rewrite skill_phrase_not_blank. reflexivity.
    - exact IH. }
  rewrite Hsk.
  assert (Hpair : forall (A : Type) (f g : A -> string) (l : list A),
            forallb (fun x => forallb blank (part (f x) ++ part (g x))) l
            = forallb (fun x => blank (f x) && blank (g x)) l).
  { intros A f g l. induction l as [| x l IH]; [reflexivity |].
    cbn [forallb]. rewrite forallb_app, !forallb_blank_part, IH.
    reflexivity. }
  rewrite !Hpair, !andb_assoc. reflexivity.
Qed.

(** X5. A job is scored 0.0, unconditionally and without any effect,
    exactly when its title, company, description, required skills, type
    and location are all blank; a candidate exactly when the biography
    is blank, no skill has a name and every experience, education and
    portfolio entry is blank.  One named skill is enough for a text. *)
Theorem unscorable_iff_blank (env : Env) (c : Candidate) (j : Job) :
  (_extract_job_text j = EmptyString <-> blank_job j = true)
  /\ (_extract_candidate_text c = EmptyString <-> blank_candidate c = true)
  /\ (blank_candidate c = true \/ blank_job j = true ->
      forall w, calculate_match_score env c j w = (Ok 0, w))
  /\ (Exists (fun s => s_name s <> EmptyString) (c_skills c) ->
      _extract_candidate_text c <> EmptyString).
Proof.
  split; [apply extract_job_text_empty |].
  split; [apply extract_candidate_text_empty |].
  split.
  - intros H w. unfold calculate_match_score.
    destruct H as [H | H].
    + apply extract_candidate_text_empty in H. rewrite H. reflexivity.
    + apply extract_job_text_empty in H. rewrite H.
      cbn [PyStr.truthy negb]. rewrite orb_true_r. reflexivity.
  - intros Hex Htext. apply extract_candidate_text_empty in Htext.
    unfold blank_candidate in Htext.
    rewrite !andb_true_iff in Htext.
    destruct Htext as ((((_ & Hsk) & _) & _) & _).
    rewrite forallb_forall in Hsk. apply Exists_exists in Hex.
    destruct Hex as (s & Hin & Hs). specialize (Hsk s Hin).
    apply negb_true_iff, truthy_false_iff in Hsk. contradiction.
Qed.

(** A job of blanks against the sample candidate. *)
Lemma unscorable_iff_blank_witness :
  calculate_match_score Sample.env Sample.alice
    (mkJob (Some 3%N) "  " "" " " [" "%string] "" "" "hr" None) Sample.world
  = (Ok 0, Sample.world).
Proof.
  apply (unscorable_iff_blank Sample.env Sample.alice
           (mkJob (Some 3%N) "  " "" " " [" "%string] "" "" "hr" None)).
  right. reflexivity.
Defined.

(** X6. The extracted texts carry no white space at either end. *)
Theorem extracted_text_trimmed (c : Candidate) (j : Job) :
  starts_with_space (_extract_candidate_text c) = false
  /\ ends_with_space (_extract_candidate_text c) = false
  /\ starts_with_space (_extract_job_text j) = false
  /\ ends_with_space (_extract_job_text j) = false.
Proof.
  unfold _extract_candidate_text, _extract_job_text, PyStr.strip.
  repeat split;
    first [apply rstrip_starts, lstrip_starts | apply rstrip_ends].
Qed.

(* ------------------------------------------------------------------ *)
(** ** Embedding the jobs in bulk *)
(* ------------------------------------------------------------------ *)

(** The query of [bulk_embed_jobs]:
    [{"embedding": {"$exists": False}}], with the source when one is
    given.  The engine is the only writer of the field and it writes
    lists: [None] is the field that is missing. *)
Definition missing_embedding_query (source : option string) (j : Job) : bool :=
  match j_embedding j with
  | None => source_query source j
  | Some _ => false
  end.

(** The warning printed for a job that fails is not part of the world. *)
Definition bulk_embed_jobs (env : Env) (source : option string) : M nat :=
  (jobs <- store_call env
             (read (fun w => filter (missing_embedding_query source) (jobs w))) ;;
   mapM (fun job => try_except (embed_and_store_job env job ;;; ret tt) (ret tt))
        jobs ;;;
   ret (List.length jobs))%py.

(* ------------------------------------------------------------------ *)
(** ** What a call leaves behind *)
(* ------------------------------------------------------------------ *)

(** A relation between the world before and the world after that every
    step of the engine respects is respected by every call.  [sendable]
    are the texts the relation lets the model be asked for. *)
Section Keeps.

Variable rel : World -> World -> Prop.
Variable sendable : string -> Prop.

Hypothesis rel_refl : forall w, rel w w.
Hypothesis rel_trans : forall w1 w2 w3, rel w1 w2 -> rel w2 w3 -> rel w1 w3.
Hypothesis rel_tick : forall w, rel w (tick w).
Hypothesis rel_log : forall text w, sendable text -> rel w (log_encode text w).
Hypothesis rel_set_candidate : forall p v w,
  rel w (with_candidates (update_first p (set_c_embedding v) (candidates w)) w).
Hypothesis rel_set_job : forall p v w,
  rel w (with_jobs (update_first p (set_j_embedding v) (jobs w)) w).

Definition keeps {A} (m : M A) : Prop := forall w, rel w (snd (m w)).

Lemma keeps_ret {A} (a : A) : keeps (ret a).
Proof. intros w. apply rel_refl. Qed.

Lemma keeps_raise {A} (e : exn) : keeps (@raise A e).
Proof. intros w. apply rel_refl. Qed.

Lemma keeps_lift {A} (r : result A) : keeps (lift r).
Proof. intros w. apply rel_refl. Qed.

Lemma keeps_bind {A B} (m : M A) (k : A -> M B) :
  keeps m -> (forall a, keeps (k a)) -> keeps (bind m k).
Proof.
  intros Hm Hk w. unfold bind. specialize (Hm w).
  destruct (m w) as [[a | e] w1]; cbn in *; [| exact Hm].
  eapply rel_trans; [exact Hm | apply Hk].
Qed.

Lemma keeps_try {A} (body handler : M A) :
  keeps body -> keeps handler -> keeps (try_except body handler).
Proof.
  intros Hb Hh w. unfold try_except. specialize (Hb w).
  destruct (body w) as [[a | e] w1]; cbn in *; [exact Hb |].
  eapply rel_trans; [exact Hb | apply Hh].
Qed.

Lemma keeps_mapM {A B} (f : A -> M B) (l : list A) :
  (forall x, keeps (f x)) -> keeps (mapM f l).
Proof.
  intros Hf. induction l as [| x l IH]; cbn [mapM]; [apply keeps_ret |].
  apply keeps_bind; [apply Hf |]. intros y.
  apply keeps_bind; [exact IH |]. intros ys. apply keeps_ret.
Qed.

Variable env : Env.

Lemma keeps_read {A} (q : World -> A) : keeps (store_call env (read q)).
Proof.
  intros w. unfold store_call, read.
  destruct (store_up env (store_ops w)); cbn; apply rel_tick.
Qed.

Lemma keeps_update_candidate i v : keeps (update_candidate_embedding env i v).
Proof.
  intros w. unfold update_candidate_embedding, store_call.
  destruct (store_up env (store_ops w)); cbn; [| apply rel_tick].
  eapply rel_trans; [apply rel_tick |].
  apply (rel_set_candidate (fun c => id_is i (c_id c)) v (tick w)).
Qed.

Lemma keeps_update_job i v : keeps (update_job_embedding env i v).
Proof.
  intros w. unfold update_job_embedding, store_call.
  destruct (store_up env (store_ops w)); cbn; [| apply rel_tick].
  eapply rel_trans; [apply rel_tick |].
  apply (rel_set_job (fun j => id_is i (j_id j)) v (tick w)).
Qed.

Lemma keeps_model_call text : sendable text -> keeps (model_call env text).
Proof.
  intros Ht w. unfold model_call.
  destruct (model_encode env _ text); cbn; apply rel_log, Ht.
Qed.

Lemma keeps_encode_text text :
  (text <> EmptyString -> sendable text) -> keeps (encode_text env text).
Proof.
  intros Ht. unfold encode_text. destruct text as [| a s];
    [apply keeps_ret |].
  cbn [PyStr.truthy negb]. apply keeps_bind; [| intros v; apply keeps_ret].
  apply keeps_model_call, Ht. discriminate.
Qed.

Lemma keeps_embed_and_store_candidate c :
  (_extract_candidate_text c <> EmptyString ->
   sendable (_extract_candidate_text c)) ->
  keeps (embed_and_store_candidate env c).
Proof.
  intros Ht. unfold embed_and_store_candidate.
  destruct (negb _); [apply keeps_ret |].
  apply keeps_bind; [apply keeps_encode_text, Ht |].
  intros [v |]; [| apply keeps_ret].
  destruct (c_id c); [| apply keeps_raise].
  apply keeps_bind; [apply keeps_update_candidate |].
  intros _. apply keeps_ret.
Qed.

Lemma keeps_embed_and_store_job j :
  (_extract_job_text j <> EmptyString -> sendable (_extract_job_text j)) ->
  keeps (embed_and_store_job env j).
Proof.
  intros Ht. unfold embed_and_store_job.
  destruct (negb _); [apply keeps_ret |].
  apply keeps_bind; [apply keeps_encode_text, Ht |].
  intros [v |]; [| apply keeps_ret].
  destruct (j_id j); [| apply keeps_raise].
  apply keeps_bind; [apply keeps_update_job |].
  intros _. apply keeps_ret.
Qed.

Lemma keeps_calculate_match_score c j :
  sendable (_extract_candidate_text c) -> sendable (_extract_job_text j) ->
  keeps (calculate_match_score env c j).
Proof.
  intros Hc Hj. unfold calculate_match_score.
  destruct (_ || _); [apply keeps_ret |].
  apply keeps_bind.
  { unfold resolve_candidate_embedding.
    apply keeps_try; [| apply keeps_encode_text; auto].
    destruct (c_id c); [| apply keeps_encode_text; auto].
    apply keeps_bind; [apply keeps_read |].
    intros [d |]; [destruct (truthy_emb _); [apply keeps_ret |] |];
      apply keeps_embed_and_store_candidate; auto. }
  intros ec. apply keeps_bind.
  { unfold resolve_job_embedding.
    apply keeps_try; [| apply keeps_encode_text; auto].
    destruct (j_id j); [| apply keeps_encode_text; auto].
    apply keeps_bind; [apply keeps_read |].
    intros [d |]; [destruct (truthy_emb _); [apply keeps_ret |] |];
      apply keeps_embed_and_store_job; auto. }
  intros ej. apply keeps_bind; [apply keeps_lift |].
  intros s. apply keeps_ret.
Qed.

(** From here on every text may be sent. *)
Hypothesis any_text : forall text, sendable text.

Lemma keeps_score_fetched c j : keeps (score_fetched env c j).
Proof.
  unfold score_fetched. destruct c, j; try apply keeps_raise.
  apply keeps_calculate_match_score; apply any_text.
Qed.

Lemma keeps_scored_copy {D} (d : D) i s : keeps (scored_copy env d i s).
Proof. unfold scored_copy. destruct i; [apply keeps_ret | apply keeps_raise]. Qed.

Lemma keeps_ensure_candidate c : keeps (ensure_candidate_embedding env c).
Proof.
  unfold ensure_candidate_embedding. destruct (negb _); [| apply keeps_ret].
  apply keeps_bind; [apply keeps_embed_and_store_candidate; auto |].
  intros _. unfold refetch_candidate.
  destruct (c_id c); [apply keeps_read | apply keeps_raise].
Qed.

Lemma keeps_ensure_job j : keeps (ensure_job_embedding env j).
Proof.
  unfold ensure_job_embedding. destruct (negb _); [| apply keeps_ret].
  apply keeps_bind; [apply keeps_embed_and_store_job; auto |].
  intros _. unfold refetch_job.
  destruct (j_id j); [apply keeps_read | apply keeps_raise].
Qed.

Lemma keeps_find_matching_jobs email top_n source :
  keeps (find_matching_jobs_for_candidate env email top_n source).
Proof.
  unfold find_matching_jobs_for_candidate.
  apply keeps_bind; [apply keeps_read |].
  intros [c0 |]; [| apply keeps_ret].
  apply keeps_bind; [apply keeps_ensure_candidate |]. intros c.
  apply keeps_bind; [apply keeps_read |]. intros l.
  apply keeps_bind; [| intros; apply keeps_ret].
  apply keeps_mapM. intros job.
  apply keeps_bind; [apply keeps_score_fetched |].
  intros s. apply keeps_scored_copy.
Qed.

Lemma keeps_find_matching_candidates job_id top_n :
  keeps (find_matching_candidates_for_job env job_id top_n).
Proof.
  unfold find_matching_candidates_for_job.
  apply keeps_bind.
  { apply keeps_try; [| apply keeps_ret].
    destruct (ObjectId env job_id); [| apply keeps_raise].
    apply keeps_bind; [apply keeps_read | intros; apply keeps_ret]. }
  intros [[job0 |] |]; try apply keeps_ret.
  apply keeps_bind; [apply keeps_ensure_job |]. intros job.
  apply keeps_bind; [apply keeps_read |]. intros l.
  apply keeps_bind; [| intros; apply keeps_ret].
  apply keeps_mapM. intros c0. unfold score_candidate.
  apply keeps_bind; [apply keeps_ensure_candidate |]. intros c.
  apply keeps_bind; [apply keeps_score_fetched |]. intros s.
  destruct c; [apply keeps_scored_copy | apply keeps_raise].
Qed.

Lemma keeps_bulk_embed_jobs source : keeps (bulk_embed_jobs env source).
Proof.
  unfold bulk_embed_jobs.
  apply keeps_bind; [apply keeps_read |]. intros l.
  apply keeps_bind; [| intros; apply keeps_ret].
  apply keeps_mapM. intros job.
  apply keeps_try; [| apply keeps_ret].
  apply keeps_bind; [apply keeps_embed_and_store_job; auto |].
  intros _. apply keeps_ret.
Qed.

Lemma keeps_analyze_skill_gaps email job_id :
  keeps (analyze_skill_gaps env email job_id).
Proof.
  unfold analyze_skill_gaps.
  apply keeps_bind; [apply keeps_read |]. intros c.
  apply keeps_bind.
  { apply keeps_try; [| apply keeps_ret].
    destruct (ObjectId env job_id); [| apply keeps_raise].
    apply keeps_bind; [apply keeps_read | intros; apply keeps_ret]. }
  intros [j |]; [| apply keeps_ret].
  destruct c, j; apply keeps_ret.
Qed.

End Keeps.

(** The two collections hold the same records in the same order, up to
    the embeddings. *)
Definition same_records (w w' : World) : Prop :=
  map (set_c_embedding []) (candidates w')
  = map (set_c_embedding []) (candidates w)
  /\ map (set_j_embedding []) (jobs w') = map (set_j_embedding []) (jobs w).

Lemma same_records_refl w : same_records w w.
Proof. split; reflexivity. Qed.

Lemma same_records_trans w1 w2 w3 :
  same_records w1 w2 -> same_records w2 w3 -> same_records w1 w3.
Proof. intros [H1 H2] [H3 H4]. split; congruence. Qed.

Lemma map_update_first {A B} (g : A -> B) (p : A -> bool) (f : A -> A)
    (l : list A) :
  (forall x, g (f x) = g x) -> map g (update_first p f l) = map g l.
Proof.
  intros Hg. induction l as [| x l IH]; cbn; [reflexivity |].
  destruct (p x); cbn; [rewrite Hg | rewrite IH]; reflexivity.
Qed.

Lemma same_records_set_candidate p v w :
  same_records w
    (with_candidates (update_first p (set_c_embedding v) (candidates w)) w).
Proof.
  split; simpl_world; [| reflexivity].
  apply map_update_first. intros c. reflexivity.
Qed.

Lemma same_records_set_job p v w :
  same_records w (with_jobs (update_first p (set_j_embedding v) (jobs w)) w).
Proof.
  split; simpl_world; [reflexivity |].
  apply map_update_first. intros j. reflexivity.
Qed.

(** X7. No operation of the engine adds, removes, reorders or edits a
    record: after a call, whatever its outcome, the two collections hold
    the records they held, in the same order and with every field but the
    embedding unchanged.  In particular an update for an identity that no
    record has inserts nothing. *)
Theorem engine_writes_only_embeddings (env : Env) (w : World) :
  (forall c j, same_records w (snd (calculate_match_score env c j w)))
  /\ (forall email top_n source,
        same_records w
          (snd (find_matching_jobs_for_candidate env email top_n source w)))
  /\ (forall job_id top_n,
        same_records w
          (snd (find_matching_candidates_for_job env job_id top_n w)))
  /\ (forall c, same_records w (snd (embed_and_store_candidate env c w)))
  /\ (forall j, same_records w (snd (embed_and_store_job env j w)))
  /\ (forall source, same_records w (snd (bulk_embed_jobs env source w)))
  /\ (forall email job_id,
        same_records w (snd (analyze_skill_gaps env email job_id w))).
Proof.
  pose proof same_records_refl as Hr.
  pose proof same_records_trans as Ht.
  assert (Htick : forall w0, same_records w0 (tick w0))
    by (intros w0; split; reflexivity).
  assert (Hlog : forall text w0, True -> same_records w0 (log_encode text w0))
    by (intros text w0 _; split; reflexivity).
  pose proof same_records_set_candidate as Hsc.
  pose proof same_records_set_job as Hsj.
  split; [| split; [| split; [| split; [| split; [| split]]]]].
  - intros c j.
    apply (keeps_calculate_match_score same_records (fun _ => True)
             Hr Ht Htick Hlog Hsc Hsj env c j I I w).
  - intros email top_n source.
    apply (keeps_find_matching_jobs same_records (fun _ => True)
             Hr Ht Htick Hlog Hsc Hsj env (fun _ => I) email top_n source w).
  - intros job_id top_n.
    apply (keeps_find_matching_candidates same_records (fun _ => True)
             Hr Ht Htick Hlog Hsc Hsj env (fun _ => I) job_id top_n w).
  - intros c.
    apply (keeps_embed_and_store_candidate same_records (fun _ => True)
             Hr Ht Htick Hlog Hsc env c (fun _ => I) w).
  - intros j.
    apply (keeps_embed_and_store_job same_records (fun _ => True)
             Hr Ht Htick Hlog Hsj env j (fun _ => I) w).
  - intros source.
    apply (keeps_bulk_embed_jobs same_records (fun _ => True)
             Hr Ht Htick Hlog Hsj env (fun _ => I) source w).
  - intros email job_id.
    apply (keeps_analyze_skill_gaps same_records Hr Ht Htick env email job_id w).
Qed.

(** *** The skill gap analysis only reads *)

(** X8. [analyze_skill_gaps] changes no record and never asks the model;
    it issues one or two operations on the store.  It raises exactly when
    the store fails on the candidate lookup; otherwise it returns, and the
    answer is "Invalid job ID" exactly when the identity is malformed or
    the store fails on the job lookup, "Candidate or job not found"
    exactly when both lookups succeed and one of them finds nothing. *)
Theorem analyze_skill_gaps_outcomes (env : Env) (w : World)
    (candidate_email job_id : string) :
  let r := fst (analyze_skill_gaps env candidate_email job_id w) in
  let w' := snd (analyze_skill_gaps env candidate_email job_id w) in
  let candidate :=
    find (fun c => String.eqb (c_email c) candidate_email) (candidates w) in
  let job :=
    match ObjectId env job_id with
    | Some i => find (fun j => id_is i (j_id j)) (jobs w)
    | None => None
    end in
  let job_lookup_fails :=
    ObjectId env job_id = None \/ store_up env (S (store_ops w)) = false in
  (candidates w' = candidates w /\ jobs w' = jobs w
   /\ encoded w' = encoded w
   /\ (store_ops w < store_ops w' <= store_ops w + 2)%nat)
  /\ (store_up env (store_ops w) = false -> r = Raise StoreError)
  /\ (store_up env (store_ops w) = true ->
      exists g, r = Ok g
        /\ (g = GapError "Invalid job ID" <-> job_lookup_fails)
        /\ (g = GapError "Candidate or job not found"
            <-> ~ job_lookup_fails /\ (candidate = None \/ job = None))
        /\ (forall c j, ~ job_lookup_fails -> candidate = Some c ->
              job = Some j -> g = Gaps (gap_report c j))).
Proof.
  cbv zeta.
  unfold analyze_skill_gaps, find_candidate_by_email, find_job_by_id,
    store_call, read, try_except, bind, ret, raise.
  destruct (store_up env (store_ops w)) eqn:H1; simpl_world.
  2:{ split; [repeat split; lia |]. split; [reflexivity | discriminate]. }
  destruct (ObjectId env job_id) as [i |] eqn:Hid; simpl_world.
  2:{ split; [repeat split; lia |]. split; [discriminate |]. intros _.
      eexists. split; [reflexivity |]. split; [tauto |].
      split; [| intros c j Hn; exfalso; apply Hn; left; reflexivity].
      split; [discriminate | tauto]. }
  destruct (store_up env (S (store_ops w))) eqn:H2; simpl_world.
  2:{ split; [repeat split; lia |]. split; [discriminate |]. intros _.
      eexists. split; [reflexivity |]. split; [tauto |].
      split; [| intros c j Hn; exfalso; apply Hn; right; reflexivity].
      split; [discriminate | tauto]. }
  destruct (find _ (candidates w)) as [c |] eqn:Hc;
    destruct (find _ (jobs w)) as [j |] eqn:Hj; simpl_world;
    (split; [repeat split; lia |]); (split; [discriminate |]); intros _;
    eexists; (split; [reflexivity |]).
  - split; [split; [discriminate | intros [? | ?]; discriminate] |].
    split; [split; [discriminate | intros [_ [? | ?]]; discriminate] |].
    intros c' j' _ [= <-] [= <-]. reflexivity.
  - split; [split; [discriminate | intros [? | ?]; discriminate] |].
    split; [| intros c' j' _ _ ?; discriminate].
    split; [intros _ | reflexivity].
    split; [intros [? | ?]; discriminate | right; reflexivity].
  - split; [split; [discriminate | intros [? | ?]; discriminate] |].
    split; [| intros c' j' _ ?; discriminate].
    split; [intros _ | reflexivity].
    split; [intros [? | ?]; discriminate | left; reflexivity].
  - split; [split; [discriminate | intros [? | ?]; discriminate] |].
    split; [| intros c' j' _ ?; discriminate].
    split; [intros _ | reflexivity].
    split; [intros [? | ?]; discriminate | left; reflexivity].
Qed.

(** A malformed identity, for the sample candidate. *)
Lemma analyze_skill_gaps_outcomes_witness :
  fst (analyze_skill_gaps Sample.env "alice@example.org" "not-an-id"
         Sample.world)
  = Ok (GapError "Invalid job ID").
Proof.
  destruct (analyze_skill_gaps_outcomes Sample.env Sample.world
              "alice@example.org" "not-an-id") as (_ & _ & H).
  destruct (H eq_refl) as (g & Hg & Hiff & _).
  rewrite Hg. f_equal. apply Hiff. left. reflexivity.
Defined.

(** *** What a call costs *)

(** The model was asked at most [n] more times and the store at most [k]
    more times. *)
Definition within (n k : nat) (w w' : World) : Prop :=
  (List.length (encoded w') <= List.length (encoded w) + n)%nat
  /\ (store_ops w' <= store_ops w + k)%nat.

Definition costs {A} (n k : nat) (m : M A) : Prop :=
  forall w, within n k w (snd (m w)).

Lemma costs_le {A} (n k n' k' : nat) (m : M A) :
  costs n k m -> (n <= n')%nat -> (k <= k')%nat -> costs n' k' m.
Proof. intros H Hn Hk w. destruct (H w). split; lia. Qed.

Lemma costs_ret {A} (a : A) : costs 0 0 (ret a).
Proof. intros w. split; cbn; lia. Qed.

Lemma costs_raise {A} (e : exn) : costs 0 0 (@raise A e).
Proof. intros w. split; cbn; lia. Qed.

Lemma costs_lift {A} (r : result A) : costs 0 0 (lift r).
Proof. intros w. split; cbn; lia. Qed.

Lemma costs_bind {A B} (n1 k1 n2 k2 : nat) (m : M A) (k : A -> M B) :
  costs n1 k1 m -> (forall a, costs n2 k2 (k a)) ->
  costs (n1 + n2) (k1 + k2) (bind m k).
Proof.
  intros Hm Hk w. unfold bind. destruct (Hm w) as [H1 H2].
  destruct (m w) as [[a | e] w1]; cbn in *; [| split; lia].
  destruct (Hk a w1). split; lia.
Qed.

Lemma costs_try {A} (n1 k1 n2 k2 : nat) (body handler : M A) :
  costs n1 k1 body -> costs n2 k2 handler ->
  costs (n1 + n2) (k1 + k2) (try_except body handler).
Proof.
  intros Hb Hh w. unfold try_except. destruct (Hb w) as [H1 H2].
  destruct (body w) as [[a | e] w1]; cbn in *; [split; lia |].
  destruct (Hh w1). split; lia.
Qed.

Lemma costs_mapM {A B} (n k : nat) (f : A -> M B) (l : list A) :
  (forall x, costs n k (f x)) ->
  costs (List.length l * n) (List.length l * k) (mapM f l).
Proof.
  intros Hf. induction l as [| x l IH]; cbn [mapM]; [apply costs_ret |].
  apply (costs_le (n + (List.length l * n + 0))
           (k + (List.length l * k + 0))); [| cbn; lia | cbn; lia].
  apply costs_bind; [apply Hf |]. intros y.
  apply costs_bind; [exact IH |]. intros ys. apply costs_ret.
Qed.

Section Costs.

Variable env : Env.

Lemma costs_read {A} (q : World -> A) : costs 0 1 (store_call env (read q)).
Proof.
  intros w. unfold store_call, read.
  destruct (store_up env (store_ops w)); split; cbn; lia.
Qed.

Lemma costs_update_candidate i v :
  costs 0 1 (update_candidate_embedding env i v).
Proof.
  intros w. unfold update_candidate_embedding, store_call.
  destruct (store_up env (store_ops w)); split; cbn; lia.
Qed.

Lemma costs_update_job i v : costs 0 1 (update_job_embedding env i v).
Proof.
  intros w. unfold update_job_embedding, store_call.
  destruct (store_up env (store_ops w)); split; cbn; lia.
Qed.

Lemma costs_encode_text text : costs 1 0 (encode_text env text).
Proof.
  intros w. unfold encode_text, model_call, bind, ret.
  destruct (negb _); [split; cbn; lia |].
  destruct (model_encode env _ text); split; cbn; lia.
Qed.

Lemma costs_embed_and_store_candidate c :
  costs 1 1 (embed_and_store_candidate env c).
Proof.
  unfold embed_and_store_candidate.
  destruct (negb _); [apply (costs_le 0 0); [apply costs_ret | lia | lia] |].
  apply (costs_bind 1 0 0 1);
    [apply costs_encode_text |].
  intros [v |]; [| apply (costs_le 0 0); [apply costs_ret | lia | lia]].
  destruct (c_id c); [| apply (costs_le 0 0); [apply costs_raise | lia | lia]].
  apply (costs_bind 0 1 0 0);
    [apply costs_update_candidate | intros; apply costs_ret].
Qed.

Lemma costs_embed_and_store_job j : costs 1 1 (embed_and_store_job env j).
Proof.
  unfold embed_and_store_job.
  destruct (negb _); [apply (costs_le 0 0); [apply costs_ret | lia | lia] |].
  apply (costs_bind 1 0 0 1);
    [apply costs_encode_text |].
  intros [v |]; [| apply (costs_le 0 0); [apply costs_ret | lia | lia]].
  destruct (j_id j); [| apply (costs_le 0 0); [apply costs_raise | lia | lia]].
  apply (costs_bind 0 1 0 0);
    [apply costs_update_job | intros; apply costs_ret].
Qed.

Lemma costs_resolve_candidate c text :
  costs 2 2 (resolve_candidate_embedding env c text).
Proof.
  unfold resolve_candidate_embedding.
  apply (costs_try 1 2 1 0);
    [| apply costs_encode_text].
  destruct (c_id c); [| apply (costs_le 1 0); [apply costs_encode_text | lia | lia]].
  apply (costs_bind 0 1 1 1);
    [apply costs_read |].
  intros [d |];
    [destruct (truthy_emb _); [apply (costs_le 0 0); [apply costs_ret | lia | lia] |] |];
    apply costs_embed_and_store_candidate.
Qed.

Lemma costs_resolve_job j text :
  costs 2 2 (resolve_job_embedding env j text).
Proof.
  unfold resolve_job_embedding.
  apply (costs_try 1 2 1 0);
    [| apply costs_encode_text].
  destruct (j_id j); [| apply (costs_le 1 0); [apply costs_encode_text | lia | lia]].
  apply (costs_bind 0 1 1 1);
    [apply costs_read |].
  intros [d |];
    [destruct (truthy_emb _); [apply (costs_le 0 0); [apply costs_ret | lia | lia] |] |];
    apply costs_embed_and_store_job.
Qed.

Lemma costs_calculate_match_score c j :
  costs 4 4 (calculate_match_score env c j).
Proof.
  unfold calculate_match_score.
  destruct (_ || _); [apply (costs_le 0 0); [apply costs_ret | lia | lia] |].
  apply (costs_bind 2 2 2 2);
    [apply costs_resolve_candidate |]. intros ec.
  apply (costs_bind 2 2 0 0);
    [apply costs_resolve_job |]. intros ej.
  apply (costs_bind 0 0 0 0);
    [apply costs_lift | intros; apply costs_ret].
Qed.

Lemma costs_score_fetched c j : costs 4 4 (score_fetched env c j).
Proof.
  unfold score_fetched.
  destruct c, j; try (apply (costs_le 0 0); [apply costs_raise | lia | lia]).
  apply costs_calculate_match_score.
Qed.

Lemma costs_scored_copy {D} (d : D) i s : costs 0 0 (scored_copy env d i s).
Proof. unfold scored_copy. destruct i; [apply costs_ret | apply costs_raise]. Qed.

Lemma costs_ensure_candidate c : costs 1 2 (ensure_candidate_embedding env c).
Proof.
  unfold ensure_candidate_embedding.
  destruct (negb _); [| apply (costs_le 0 0); [apply costs_ret | lia | lia]].
  apply (costs_bind 1 1 0 1);
    [apply costs_embed_and_store_candidate |].
  intros _. unfold refetch_candidate.
  destruct (c_id c); [apply costs_read |].
  apply (costs_le 0 0); [apply costs_raise | lia | lia].
Qed.

Lemma costs_ensure_job j : costs 1 2 (ensure_job_embedding env j).
Proof.
  unfold ensure_job_embedding.
  destruct (negb _); [| apply (costs_le 0 0); [apply costs_ret | lia | lia]].
  apply (costs_bind 1 1 0 1);
    [apply costs_embed_and_store_job |].
  intros _. unfold refetch_job.
  destruct (j_id j); [apply costs_read |].
  apply (costs_le 0 0); [apply costs_raise | lia | lia].
Qed.

End Costs.

(** The texts sent by a call are among [texts]. *)
Definition sent (texts : string -> Prop) (w w' : World) : Prop :=
  exists rest, encoded w' = rest ++ encoded w /\ Forall texts rest.

Lemma sent_refl texts w : sent texts w w.
Proof. exists []. split; [reflexivity | constructor]. Qed.

Lemma sent_trans texts w1 w2 w3 :
  sent texts w1 w2 -> sent texts w2 w3 -> sent texts w1 w3.
Proof.
  intros (r1 & H1 & F1) (r2 & H2 & F2). exists (r2 ++ r1).
  split; [rewrite H2, H1; apply app_assoc | apply Forall_app; auto].
Qed.

(** X9. One call of [calculate_match_score], whatever fails, asks the
    model at most four times and the store at most four times, and the
    only texts it sends to the model are the extracted text of the
    candidate and that of the job. *)
Theorem calculate_match_score_cost (env : Env) (c : Candidate) (j : Job)
    (w : World) :
  let w' := snd (calculate_match_score env c j w) in
  exists sent_now,
    encoded w' = sent_now ++ encoded w
    /\ (List.length sent_now <= 4)%nat
    /\ Forall (fun text => text = _extract_candidate_text c
                           \/ text = _extract_job_text j) sent_now
    /\ (store_ops w <= store_ops w' <= store_ops w + 4)%nat.
Proof.
  cbv zeta.
  set (texts := fun text => text = _extract_candidate_text c
                            \/ text = _extract_job_text j).
  assert (Hsent : sent texts w (snd (calculate_match_score env c j w))).
  { apply (keeps_calculate_match_score (sent texts) texts).
    - apply sent_refl.
    - apply sent_trans.
    - intros w0. exists []. split; [reflexivity | constructor].
    - intros text w0 Ht. exists [text]. split; [reflexivity |].
      constructor; [exact Ht | constructor].
    - intros p v w0. exists []. split; [reflexivity | constructor].
    - intros p v w0. exists []. split; [reflexivity | constructor].
    - left; reflexivity.
    - right; reflexivity. }
  destruct Hsent as (rest & Hrest & Hall).
  destruct (costs_calculate_match_score env c j w) as [Hn Hk].
  assert (Hops : (store_ops w
                  <= store_ops (snd (calculate_match_score env c j w)))%nat).
  { apply (keeps_calculate_match_score
             (fun w1 w2 => (store_ops w1 <= store_ops w2)%nat)
             (fun _ => True)); cbn; intros; auto; lia. }
  exists rest. split; [exact Hrest |].
  rewrite Hrest, length_app in Hn.
  split; [lia |]. split; [exact Hall | lia].
Qed.

Lemma same_records_lengths w w' :
  same_records w w' ->
  List.length (candidates w') = List.length (candidates w)
  /\ List.length (jobs w') = List.length (jobs w).
Proof.
  intros [Hc Hj]. split.
  - rewrite <- (length_map (set_c_embedding []) (candidates w')), Hc.
    apply length_map.
  - rewrite <- (length_map (set_j_embedding []) (jobs w')), Hj.
    apply length_map.
Qed.

Lemma same_records_ensure_candidate env c w :
  same_records w (snd (ensure_candidate_embedding env c w)).
Proof.
  apply (keeps_ensure_candidate same_records (fun _ => True)
           same_records_refl same_records_trans).
  - intros w0. split; reflexivity.
  - intros text w0 _. split; reflexivity.
  - apply same_records_set_candidate.
  - intros text. exact I.
Qed.

Lemma same_records_ensure_job env j w :
  same_records w (snd (ensure_job_embedding env j w)).
Proof.
  apply (keeps_ensure_job same_records (fun _ => True)
           same_records_refl same_records_trans).
  - intros w0. split; reflexivity.
  - intros text w0 _. split; reflexivity.
  - apply same_records_set_job.
  - intros text. exact I.
Qed.

(** X10. A search costs a number of calls that is linear in the size of
    the collection it ranks, whatever fails on the way: for the jobs of a
    candidate at most [1 + 4 n] calls of the model and [4 + 4 n]
    operations of the store, [n] the number of jobs; for the candidates
    of a job at most [1 + 5 n] and [4 + 6 n], [n] the number of
    candidates. *)
Theorem search_cost (env : Env) (w : World) :
  (forall email top_n source,
     within (1 + 4 * List.length (jobs w)) (4 + 4 * List.length (jobs w)) w
       (snd (find_matching_jobs_for_candidate env email top_n source w)))
  /\ (forall job_id top_n,
        within (1 + 5 * List.length (candidates w))
          (4 + 6 * List.length (candidates w)) w
          (snd (find_matching_candidates_for_job env job_id top_n w))).
Proof.
  split.
  - intros email top_n source.
    unfold find_matching_jobs_for_candidate, bind at 1.
    pose proof (costs_read env
                  (fun w0 => find (fun c => String.eqb (c_email c) email)
                               (candidates w0)) w) as H1.
    unfold find_candidate_by_email.
    destruct (store_call env _ w) as [[[c0 |] | e] w1] eqn:E1;
      cbn [snd] in *; try (destruct H1; split; cbn; lia).
    assert (Hj1 : jobs w1 = jobs w).
    { revert E1. unfold store_call, read.
      destruct (store_up env (store_ops w)); intros [= _ <-]; reflexivity. }
    unfold bind at 1.
    pose proof (costs_ensure_candidate env c0 w1) as H2.
    pose proof (same_records_lengths _ _ (same_records_ensure_candidate env c0 w1))
      as [_ Hl2].
    destruct (ensure_candidate_embedding env c0 w1) as [[c | e] w2];
      cbn [snd] in *; [| destruct H1, H2; split; lia].
    unfold bind at 1.
    pose proof (costs_read env
                  (fun w0 => filter (source_query source) (jobs w0)) w2) as H3.
    unfold find_jobs.
    destruct (store_call env _ w2) as [[l | e] w3] eqn:E3;
      cbn [snd] in *; [| destruct H1, H2, H3; split; lia].
    assert (Hl3 : (List.length l <= List.length (jobs w))%nat).
    { revert E3. unfold store_call, read.
      destruct (store_up env (store_ops w2)); [| discriminate].
      intros [= <- _]. simpl_world. rewrite <- Hj1, <- Hl2.
      apply filter_length_le. }
    unfold bind at 1.
    pose proof (costs_mapM 4 4
                  (fun job =>
                     bind (score_fetched env c (Some job))
                       (fun score => scored_copy env job (j_id job) score))
                  l) as H4.
    specialize (H4 (fun job =>
                      costs_bind 4 4 0 0 _ _ (costs_score_fetched env c _)
                        (fun s => costs_scored_copy env job (j_id job) s))).
    specialize (H4 w3).
    destruct (mapM _ l w3) as [[scored | e] w4]; cbn [snd ret] in *;
      destruct H1, H2, H3, H4; split; lia.
  - intros job_id top_n.
    unfold find_matching_candidates_for_job, bind at 1.
    assert (H1 : forall r w1,
      try_except
        (match ObjectId env job_id with
         | Some i => bind (find_job_by_id env i) (fun found => ret (Some found))
         | None => raise InvalidId
         end) (ret None) w = (r, w1) ->
      within 0 1 w w1 /\ candidates w1 = candidates w).
    { intros r w1. unfold try_except, bind, find_job_by_id, store_call, read,
        ret, raise.
      destruct (ObjectId env job_id);
        [destruct (store_up env (store_ops w)) |];
        intros [= _ <-]; repeat split; cbn; lia. }
    destruct (try_except _ _ w) as [[[[job0 |] |] | e] w1] eqn:E1;
      destruct (H1 _ _ eq_refl) as [[Ha Hb] Hc1]; cbn [snd ret] in *;
      try (split; lia).
    unfold bind at 1.
    pose proof (costs_ensure_job env job0 w1) as H2.
    pose proof (same_records_lengths _ _ (same_records_ensure_job env job0 w1))
      as [Hl2 _].
    destruct (ensure_job_embedding env job0 w1) as [[job | e] w2];
      cbn [snd] in *; [| destruct H2; split; lia].
    unfold bind at 1.
    pose proof (costs_read env
                  (fun w0 => map without_password (candidates w0)) w2) as H3.
    unfold find_candidates.
    destruct (store_call env _ w2) as [[l | e] w3] eqn:E3;
      cbn [snd] in *; [| destruct H2, H3; split; lia].
    assert (Hl3 : List.length l = List.length (candidates w)).
    { revert E3. unfold store_call, read.
      destruct (store_up env (store_ops w2)); [| discriminate].
      intros [= <- _]. simpl_world. rewrite length_map. congruence. }
    unfold bind at 1.
    assert (Hbody : forall c0, costs 5 6 (score_candidate env job c0)).
    { intros c0. unfold score_candidate.
      apply (costs_bind 1 2 4 4); [apply costs_ensure_candidate |].
      intros c. apply (costs_bind 4 4 0 0); [apply costs_score_fetched |].
      intros s. destruct c; [apply costs_scored_copy | apply costs_raise]. }
    pose proof (costs_mapM 5 6 (score_candidate env job) l Hbody w3) as H4.
    destruct (mapM _ l w3) as [[scored | e] w4]; cbn [snd ret] in *;
      destruct H2, H3, H4; split; lia.
Qed.

(* ------------------------------------------------------------------ *)
(** ** Job -> candidates search *)
(* ------------------------------------------------------------------ *)

Lemma find_same_map {A B} (g : A -> B) (p : A -> bool) (q : B -> bool)
    (l l' : list A) (a : A) :
  (forall x, p x = q (g x)) -> map g l' = map g l -> find p l = Some a ->
  exists a', find p l' = Some a' /\ g a' = g a.
Proof.
  intros Hp. revert l'.
  induction l as [| x l IH]; intros [| x' l']; cbn; try discriminate.
  intros [= Hx Hl]. rewrite (Hp x), (Hp x'), Hx.
  destruct (q (g x)); [intros [= <-]; eauto | apply IH, Hl].
Qed.

Lemma same_records_In_candidate w w' d' :
  same_records w w' -> In d' (candidates w') ->
  exists d, In d (candidates w)
            /\ set_c_embedding [] d' = set_c_embedding [] d.
Proof.
  intros [Hc _] Hin. apply (in_map (set_c_embedding [])) in Hin.
  rewrite Hc in Hin. apply in_map_iff in Hin.
  destruct Hin as (d & Hd & Hin). eauto.
Qed.

Lemma same_records_find_candidate w w' i d :
  same_records w w' ->
  find (fun c => id_is i (c_id c)) (candidates w) = Some d ->
  exists d', find (fun c => id_is i (c_id c)) (candidates w') = Some d'
             /\ set_c_embedding [] d' = set_c_embedding [] d.
Proof.
  intros [Hc _].
  apply (find_same_map (set_c_embedding []) (fun c => id_is i (c_id c))
           (fun c => id_is i (c_id c))); [reflexivity | exact Hc].
Qed.

Lemma same_records_find_job w w' i d :
  same_records w w' ->
  find (fun j => id_is i (j_id j)) (jobs w) = Some d ->
  exists d', find (fun j => id_is i (j_id j)) (jobs w') = Some d'
             /\ set_j_embedding [] d' = set_j_embedding [] d.
Proof.
  intros [_ Hj].
  apply (find_same_map (set_j_embedding []) (fun j => id_is i (j_id j))
           (fun j => id_is i (j_id j))); [reflexivity | exact Hj].
Qed.

Lemma id_is_true i x : id_is i x = true -> x = Some i.
Proof.
  destruct x as [i' |]; cbn; [| discriminate].
  intros H. apply N.eqb_eq in H. congruence.
Qed.

Lemma same_c_id (d d' : Candidate) :
  set_c_embedding [] d' = set_c_embedding [] d -> c_id d' = c_id d.
Proof. intros H. apply (f_equal c_id) in H. exact H. Qed.

Lemma same_j_id (d d' : Job) :
  set_j_embedding [] d' = set_j_embedding [] d -> j_id d' = j_id d.
Proof. intros H. apply (f_equal j_id) in H. exact H. Qed.

Section CandidatesSearch.

Variable env : Env.

Lemma same_records_tick w : same_records w (tick w).
Proof. split; reflexivity. Qed.

Lemma same_records_log text w : True -> same_records w (log_encode text w).
Proof. split; reflexivity. Qed.

Lemma same_records_embed_candidate c w :
  same_records w (snd (embed_and_store_candidate env c w)).
Proof.
  apply (keeps_embed_and_store_candidate same_records (fun _ => True)
           same_records_refl same_records_trans same_records_tick
           (fun t w0 H => same_records_log t w0 H)
           same_records_set_candidate env c (fun _ => I)).
Qed.

Lemma same_records_embed_job j w :
  same_records w (snd (embed_and_store_job env j w)).
Proof.
  apply (keeps_embed_and_store_job same_records (fun _ => True)
           same_records_refl same_records_trans same_records_tick
           (fun t w0 H => same_records_log t w0 H)
           same_records_set_job env j (fun _ => I)).
Qed.

Lemma same_records_score c j w :
  same_records w (snd (calculate_match_score env c j w)).
Proof.
  apply (keeps_calculate_match_score same_records (fun _ => True)
           same_records_refl same_records_trans same_records_tick
           (fun t w0 H => same_records_log t w0 H)
           same_records_set_candidate same_records_set_job env c j I I).
Qed.

(** A job operation leaves the candidates alone. *)
Lemma ensure_job_embedding_candidates (j : Job) (w : World) :
  candidates (snd (ensure_job_embedding env j w)) = candidates w.
Proof.
  apply (keeps_ensure_job (fun w1 w2 => candidates w2 = candidates w1)
           (fun _ => True)); try reflexivity; intros; congruence.
Qed.

(** What the [if not job.get("embedding")] block hands on: the job
    found, up to its embedding. *)
Lemma ensure_job_embedding_same (i : oid) (job0 : Job) (w0 w : World) :
  same_records w0 w ->
  find (fun j => id_is i (j_id j)) (jobs w0) = Some job0 ->
  post (ensure_job_embedding env job0) w
    (fun r _ => forall job, r = Ok job ->
       exists j, job = Some j
                 /\ set_j_embedding [] j = set_j_embedding [] job0).
Proof.
  intros Hsame Hfind. unfold ensure_job_embedding.
  destruct (negb _); [| apply post_ret; intros job [= <-]; eauto].
  apply post_bind, post_intro. intros r w1 Hrun.
  pose proof (same_records_embed_job job0 w) as H1. rewrite Hrun in H1.
  cbn [snd] in H1.
  destruct r as [a | e]; [| intros job; discriminate].
  unfold refetch_job, find_job_by_id, read.
  pose proof (find_some _ _ Hfind) as [_ Hid]. apply id_is_true in Hid.
  rewrite Hid.
  apply post_store_call; simpl_world; intros _; [| intros job; discriminate].
  destruct (same_records_find_job w0 w1 i job0
              (same_records_trans _ _ _ Hsame H1) Hfind) as (d & -> & Hd).
  intros job [= <-]. eauto.
Qed.

(** An entry is the scored copy of the snapshot record [s]: the record
    itself when its embedding counts, and otherwise the record of that
    identity as the store has it, which was fetched again without the
    projection. *)
Definition scored_candidate_of (w : World) (job : Job) (s : Candidate)
    (x : Scored Candidate) : Prop :=
  (if truthy_emb (c_embedding s) then sc_doc x = s
   else exists d, In d (candidates w) /\ c_id d = c_id s
                  /\ set_c_embedding [] (sc_doc x) = set_c_embedding [] d)
  /\ (exists i, c_id s = Some i /\ sc_id x = str_oid env i)
  /\ exists wa wb,
       calculate_match_score env (sc_doc x) job wa = (Ok (match_score x), wb).

Lemma score_candidate_entry (w : World) (job : option Job) (s : Candidate)
    (w0 : World) :
  same_records w w0 ->
  post (score_candidate env job s) w0
    (fun r _ => forall x, r = Ok x ->
       exists j, job = Some j /\ scored_candidate_of w j s x).
Proof.
  intros Hsame. unfold score_candidate, ensure_candidate_embedding.
  destruct (truthy_emb (c_embedding s)) eqn:Htr; cbn [negb].
  - apply post_bind, post_ret. apply post_bind, post_intro.
    intros [score | e] w1 Hrun; [| intros x; discriminate].
    destruct job as [j |]; [| discriminate].
    cbn [score_fetched] in Hrun. unfold scored_copy.
    destruct (c_id s) as [i |] eqn:Hid;
      [| apply post_raise; intros x; discriminate].
    apply post_ret. intros x [= <-]. exists j. split; [reflexivity |].
    unfold scored_candidate_of. cbn [sc_doc sc_id match_score].
    rewrite Htr. eauto 8.
  - apply post_bind, post_bind, post_intro. intros r w1 Hrun.
    pose proof (same_records_embed_candidate s w0) as H1. rewrite Hrun in H1.
    cbn [snd] in H1.
    destruct r as [a | e]; [| intros x; discriminate].
    unfold refetch_candidate, find_candidate_by_id, read.
    destruct (c_id s) as [i |] eqn:Hid;
      [| apply post_raise; intros x; discriminate].
    apply post_store_call; simpl_world; intros _;
      [| intros x; discriminate].
    destruct (find _ (candidates w1)) as [d1 |] eqn:Hf.
    2:{ apply post_bind, post_raise. intros x; discriminate. }
    apply find_some in Hf. destruct Hf as [Hin1 Hid1].
    apply id_is_true in Hid1.
    destruct (same_records_In_candidate w w1 d1
                (same_records_trans _ _ _ Hsame H1) Hin1) as (d & Hd & Heq).
    apply post_bind, post_intro.
    intros [score | e] w2 Hscore; [| intros x; discriminate].
    destruct job as [j |]; [| discriminate].
    cbn [score_fetched] in Hscore. unfold scored_copy. rewrite Hid1.
    apply post_ret. intros x [= <-]. exists j. split; [reflexivity |].
    unfold scored_candidate_of. cbn [sc_doc sc_id match_score].
    rewrite Htr. split; [| eauto 8].
    exists d. split; [exact Hd |]. split; [| exact Heq].
    rewrite <- (same_c_id _ _ Heq). congruence.
Qed.

Lemma same_records_score_candidate job s w :
  same_records w (snd (score_candidate env job s w)).
Proof.
  unfold score_candidate.
  apply (keeps_bind same_records same_records_trans).
  - intros w0.
    apply (keeps_ensure_candidate same_records (fun _ => True)
             same_records_refl same_records_trans same_records_tick
             (fun t w1 H => same_records_log t w1 H)
             same_records_set_candidate env (fun _ => I)).
  - intros c.
    apply (keeps_bind same_records same_records_trans).
    + intros w0.
      apply (keeps_score_fetched same_records (fun _ => True)
               same_records_refl same_records_trans same_records_tick
               (fun t w1 H => same_records_log t w1 H)
               same_records_set_candidate same_records_set_job env
               (fun _ => I)).
    + intros score. destruct c as [c |].
      * apply (keeps_scored_copy same_records same_records_refl).
      * apply (keeps_raise same_records same_records_refl).
Qed.

Lemma find_matching_candidates_shape (job_id : string) (top_n : Z)
    (w : World) :
  post (find_matching_candidates_for_job env job_id top_n) w
    (fun r _ => forall res, r = Ok res ->
       match ObjectId env job_id with
       | None => res = []
       | Some i =>
           match find (fun j => id_is i (j_id j)) (jobs w) with
           | None => res = []
           | Some job0 =>
               (store_up env (store_ops w) = false /\ res = [])
               \/ exists job scored,
                    set_j_embedding [] job = set_j_embedding [] job0
                    /\ Forall2 (scored_candidate_of w job)
                         (map without_password (candidates w)) scored
                    /\ res = slice_to top_n
                               (sort_desc (@match_score Candidate) scored)
           end
       end).
Proof.
  unfold find_matching_candidates_for_job.
  apply post_bind, post_try.
  destruct (ObjectId env job_id) as [i |];
    [| apply post_raise, post_ret, post_ret; intros res [= <-]; reflexivity].
  unfold find_job_by_id, read.
  apply post_bind, post_store_call; simpl_world; intros Hup;
    [| apply post_ret, post_ret; intros res [= <-];
       destruct (find _ (jobs w)); [left; split |]; trivial].
  apply post_ret.
  destruct (find _ (jobs w)) as [job0 |] eqn:Hfind;
    [| apply post_ret; intros res [= <-]; reflexivity].
  apply post_bind, post_intro. intros r w1 Hrun.
  pose proof (post_run (ensure_job_embedding_same i job0 w (tick w)
                          (same_records_tick w) Hfind) Hrun) as Hjob.
  pose proof (same_records_ensure_job env job0 (tick w)) as Hs1.
  pose proof (ensure_job_embedding_candidates job0 (tick w)) as Hc1.
  rewrite Hrun in Hs1, Hc1. cbn [snd] in Hs1, Hc1. simpl_world in Hc1.
  destruct r as [job | e]; [| intros res; discriminate].
  destruct (Hjob job eq_refl) as (j & -> & Hj).
  unfold find_candidates, read.
  apply post_bind, post_store_call; simpl_world; intros _;
    [| intros res; discriminate].
  rewrite Hc1. apply post_bind.
  assert (Hsame : same_records w (tick w1)).
  { eapply same_records_trans; [apply same_records_tick |].
    eapply same_records_trans; [exact Hs1 | apply same_records_tick]. }
  assert (Hbody : forall s w0,
    In s (map without_password (candidates w)) -> same_records w w0 ->
    post (score_candidate env (Some j) s) w0
      (fun r w2 => same_records w w2
                   /\ forall y, r = Ok y -> scored_candidate_of w j s y)).
  { intros s w0 _ Hw0. apply post_intro. intros r w2 Hrun2. split.
    - pose proof (same_records_score_candidate (Some j) s w0) as H.
      rewrite Hrun2 in H. eapply same_records_trans; [exact Hw0 | exact H].
    - intros y ->.
      destruct (post_run (score_candidate_entry w (Some j) s w0 Hw0) Hrun2
                  y eq_refl) as (j' & [= <-] & Hy).
      exact Hy. }
  apply (post_weaken
           (post_mapM _ (same_records w) (scored_candidate_of w j) _ _
              Hsame Hbody)).
  intros [scored | e] w2 [_ H]; [| intros res; discriminate].
  apply post_ret. intros res [= <-]. right. exists j, scored.
  split; [exact Hj |]. split; [apply H; reflexivity | reflexivity].
Qed.

End CandidatesSearch.

Section CandidatesSearchTotal.

Variable env : Env.
Variable D : nat.
Hypothesis Hstore : store_total env.
Hypothesis Hmodel : provider_total D env.

Lemma embed_and_store_candidate_ok (s : Candidate) (i : oid) (w : World) :
  c_id s = Some i -> dims_ok D w ->
  post (embed_and_store_candidate env s) w
    (fun r w' => dims_ok D w' /\ exists a, r = Ok a).
Proof.
  intros Hid Hd. unfold embed_and_store_candidate.
  destruct (negb _) eqn:Ht; [apply post_ret; eauto |].
  apply negb_false_iff in Ht.
  apply post_bind, (post_encode_text_total env D Hmodel); [exact Ht |].
  intros v Hlen. rewrite Hid. unfold update_candidate_embedding.
  apply post_bind, post_store_call; simpl_world;
    [| rewrite Hstore; discriminate].
  intros _. apply post_ret. split; [| eauto].
  eapply dims_ok_set_candidate; [exact Hlen | exact Hd | |]; reflexivity.
Qed.

Lemma embed_and_store_job_ok (j : Job) (i : oid) (w : World) :
  j_id j = Some i -> dims_ok D w ->
  post (embed_and_store_job env j) w
    (fun r w' => dims_ok D w' /\ exists a, r = Ok a).
Proof.
  intros Hid Hd. unfold embed_and_store_job.
  destruct (negb _) eqn:Ht; [apply post_ret; eauto |].
  apply negb_false_iff in Ht.
  apply post_bind, (post_encode_text_total env D Hmodel); [exact Ht |].
  intros v Hlen. rewrite Hid. unfold update_job_embedding.
  apply post_bind, post_store_call; simpl_world;
    [| rewrite Hstore; discriminate].
  intros _. apply post_ret. split; [| eauto].
  eapply dims_ok_set_job; [exact Hlen | exact Hd | |]; reflexivity.
Qed.

Lemma score_candidate_total (w : World) (j : Job) (s d : Candidate)
    (i : oid) (w0 : World) :
  same_records w w0 -> dims_ok D w0 -> c_id s = Some i ->
  find (fun c => id_is i (c_id c)) (candidates w) = Some d ->
  post (score_candidate env (Some j) s) w0
    (fun r w1 => dims_ok D w1 /\ exists y, r = Ok y).
Proof.
  intros Hsame Hd Hid Hfind.
  unfold score_candidate, ensure_candidate_embedding.
  assert (Hscore : forall (c : Candidate) w1, dims_ok D w1 ->
            c_id c = Some i ->
            post (score <- score_fetched env (Some c) (Some j) ;;
                  scored_copy env c (c_id c) score)%py w1
              (fun r w2 => dims_ok D w2 /\ exists y, r = Ok y)).
  { intros c w1 Hd1 Hc. apply post_bind. cbn [score_fetched].
    apply (post_weaken (calculate_match_score_total env D Hmodel c j w1 Hd1)).
    intros r w2 [Hd2 (score & ->)]. unfold scored_copy. rewrite Hc.
    apply post_ret. eauto. }
  destruct (truthy_emb (c_embedding s)); cbn [negb].
  - apply post_bind, post_ret. apply Hscore; assumption.
  - apply post_bind, post_bind, post_intro. intros r w1 Hrun.
    pose proof (same_records_embed_candidate env s w0) as H1.
    rewrite Hrun in H1. cbn [snd] in H1.
    destruct (post_run (embed_and_store_candidate_ok s i w0 Hid Hd) Hrun)
      as [Hd1 (a & ->)].
    unfold refetch_candidate, find_candidate_by_id, read. rewrite Hid.
    apply post_store_call; simpl_world; [| rewrite Hstore; discriminate].
    intros _.
    destruct (same_records_find_candidate w w1 i d
                (same_records_trans _ _ _ Hsame H1) Hfind) as (d1 & -> & Heq).
    apply Hscore; [exact Hd1 |].
    rewrite (same_c_id _ _ Heq).
    apply find_some in Hfind. apply id_is_true, Hfind.
Qed.

Lemma find_matching_candidates_total (job_id : string) (top_n : Z)
    (w : World) (i : oid) (job0 : Job) :
  dims_ok D w -> ids_ok w -> ObjectId env job_id = Some i ->
  find (fun j => id_is i (j_id j)) (jobs w) = Some job0 ->
  post (find_matching_candidates_for_job env job_id top_n) w
    (fun r _ => exists res, r = Ok res).
Proof.
  intros Hd Hids Hoid Hfind.
  unfold find_matching_candidates_for_job. rewrite Hoid.
  apply post_bind, post_try. unfold find_job_by_id, read.
  apply post_bind, post_store_call; simpl_world;
    [| rewrite Hstore; discriminate].
  intros _. rewrite Hfind. apply post_ret.
  pose proof (find_some _ _ Hfind) as [_ Hjid]. apply id_is_true in Hjid.
  apply post_bind, post_intro. intros r w1 Hrun.
  pose proof (same_records_ensure_job env job0 (tick w)) as Hs1.
  pose proof (ensure_job_embedding_candidates env job0 (tick w)) as Hc1.
  rewrite Hrun in Hs1, Hc1. cbn [snd] in Hs1, Hc1. simpl_world in Hc1.
  assert (Hens : dims_ok D w1 /\ exists j, r = Ok (Some j)).
  { revert Hrun. unfold ensure_job_embedding.
    destruct (negb _); [| intros [= <- <-]; eauto].
    intros Hrun. revert Hrun. unfold bind at 1.
    destruct (embed_and_store_job env job0 (tick w)) as [r1 w2] eqn:E.
    pose proof (same_records_embed_job env job0 (tick w)) as Hs2.
    rewrite E in Hs2. cbn [snd] in Hs2.
    destruct (post_run (embed_and_store_job_ok job0 i (tick w) Hjid Hd) E)
      as [Hd2 (a & ->)].
    unfold refetch_job, find_job_by_id, read, store_call. rewrite Hjid.
    rewrite Hstore. simpl_world.
    destruct (same_records_find_job w w2 i job0
                (same_records_trans _ _ _ (same_records_tick w) Hs2) Hfind)
      as (d1 & -> & _).
    intros [= <- <-]. split; [exact Hd2 | eauto]. }
  destruct Hens as [Hd1 (j & ->)].
  unfold find_candidates, read.
  apply post_bind, post_store_call; simpl_world;
    [| rewrite Hstore; discriminate].
  intros _. rewrite Hc1. apply post_bind.
  assert (Hsame : same_records w (tick w1)).
  { eapply same_records_trans; [apply same_records_tick |].
    eapply same_records_trans; [exact Hs1 | apply same_records_tick]. }
  assert (Hbody : forall s w0,
    In s (map without_password (candidates w)) ->
    dims_ok D w0 /\ same_records w w0 ->
    post (score_candidate env (Some j) s) w0
      (fun r w2 => (dims_ok D w2 /\ same_records w w2)
                   /\ exists y, r = Ok y)).
  { intros s w0 Hin [Hd0 Hw0]. apply in_map_iff in Hin.
    destruct Hin as (c & <- & Hin).
    destruct Hids as [Hcids _]. rewrite Forall_forall in Hcids.
    specialize (Hcids c Hin).
    destruct (c_id c) as [ic |] eqn:Hic; [| congruence].
    assert (Hfc : exists d,
              find (fun x => id_is ic (c_id x)) (candidates w) = Some d).
    { destruct (find _ (candidates w)) as [d |] eqn:Hf; [eauto |].
      apply (find_none _ _ Hf) in Hin. rewrite Hic in Hin. cbn in Hin.
      rewrite N.eqb_refl in Hin. discriminate. }
    destruct Hfc as (d & Hfc).
    apply post_intro. intros r w2 Hrun2.
    destruct (post_run (score_candidate_total w j (without_password c) d ic
                          w0 Hw0 Hd0 Hic Hfc) Hrun2) as [Hd2 Hy].
    split; [split; [exact Hd2 |] | exact Hy].
    pose proof (same_records_score_candidate env (Some j)
                  (without_password c) w0) as H.
    rewrite Hrun2 in H. eapply same_records_trans; [exact Hw0 | exact H]. }
  apply (post_weaken
           (post_mapM_total _ (fun w0 => dims_ok D w0 /\ same_records w w0)
              _ (tick w1) (conj Hd1 Hsame) Hbody)).
  intros r w2 [_ (ys & ->)]. apply post_ret. eauto.
Qed.

End CandidatesSearchTotal.

Lemma slice_to_length_min {A} (n : Z) (l : list A) :
  (0 <= n)%Z ->
  List.length (slice_to n l) = Nat.min (Z.to_nat n) (List.length l).
Proof.
  intros Hn. unfold slice_to. destruct (Z.ltb_spec n 0); [lia |].
  apply length_firstn.
Qed.

(** X11. What [find_matching_candidates_for_job] returns has at most
    [top_n] entries and at most one for each candidate, by decreasing
    score, the entries of one score in retrieval order; it is empty when
    the identity is malformed or matches no job.  With the job found the
    entries are the scored copies of all the candidates, sorted and cut
    at [top_n]: each is scored against the job found (up to its
    embedding) and carries the identity of its candidate as a string.
    With a store and a model that answer, the search returns, with
    [min top_n n] entries for [n] candidates. *)
Theorem find_matching_candidates_for_job_spec (env : Env) (w : World)
    (job_id : string) (top_n : Z) :
  let found :=
    match ObjectId env job_id with
    | Some i => find (fun j => id_is i (j_id j)) (jobs w)
    | None => None
    end in
  (forall res w',
     find_matching_candidates_for_job env job_id top_n w = (Ok res, w') ->
     ((0 <= top_n)%Z -> (List.length res <= Z.to_nat top_n)%nat)
     /\ (List.length res <= List.length (candidates w))%nat
     /\ StronglySorted (desc (@match_score Candidate)) res
     /\ (found = None -> res = [])
     /\ (forall job0, found = Some job0 ->
         store_up env (store_ops w) = true ->
         exists job scored,
           set_j_embedding [] job = set_j_embedding [] job0
           /\ Forall2 (scored_candidate_of env w job)
                (map without_password (candidates w)) scored
           /\ res = slice_to top_n (sort_desc (@match_score Candidate) scored)
           /\ forall v, exists rest,
                filter (key_is (@match_score Candidate) v) scored
                = filter (key_is (@match_score Candidate) v) res ++ rest))
  /\ (forall (D : nat) (job0 : Job),
        store_total env -> provider_total D env -> dims_ok D w -> ids_ok w ->
        found = Some job0 ->
        exists res w',
          find_matching_candidates_for_job env job_id top_n w = (Ok res, w')
          /\ ((0 <= top_n)%Z ->
              List.length res
              = Nat.min (Z.to_nat top_n) (List.length (candidates w)))).
Proof.
  intros found.
  assert (Hshape : forall res w',
    find_matching_candidates_for_job env job_id top_n w = (Ok res, w') ->
    (found = None /\ res = [])
    \/ (exists job0, found = Some job0
          /\ store_up env (store_ops w) = false /\ res = [])
    \/ (exists job0 job scored,
          found = Some job0
          /\ set_j_embedding [] job = set_j_embedding [] job0
          /\ Forall2 (scored_candidate_of env w job)
               (map without_password (candidates w)) scored
          /\ res = slice_to top_n (sort_desc (@match_score Candidate) scored))).
  { intros res w' Hrun.
    pose proof (post_run (find_matching_candidates_shape env job_id top_n w)
                  Hrun res eq_refl) as H.
    subst found. destruct (ObjectId env job_id) as [i |]; [| auto].
    destruct (find _ (jobs w)) as [job0 |]; [| auto].
    destruct H as [[Hup ->] | (job & scored & H)]; right;
      [left | right]; eauto 8. }
  split.
  - intros res w' Hrun.
    destruct (Hshape res w' Hrun)
      as [[Hnone ->] | [(job0 & Hf & Hup & ->)
                       | (job0 & job & scored & Hf & Hj & Hall & ->)]].
    + split; [intros _; cbn; lia |]. split; [cbn; lia |].
      split; [constructor |]. split; [reflexivity |].
      intros job0 Hf. congruence.
    + split; [intros _; cbn; lia |]. split; [cbn; lia |].
      split; [constructor |]. split; [reflexivity |].
      intros job1 _ Hup'. congruence.
    + destruct (ranked_properties (@match_score Candidate) scored top_n)
        as (Hlen & Hsorted & Hin & Hstable).
      split; [exact Hlen |]. split.
      { destruct (slice_to_prefix top_n
                    (sort_desc (@match_score Candidate) scored))
          as (rest & Hrest).
        pose proof (Permutation_length
                      (sort_desc_perm (@match_score Candidate) scored)) as Hp.
        pose proof (f_equal (@List.length _) Hrest) as Hl.
        rewrite length_app in Hl.
        pose proof (Forall2_length Hall) as Hn. rewrite length_map in Hn.
        lia. }
      split; [exact Hsorted |]. split; [congruence |].
      intros job1 Hf1 _. exists job, scored.
      split; [congruence |]. split; [exact Hall |].
      split; [reflexivity | exact Hstable].
  - intros D job0 Hstore Hmodel Hd Hids Hf.
    subst found. destruct (ObjectId env job_id) as [i |] eqn:Hoid;
      [| discriminate].
    pose proof (find_matching_candidates_total env D Hstore Hmodel
                  job_id top_n w i job0 Hd Hids Hoid Hf) as Htot.
    unfold post in Htot.
    destruct (find_matching_candidates_for_job env job_id top_n w)
      as [r w'] eqn:Hrun.
    cbn [fst] in Htot. destruct Htot as (res & ->).
    exists res, w'. split; [reflexivity |]. intros Hn.
    destruct (Hshape res w' eq_refl)
      as [[Hnone _] | [(job1 & _ & Hup & _)
                      | (job1 & job & scored & _ & _ & Hall & ->)]].
    + congruence.
    + rewrite Hstore in Hup. discriminate.
    + rewrite slice_to_length_min by exact Hn.
      pose proof (Permutation_length
                    (sort_desc_perm (@match_score Candidate) scored)) as Hp.
      pose proof (Forall2_length Hall) as Hl. rewrite length_map in Hl.
      lia.
Qed.

(** The sample job has the identity 10. *)
Lemma find_matching_candidates_for_job_witness :
  exists res w',
    find_matching_candidates_for_job Sample.env (Sample.print_oid 10%N) 20
      Sample.world = (Ok res, w')
    /\ ((0 <= 20)%Z ->
        List.length res
        = Nat.min (Z.to_nat 20) (List.length (candidates Sample.world))).
Proof.
  apply (find_matching_candidates_for_job_spec Sample.env Sample.world
           (Sample.print_oid 10%N) 20) with (D := 2%nat)
                                           (job0 := Sample.backend_job).
  - intros k. reflexivity.
  - exact sample_provider_total.
  - exact sample_dims_ok.
  - exact sample_ids_ok.
  - reflexivity.
Defined.

Lemma NoDup_map_eq {A B} (f : A -> B) (l : list A) (a b : A) :
  NoDup (map f l) -> In a l -> In b l -> f a = f b -> a = b.
Proof.
  induction l as [| x l IH]; cbn; [contradiction |].
  intros Hnd Ha Hb Hab. inversion Hnd as [| ? ? Hx Hl]; subst.
  destruct Ha as [<- | Ha], Hb as [<- | Hb]; auto.
  - exfalso. apply Hx. rewrite Hab. apply in_map, Hb.
  - exfalso. apply Hx. rewrite <- Hab. apply in_map, Ha.
Qed.

(** X12. The candidates are read without their password, but a candidate
    whose stored embedding does not count is fetched again by identity
    without the projection: with distinct identities, an entry returned
    by [find_matching_candidates_for_job] carries no password when the
    embedding of its candidate counted at the time of the search, and
    the stored password of its candidate when it did not. *)
Theorem recommended_candidates_passwords (env : Env) (w w' : World)
    (job_id : string) (top_n : Z) (res : list (Scored Candidate)) :
  find_matching_candidates_for_job env job_id top_n w = (Ok res, w') ->
  NoDup (map c_id (candidates w)) ->
  Forall (fun x => exists c,
            In c (candidates w)
            /\ c_id (sc_doc x) = c_id c
            /\ c_password (sc_doc x)
               = if truthy_emb (c_embedding c) then None else c_password c)
    res.
Proof.
  intros Hrun Hnd.
  pose proof (post_run (find_matching_candidates_shape env job_id top_n w)
                Hrun res eq_refl) as H.
  destruct (ObjectId env job_id) as [i |]; [| subst res; constructor].
  destruct (find _ (jobs w)) as [job0 |]; [| subst res; constructor].
  destruct H as [[_ ->] | (job & scored & _ & Hall & ->)]; [constructor |].
  destruct (ranked_properties (@match_score Candidate) scored top_n)
    as (_ & _ & Hin & _).
  apply Forall_forall. intros x Hx. apply Hin in Hx.
  destruct (Forall2_In_r _ _ _ _ Hall Hx) as (s & Hs & Hentry & _).
  apply in_map_iff in Hs. destruct Hs as (c & <- & Hc).
  exists c. split; [exact Hc |].
  change (c_embedding (without_password c)) with (c_embedding c) in Hentry.
  destruct (truthy_emb (c_embedding c)).
  - rewrite Hentry. split; reflexivity.
  - destruct Hentry as (d & Hd & Hid & Heq).
    change (c_id (without_password c)) with (c_id c) in Hid.
    assert (d = c) by (apply (NoDup_map_eq c_id _ _ _ Hnd Hd Hc Hid)).
    subst d. split.
    + apply (f_equal c_id) in Heq. exact Heq.
    + apply (f_equal c_password) in Heq. exact Heq.
Qed.

(** The sample candidate has no embedding: the entry carries the hash. *)
Lemma recommended_candidates_passwords_witness :
  exists res w',
    find_matching_candidates_for_job Sample.env (Sample.print_oid 10%N) 20
      Sample.world = (Ok res, w')
    /\ Forall (fun x => exists c,
                 In c (candidates Sample.world)
                 /\ c_id (sc_doc x) = c_id c
                 /\ c_password (sc_doc x)
                    = if truthy_emb (c_embedding c) then None
                      else c_password c) res.
Proof.
  pose proof (find_matching_candidates_total Sample.env 2
                (fun k => eq_refl) sample_provider_total
                (Sample.print_oid 10%N) 20 Sample.world 10%N Sample.backend_job
                sample_dims_ok sample_ids_ok eq_refl eq_refl) as Htot.
  unfold post in Htot.
  destruct (find_matching_candidates_for_job Sample.env (Sample.print_oid 10%N)
              20 Sample.world) as [r w'] eqn:Hrun.
  cbn [fst] in Htot. destruct Htot as (res & ->).
  exists res, w'. split; [reflexivity |].
  apply (recommended_candidates_passwords Sample.env Sample.world w'
           (Sample.print_oid 10%N) 20 res Hrun).
  repeat constructor. intros [].
Defined.

(* ------------------------------------------------------------------ *)
(** ** What [bulk_embed_jobs] leaves behind *)
(* ------------------------------------------------------------------ *)

Lemma Forall2_update_first {A B} (R0 : A -> B -> Prop) (p : B -> bool)
    (f : B -> B) (l : list A) (l0 : list B) :
  Forall2 R0 l l0 ->
  (forall a b, In a l -> R0 a b -> p b = true -> R0 a (f b)) ->
  Forall2 R0 l (update_first p f l0).
Proof.
  induction 1 as [| a b l l0 Hab Hl IH]; intros Hf; cbn; [constructor |].
  destruct (p b) eqn:Hp; constructor; auto.
  - apply Hf; [left; reflexivity | exact Hab | exact Hp].
  - apply IH. intros a' b' Hin. apply Hf. right. exact Hin.
Qed.

Lemma Forall2_impl_In {A B} (R0 S0 : A -> B -> Prop) (l : list A)
    (l' : list B) :
  Forall2 R0 l l' ->
  (forall a b, In a l -> In b l' -> R0 a b -> S0 a b) ->
  Forall2 S0 l l'.
Proof.
  induction 1 as [| a b l l' Hab Hl IH]; intros Himp; constructor.
  - apply Himp; [left | left |]; auto.
  - apply IH. intros a' b' Ha Hb. apply Himp; right; assumption.
Qed.

Lemma Forall2_In_l {A B} (P : A -> B -> Prop) (l : list A) (l' : list B)
    (x : A) :
  Forall2 P l l' -> In x l -> exists y, In y l' /\ P x y.
Proof.
  induction 1 as [| x0 y0 l l' Hxy _ IH]; cbn; [contradiction |].
  intros [<- | Hin]; [eauto |].
  destruct (IH Hin) as (y & Hy & HP). eauto.
Qed.

Section BulkEmbed.

Variable env : Env.
Variable source : option string.

(** The body of the loop: a job that fails is reported and skipped. *)
Definition embed_or_warn (job : Job) : M unit :=
  try_except (embed_and_store_job env job ;;; ret tt)%py (ret tt).

Lemma embed_or_warn_ok (job : Job) (w : World) :
  fst (embed_or_warn job w) = Ok tt.
Proof.
  unfold embed_or_warn, try_except, bind, ret.
  destruct (embed_and_store_job env job w) as [[a | e] w1]; reflexivity.
Qed.

Lemma embed_all_ok (l : list Job) (w : World) :
  exists ys, fst (mapM embed_or_warn l w) = Ok ys.
Proof.
  revert w. induction l as [| x l IH]; intros w; cbn [mapM].
  - exists []. reflexivity.
  - unfold bind at 1. pose proof (embed_or_warn_ok x w) as H.
    destruct (embed_or_warn x w) as [r w1]. cbn [fst] in H. subst r.
    unfold bind at 1. destruct (IH w1) as (ys & Hys).
    destruct (mapM embed_or_warn l w1) as [r w2]. cbn [fst] in Hys. subst r.
    exists (tt :: ys). reflexivity.
Qed.

(** A job is as it was, or it was selected, has a text, and holds an
    answer of the model for that text. *)
Definition embedded_or_same (j j' : Job) : Prop :=
  j' = j
  \/ (missing_embedding_query source j = true
      /\ _extract_job_text j <> EmptyString
      /\ exists v k, j' = set_j_embedding v j
                     /\ model_encode env k (_extract_job_text j) = Some v).

Lemma embedded_or_same_id j j' : embedded_or_same j j' -> j_id j' = j_id j.
Proof. intros [-> | (_ & _ & v & k & -> & _)]; reflexivity. Qed.

Lemma embedded_or_same_ids l l' :
  Forall2 embedded_or_same l l' -> map j_id l' = map j_id l.
Proof.
  induction 1 as [| j j' l l' H _ IH]; cbn; [reflexivity |].
  rewrite IH, (embedded_or_same_id _ _ H). reflexivity.
Qed.

Variable w : World.
Hypothesis Hids : NoDup (map j_id (jobs w)).

Definition bulk_inv (w0 : World) : Prop :=
  candidates w0 = candidates w
  /\ Forall2 embedded_or_same (jobs w) (jobs w0).

Lemma embed_or_warn_inv (x : Job) (w0 : World) :
  In x (jobs w) -> missing_embedding_query source x = true ->
  bulk_inv w0 -> bulk_inv (snd (embed_or_warn x w0)).
Proof.
  intros Hx Hq [Hc Hj].
  unfold embed_or_warn, embed_and_store_job, try_except.
  destruct (PyStr.truthy (_extract_job_text x)) eqn:Ht; cbn [negb];
    [| split; assumption].
  assert (Htext : _extract_job_text x <> EmptyString)
    by (apply truthy_true_iff, Ht).
  unfold encode_text. rewrite Ht. cbn [negb].
  unfold bind, model_call, ret, raise.
  destruct (model_encode env (List.length (encoded w0)) _) as [v |] eqn:Hv;
    [| split; assumption].
  destruct (j_id x) as [i |] eqn:Hi; [| split; assumption].
  unfold update_job_embedding, store_call. simpl_world.
  destruct (store_up env _); simpl_world; [| split; assumption].
  split; [exact Hc |].
  apply Forall2_update_first; [exact Hj |].
  intros j j0 Hin Hjj0 Hp.
  apply id_is_true in Hp. rewrite (embedded_or_same_id _ _ Hjj0) in Hp.
  assert (j = x).
  { apply (NoDup_map_eq j_id _ _ _ Hids Hin Hx). congruence. }
  subst j. right. split; [exact Hq |]. split; [exact Htext |].
  exists v, (List.length (encoded w0)). split; [| exact Hv].
  destruct Hjj0 as [-> | (_ & _ & v0 & k0 & -> & _)]; reflexivity.
Qed.

Lemma embed_all_inv (l : list Job) (w0 : World) :
  Forall (fun x => In x (jobs w) /\ missing_embedding_query source x = true) l ->
  bulk_inv w0 -> bulk_inv (snd (mapM embed_or_warn l w0)).
Proof.
  revert w0. induction l as [| x l IH]; intros w0 Hl Hinv; cbn [mapM];
    [exact Hinv |].
  inversion Hl as [| ? ? [Hx Hq] Hl']; subst.
  unfold bind at 1.
  pose proof (embed_or_warn_inv x w0 Hx Hq Hinv) as H1.
  pose proof (embed_or_warn_ok x w0) as Hok.
  destruct (embed_or_warn x w0) as [r w1]. cbn [fst snd] in *. subst r.
  unfold bind at 1. specialize (IH w1 Hl' H1).
  destruct (mapM embed_or_warn l w1) as [[ys | e] w2]; exact IH.
Qed.

(** Embeddings are only ever set. *)
Definition only_sets (w0 w1 : World) : Prop :=
  Forall2 (fun j j' => j' = j \/ exists v, j' = set_j_embedding v j)
    (jobs w0) (jobs w1).

Lemma set_or_same_refl (l : list Job) :
  Forall2 (fun j j' => j' = j \/ exists v, j' = set_j_embedding v j) l l.
Proof. induction l; constructor; auto. Qed.

Lemma only_sets_refl w0 : only_sets w0 w0.
Proof. apply set_or_same_refl. Qed.

Lemma only_sets_trans w1 w2 w3 :
  only_sets w1 w2 -> only_sets w2 w3 -> only_sets w1 w3.
Proof.
  unfold only_sets. generalize (jobs w1) (jobs w2) (jobs w3).
  intros l1 l2 l3 H12. revert l3.
  induction H12 as [| a b l1 l2 Hab _ IH]; intros l3 H23;
    inversion H23 as [| ? c ? l3' Hbc Hl]; subst; constructor; auto.
  destruct Hab as [-> | (v & ->)], Hbc as [-> | (v' & ->)];
    [left; reflexivity | right; exists v'; reflexivity
    | right; exists v; reflexivity | right; exists v'; reflexivity].
Qed.

Lemma only_sets_update p v w0 :
  only_sets w0 (with_jobs (update_first p (set_j_embedding v) (jobs w0)) w0).
Proof.
  unfold only_sets. simpl_world.
  induction (jobs w0) as [| j l IH]; cbn; [constructor |].
  destruct (p j); constructor; eauto. apply set_or_same_refl.
Qed.

Lemma only_sets_embed_or_warn x w0 :
  only_sets w0 (snd (embed_or_warn x w0)).
Proof.
  unfold embed_or_warn.
  apply (keeps_try only_sets only_sets_trans).
  - apply (keeps_bind only_sets only_sets_trans).
    + apply (keeps_embed_and_store_job only_sets (fun _ => True)
               only_sets_refl only_sets_trans).
      * intros w1. apply set_or_same_refl.
      * intros text w1 _. apply set_or_same_refl.
      * apply only_sets_update.
      * intros _. exact I.
    + intros a. apply (keeps_ret only_sets only_sets_refl).
  - apply (keeps_ret only_sets only_sets_refl).
Qed.

Lemma only_sets_embed_all l w0 :
  only_sets w0 (snd (mapM embed_or_warn l w0)).
Proof.
  apply (keeps_mapM only_sets only_sets_refl only_sets_trans).
  intros x w1. apply only_sets_embed_or_warn.
Qed.

(** The store holds an embedding for the identity of [x]. *)
Definition has_embedding (x : Job) (w0 : World) : Prop :=
  exists j', In j' (jobs w0) /\ j_id j' = j_id x /\ j_embedding j' <> None.

Lemma has_embedding_stable x w0 w1 :
  only_sets w0 w1 -> has_embedding x w0 -> has_embedding x w1.
Proof.
  intros Hs (j' & Hin & Hid & He).
  destruct (Forall2_In_l _ _ _ _ Hs Hin) as (j'' & Hin' & H).
  exists j''. split; [exact Hin' |].
  destruct H as [-> | (v & ->)]; cbn; split; auto. discriminate.
Qed.

Hypothesis Hstore : store_total env.
Hypothesis Hmodel : forall k text, model_encode env k text <> None.
Hypothesis Hsome : Forall (fun j => j_id j <> None) (jobs w).

Lemma embed_or_warn_embeds (x : Job) (w0 : World) :
  In x (jobs w) -> bulk_inv w0 ->
  _extract_job_text x <> EmptyString ->
  has_embedding x (snd (embed_or_warn x w0)).
Proof.
  intros Hx [_ Hj] Htext.
  unfold embed_or_warn, embed_and_store_job, try_except.
  apply truthy_true_iff in Htext. rewrite Htext. cbn [negb].
  unfold encode_text. rewrite Htext. cbn [negb].
  unfold bind, model_call, ret, raise.
  destruct (model_encode env (List.length (encoded w0)) _) as [v |] eqn:Hv;
    [| destruct (Hmodel _ _ Hv)].
  rewrite Forall_forall in Hsome. specialize (Hsome x Hx).
  destruct (j_id x) as [i |] eqn:Hi; [| congruence].
  unfold update_job_embedding, store_call. simpl_world.
  rewrite Hstore. simpl_world.
  destruct (Forall2_In_l _ _ _ _ Hj Hx) as (x0 & Hx0 & Hxx0).
  assert (Hf : exists d, find (fun j => id_is i (j_id j)) (jobs w0) = Some d).
  { destruct (find _ (jobs w0)) as [d |] eqn:Hf; [eauto |].
    apply (find_none _ _ Hf) in Hx0.
    rewrite (embedded_or_same_id _ _ Hxx0), Hi in Hx0. cbn in Hx0.
    rewrite N.eqb_refl in Hx0. discriminate. }
  destruct Hf as (d & Hf).
  pose proof (find_update_first (fun j => id_is i (j_id j))
                (set_j_embedding v) (jobs w0) d (fun _ => eq_refl) Hf) as Hu.
  apply find_some in Hu. destruct Hu as [Hin Hid].
  exists (set_j_embedding v d). split; [exact Hin |].
  split; [apply id_is_true in Hid; congruence | discriminate].
Qed.

Lemma embed_all_embeds (l : list Job) (w0 : World) :
  Forall (fun x => In x (jobs w) /\ missing_embedding_query source x = true) l ->
  bulk_inv w0 ->
  forall x, In x l -> _extract_job_text x <> EmptyString ->
            has_embedding x (snd (mapM embed_or_warn l w0)).
Proof.
  revert w0. induction l as [| y l IH]; intros w0 Hl Hinv x Hin Htext;
    [destruct Hin |].
  inversion Hl as [| ? ? [Hy Hq] Hl']; subst.
  cbn [mapM]. unfold bind at 1.
  pose proof (embed_or_warn_inv y w0 Hy Hq Hinv) as H1.
  pose proof (embed_or_warn_ok y w0) as Hok.
  pose proof (embed_or_warn_embeds y w0 Hy Hinv) as He.
  destruct (embed_or_warn y w0) as [r w1]. cbn [fst snd] in *. subst r.
  unfold bind at 1.
  pose proof (only_sets_embed_all l w1) as Hs.
  specialize (IH w1 Hl' H1 x).
  destruct (mapM embed_or_warn l w1) as [[ys | e] w2]; cbn [snd ret] in *;
    (destruct Hin as [<- | Hin];
     [apply (has_embedding_stable y w1 w2 Hs), He, Htext | apply IH; auto]).
Qed.

End BulkEmbed.

(** What a run with a store and a model that answer leaves of a job. *)
Definition bulk_embedded (env : Env) (source : option string) (j j' : Job)
    : Prop :=
  if missing_embedding_query source j && PyStr.truthy (_extract_job_text j)
  then exists v k, j' = set_j_embedding v j
                   /\ model_encode env k (_extract_job_text j) = Some v
  else j' = j.

Lemma bulk_embed_jobs_run (env : Env) (source : option string) (w : World) :
  store_up env (store_ops w) = true ->
  bulk_embed_jobs env source w
  = (Ok (List.length (filter (missing_embedding_query source) (jobs w))),
     snd (mapM (embed_or_warn env)
            (filter (missing_embedding_query source) (jobs w)) (tick w))).
Proof.
  intros Hup. unfold bulk_embed_jobs, bind at 1, store_call, read.
  rewrite Hup. simpl_world.
  change (fun job => try_except (embed_and_store_job env job;;; ret tt)%py
                       (ret tt)) with (embed_or_warn env).
  unfold bind at 1.
  destruct (embed_all_ok env
              (filter (missing_embedding_query source) (jobs w)) (tick w))
    as (ys & Hys).
  destruct (mapM _ _ (tick w)) as [r w1]. cbn [fst] in Hys. subst r.
  reflexivity.
Qed.

Lemma selected_in (source : option string) (w : World) :
  Forall (fun x => In x (jobs w) /\ missing_embedding_query source x = true)
    (filter (missing_embedding_query source) (jobs w)).
Proof. apply Forall_forall. intros x Hx. apply filter_In, Hx. Qed.

Lemma bulk_inv_start (env : Env) (source : option string) (w : World) :
  bulk_inv env source w (tick w).
Proof.
  split; [reflexivity |]. simpl_world.
  induction (jobs w); constructor; [left; reflexivity | assumption].
Qed.

Lemma bulk_embed_jobs_embeds (env : Env) (source : option string)
    (w : World) :
  NoDup (map j_id (jobs w)) ->
  Forall (fun j => j_id j <> None) (jobs w) ->
  store_total env ->
  (forall k text, model_encode env k text <> None) ->
  Forall2 (bulk_embedded env source) (jobs w)
    (jobs (snd (bulk_embed_jobs env source w))).
Proof.
  intros Hids Hsome Hstore Hmodel.
  rewrite (bulk_embed_jobs_run env source w (Hstore _)). cbn [snd].
  pose proof (bulk_inv_start env source w) as Hinv0.
  pose proof (embed_all_inv env source w Hids _ _ (selected_in source w)
                Hinv0) as [_ Hsafe].
  pose proof (embedded_or_same_ids env source _ _ Hsafe) as Hsame_ids.
  apply (Forall2_impl_In _ _ _ _ Hsafe).
  intros j j' Hj Hj' Hjj'. unfold bulk_embedded.
  destruct (missing_embedding_query source j) eqn:Hq; cbn [andb].
  2:{ destruct Hjj' as [-> | (Hq' & _)]; [reflexivity | congruence]. }
  destruct (PyStr.truthy (_extract_job_text j)) eqn:Ht.
  2:{ destruct Hjj' as [-> | (_ & Htext & _)]; [reflexivity |].
      apply truthy_true_iff in Htext. congruence. }
  destruct (embed_all_embeds env source w Hids Hstore Hmodel Hsome _ _
              (selected_in source w) Hinv0 j)
    as (j'' & Hin'' & Hid'' & He'').
  { apply filter_In. split; assumption. }
  { apply truthy_true_iff, Ht. }
  assert (j'' = j').
  { apply (NoDup_map_eq j_id _ _ _
             ltac:(rewrite Hsame_ids; exact Hids) Hin'' Hj').
    rewrite Hid''. symmetry. apply (embedded_or_same_id env source _ _ Hjj'). }
  subst j''.
  destruct Hjj' as [-> | (_ & _ & v & k & -> & Hv)]; [| eauto].
  unfold missing_embedding_query in Hq.
  destruct (j_embedding j); [discriminate | congruence].
Qed.

(** X13. [bulk_embed_jobs] raises only when the store fails on its query;
    otherwise it returns the number of jobs without an embedding field
    (of the source, when one is given), whatever fails for a single job.
    With distinct identities it leaves the candidates alone and changes
    a job only by giving a selected job that has a text an answer of
    the model for that text; with a store and a model that answer, every
    selected job that has a text gets one.  A job whose stored embedding
    is the empty list is not selected. *)
Theorem bulk_embed_jobs_spec (env : Env) (source : option string)
    (w : World) :
  let selected := filter (missing_embedding_query source) (jobs w) in
  let r := fst (bulk_embed_jobs env source w) in
  let w' := snd (bulk_embed_jobs env source w) in
  (store_up env (store_ops w) = false -> r = Raise StoreError /\ w' = tick w)
  /\ (store_up env (store_ops w) = true -> r = Ok (List.length selected))
  /\ (NoDup (map j_id (jobs w)) ->
      candidates w' = candidates w
      /\ Forall2 (embedded_or_same env source) (jobs w) (jobs w'))
  /\ (NoDup (map j_id (jobs w)) ->
      Forall (fun j => j_id j <> None) (jobs w) ->
      store_total env ->
      (forall k text, model_encode env k text <> None) ->
      Forall2 (bulk_embedded env source) (jobs w) (jobs w'))
  /\ (forall j, j_embedding j = Some [] -> ~ In j selected).
Proof.
  cbv zeta.
  assert (Hinv : NoDup (map j_id (jobs w)) ->
            bulk_inv env source w (snd (bulk_embed_jobs env source w))).
  { intros Hids. destruct (store_up env (store_ops w)) eqn:Hup.
    - rewrite (bulk_embed_jobs_run env source w Hup). cbn [snd].
      apply (embed_all_inv env source w Hids _ _ (selected_in source w)).
      apply bulk_inv_start.
    - unfold bulk_embed_jobs, bind, store_call. rewrite Hup. cbn [snd].
      apply bulk_inv_start. }
  split; [| split; [| split; [| split]]].
  - intros Hup. unfold bulk_embed_jobs, bind, store_call. rewrite Hup.
    split; reflexivity.
  - intros Hup. rewrite (bulk_embed_jobs_run env source w Hup). reflexivity.
  - exact Hinv.
  - apply bulk_embed_jobs_embeds.
  - intros j Hj Hin. apply filter_In in Hin. destruct Hin as [_ Hq].
    unfold missing_embedding_query in Hq. rewrite Hj in Hq. discriminate.
Qed.

(** The sample job has no embedding and a text: it is given the answer
    of the model. *)
Lemma bulk_embed_jobs_witness :
  Forall2 (bulk_embedded Sample.env None) (jobs Sample.world)
    (jobs (snd (bulk_embed_jobs Sample.env None Sample.world))).
Proof.
  apply (bulk_embed_jobs_spec Sample.env None Sample.world).
  - repeat constructor. intros [].
  - repeat constructor. discriminate.
  - intros k. reflexivity.
  - intros k text. discriminate.
Defined.

Lemma embed_all_blank (env : Env) (l : list Job) (w : World) :
  Forall (fun j => _extract_job_text j = EmptyString) l ->
  mapM (embed_or_warn env) l w = (Ok (map (fun _ => tt) l), w).
Proof.
  induction 1 as [| j l Hj _ IH]; [reflexivity |].
  cbn [mapM map]. unfold bind at 1.
  unfold embed_or_warn at 1, embed_and_store_job, try_except.
  rewrite Hj. cbn [PyStr.truthy negb bind ret]. unfold bind at 1. cbn.
  unfold bind. rewrite IH. reflexivity.
Qed.

Lemma filter_length_Forall2 {A} (S0 : A -> A -> Prop) (p p' : A -> bool)
    (l l' : list A) :
  Forall2 S0 l l' -> (forall a b, S0 a b -> p' b = p a) ->
  List.length (filter p' l') = List.length (filter p l).
Proof.
  intros H Hp. induction H as [| a b l l' Hab _ IH]; [reflexivity |].
  cbn. rewrite (Hp a b Hab). destruct (p a); cbn; congruence.
Qed.

(** X14. After a run of [bulk_embed_jobs] with a store and a model that
    answer, a second run asks the model nothing and writes nothing: it
    issues its query and returns the number of selected jobs that have
    no text, which it selects again every time. *)
Theorem bulk_embed_jobs_again (env : Env) (source : option string)
    (w : World) :
  NoDup (map j_id (jobs w)) ->
  Forall (fun j => j_id j <> None) (jobs w) ->
  store_total env ->
  (forall k text, model_encode env k text <> None) ->
  let w' := snd (bulk_embed_jobs env source w) in
  bulk_embed_jobs env source w'
  = (Ok (List.length
           (filter (fun j => missing_embedding_query source j
                             && negb (PyStr.truthy (_extract_job_text j)))
              (jobs w))),
     tick w').
Proof.
  intros Hids Hsome Hstore Hmodel w'.
  pose proof (bulk_embed_jobs_embeds env source w Hids Hsome Hstore Hmodel)
    as Hall.
  fold w' in Hall.
  rewrite (bulk_embed_jobs_run env source w' (Hstore _)).
  assert (Hblank : Forall (fun j => _extract_job_text j = EmptyString)
                     (filter (missing_embedding_query source) (jobs w'))).
  { apply Forall_forall. intros j' Hin. apply filter_In in Hin.
    destruct Hin as [Hin Hq'].
    destruct (Forall2_In_r _ _ _ _ Hall Hin) as (j & _ & Hjj').
    unfold bulk_embedded in Hjj'.
    destruct (missing_embedding_query source j) eqn:Hq; cbn [andb] in Hjj'.
    - destruct (PyStr.truthy (_extract_job_text j)) eqn:Ht.
      + destruct Hjj' as (v & k & -> & _). discriminate.
      + subst j'. apply truthy_false_iff, Ht.
    - subst j'. congruence. }
  rewrite (embed_all_blank env _ (tick w') Hblank). cbn [snd].
  f_equal. f_equal.
  apply (filter_length_Forall2 (bulk_embedded env source)); [exact Hall |].
  intros j j' Hjj'. unfold bulk_embedded in Hjj'.
  destruct (missing_embedding_query source j) eqn:Hq; cbn [andb] in *.
  - destruct (PyStr.truthy (_extract_job_text j)) eqn:Ht; cbn [negb].
    + destruct Hjj' as (v & k & -> & _). reflexivity.
    + subst j'. exact Hq.
  - subst j'. exact Hq.
Qed.

(** The sample job has a text: the second run finds nothing to do. *)
Lemma bulk_embed_jobs_again_witness :
  bulk_embed_jobs Sample.env None
    (snd (bulk_embed_jobs Sample.env None Sample.world))
  = (Ok 0%nat, tick (snd (bulk_embed_jobs Sample.env None Sample.world))).
Proof.
  apply (bulk_embed_jobs_again Sample.env None Sample.world).
  - repeat constructor. intros [].
  - repeat constructor. discriminate.
  - intros k. reflexivity.
  - intros k text. discriminate.
Defined.

(* ------------------------------------------------------------------ *)
(** ** The routes of [backend/routes/matching.py] *)
(* ------------------------------------------------------------------ *)

(** A route returns a body or raises an [HTTPException], which the
    framework turns into the response of that status; any other
    exception leaves the route as it is raised.  The user of the request
    is given by the address the authentication dependency resolved, and
    [top_n] is the value the framework has validated. *)
Module Routes.

Inductive Response (A : Type) :=
| Body (body : A)
| HTTPException (status_code : nat) (detail : string).

Arguments Body {A} body.
Arguments HTTPException {A} status_code detail.

(** The dictionary [calculate_match_score] returns. *)
Record ScoreBody := mkScoreBody
  { r_candidate_email : string;
    r_job_id : string;
    r_job_title : string;
    r_match_score : R;
    r_match_percentage : R }.

Definition get_recommended_jobs (env : Env) (top_n : Z)
    (source : option string) (current_user : string)
    : M (list (Scored Job)) :=
  find_matching_jobs_for_candidate env current_user top_n source.

Definition get_recommended_candidates (env : Env) (job_id : string)
    (top_n : Z) : M (Response (list (Scored Candidate))) :=
  (candidates <- find_matching_candidates_for_job env job_id top_n ;;
   if negb (truthy_list candidates)
   then ret (HTTPException 404 "Job not found or no candidates available")
   else ret (Body candidates))%py.

Definition analyze_skill_gap (env : Env) (job_id : string)
    (current_user : string) : M (Response GapReport) :=
  (analysis <- analyze_skill_gaps env current_user job_id ;;
   match analysis with
   | GapError message => ret (HTTPException 404 message)
   | Gaps report => ret (Body report)
   end)%py.

Definition calculate_match_score (env : Env) (candidate_email job_id : string)
    : M (Response ScoreBody) :=
  (candidate <- find_candidate_by_email env candidate_email ;;
   looked_up <-
     try_except
       (match ObjectId env job_id with
        | Some i => found <- find_job_by_id env i ;; ret (Some found)
        | None => raise InvalidId
        end)
       (ret None) ;;
   match looked_up with
   | None => ret (HTTPException 400 "Invalid job ID")
   | Some job =>
       match candidate, job with
       | Some c, Some j =>
           score <- calculate_match_score env c j ;;
           ret (Body (mkScoreBody candidate_email job_id (j_title j) score
                        (PyNum.py_round (score * 100) 1)))
       | _, _ => ret (HTTPException 404 "Candidate or job not found")
       end
   end)%py.

End Routes.





(** X16. A malformed job identity gets a different answer from each of
    the three routes that take one: 400 "Invalid job ID" from
    [calculate_match_score], 404 "Invalid job ID" from
    [analyze_skill_gap], and from [get_recommended_candidates] the 404
    "Job not found or no candidates available" it also gives for an
    unknown job and for an empty collection. *)
Theorem malformed_job_id_by_route (env : Env) (w : World)
    (email job_id : string) (top_n : Z) :
  ObjectId env job_id = None ->
  store_up env (store_ops w) = true ->
  Routes.calculate_match_score env email job_id w
  = (Ok (Routes.HTTPException 400 "Invalid job ID"), tick w)
  /\ Routes.analyze_skill_gap env job_id email w
     = (Ok (Routes.HTTPException 404 "Invalid job ID"), tick w)
  /\ Routes.get_recommended_candidates env job_id top_n w
     = (Ok (Routes.HTTPException 404
              "Job not found or no candidates available"), w).
Proof.
  intros Hid Hup.
  unfold Routes.calculate_match_score, Routes.analyze_skill_gap,
    Routes.get_recommended_candidates, analyze_skill_gaps,
    find_matching_candidates_for_job, find_candidate_by_email, store_call,
    read, try_except, bind, raise, ret.
  rewrite Hid, Hup. simpl_world. repeat split.
Qed.

Lemma malformed_job_id_by_route_witness :
  Routes.get_recommended_candidates Sample.env "not-an-id" 20 Sample.world
  = (Ok (Routes.HTTPException 404
           "Job not found or no candidates available"), Sample.world).
Proof.
  apply (malformed_job_id_by_route Sample.env Sample.world
           "alice@example.org" "not-an-id" 20); reflexivity.
Defined.

(** X17. [get_recommended_candidates] never returns an empty list: that
    is the 404.  With a store and a model that answer and [top_n] at
    least 1, it answers 404 exactly when the job is not found or there
    is no candidate, and otherwise returns [min top_n n] entries for
    [n] candidates. *)
Theorem get_recommended_candidates_spec (env : Env) (w : World)
    (job_id : string) (top_n : Z) :
  let r := fst (Routes.get_recommended_candidates env job_id top_n w) in
  let found :=
    match ObjectId env job_id with
    | Some i => find (fun j => id_is i (j_id j)) (jobs w)
    | None => None
    end in
  (forall body, r = Ok (Routes.Body body) ->
     body <> [] /\ found <> None /\ candidates w <> []
     /\ exists w0, find_matching_candidates_for_job env job_id top_n w
                   = (Ok body, w0))
  /\ (forall D : nat,
        store_total env -> provider_total D env -> dims_ok D w -> ids_ok w ->
        (1 <= top_n)%Z ->
        if match found with Some _ => truthy_list (candidates w) | None => false end
        then exists body,
               r = Ok (Routes.Body body)
               /\ List.length body
                  = Nat.min (Z.to_nat top_n) (List.length (candidates w))
        else r = Ok (Routes.HTTPException 404
                       "Job not found or no candidates available")).
Proof.
  cbv zeta. unfold Routes.get_recommended_candidates, bind.
  destruct (find_matching_candidates_for_job env job_id top_n w)
    as [[res | e] w1] eqn:Hrun.
  2:{ split; [intros body; discriminate |].
      intros D Hstore Hmodel Hd Hids Hn. exfalso.
      destruct (ObjectId env job_id) as [i |] eqn:Hid.
      - destruct (find (fun j => id_is i (j_id j)) (jobs w)) as [j0 |] eqn:Hf.
        + pose proof (find_matching_candidates_total env D Hstore Hmodel
                        job_id top_n w i j0 Hd Hids Hid Hf) as Htot.
          unfold post in Htot. rewrite Hrun in Htot.
          destruct Htot as (res & Hres). discriminate.
        + revert Hrun.
          unfold find_matching_candidates_for_job, find_job_by_id, store_call,
            read, try_except, bind, ret.
          rewrite Hid, Hstore. simpl_world. rewrite Hf. discriminate.
      - revert Hrun.
        unfold find_matching_candidates_for_job, try_except, bind, raise, ret.
        rewrite Hid. discriminate. }
  pose proof (post_run (find_matching_candidates_shape env job_id top_n w)
                Hrun res eq_refl) as Hshape.
  split.
  - intros body. destruct res as [| x res]; cbn; [discriminate |].
    intros [= <-]. split; [discriminate |].
    destruct (ObjectId env job_id) as [i |]; [| discriminate].
    destruct (find _ (jobs w)) as [j0 |]; [| discriminate].
    split; [discriminate |]. split; [| eauto].
    destruct Hshape as [[_ ?] | (job & scored & _ & Hall & Hres)];
      [discriminate |].
    intros Hnil. rewrite Hnil in Hall. inversion Hall; subst.
    unfold slice_to in Hres. cbn in Hres.
    destruct (top_n <? 0)%Z; destruct (Z.to_nat top_n); discriminate.
  - intros D Hstore Hmodel Hd Hids Hn.
    destruct (ObjectId env job_id) as [i |] eqn:Hid;
      [| subst res; reflexivity].
    destruct (find _ (jobs w)) as [j0 |] eqn:Hf; [| subst res; reflexivity].
    destruct Hshape as [[Hup _] | (job & scored & _ & Hall & Hres)];
      [rewrite Hstore in Hup; discriminate |].
    pose proof (Permutation_length
                  (sort_desc_perm (@match_score Candidate) scored)) as Hp.
    pose proof (Forall2_length Hall) as Hl. rewrite length_map in Hl.
    assert (Hlen : List.length res
                   = Nat.min (Z.to_nat top_n) (List.length (candidates w))).
    { rewrite Hres, slice_to_length_min by lia. lia. }
    destruct (candidates w) as [| c l] eqn:Hc; cbn [truthy_list].
    + cbn in Hlen. rewrite Nat.min_0_r in Hlen.
      destruct res; [reflexivity | discriminate].
    + destruct res as [| x res];
        [cbn [List.length] in Hlen; lia |].
      cbn. exists (x :: res). split; [reflexivity | exact Hlen].
Qed.

Lemma get_recommended_candidates_witness :
  exists body,
    fst (Routes.get_recommended_candidates Sample.env (Sample.print_oid 10%N)
           20 Sample.world) = Ok (Routes.Body body)
    /\ List.length body
       = Nat.min (Z.to_nat 20) (List.length (candidates Sample.world)).
Proof.
  destruct (get_recommended_candidates_spec Sample.env Sample.world
              (Sample.print_oid 10%N) 20) as [_ H].
  apply (H 2%nat).
  - intros k. reflexivity.
  - exact sample_provider_total.
  - exact sample_dims_ok.
  - exact sample_ids_ok.
  - lia.
Defined.

(* ------------------------------------------------------------------ *)
(** ** Skill extraction of [backend/ai/job_fetcher.py] *)
(* ------------------------------------------------------------------ *)

Section JobFetcher.

Local Open Scope string_scope.

Definition COMMON_SKILLS : list string :=
  ["python"; "java"; "javascript"; "typescript"; "react"; "angular"; "vue";
   "node"; "django"; "flask"; "fastapi"; "sql"; "mysql"; "postgresql";
   "mongodb"; "aws"; "azure"; "docker"; "kubernetes"; "git"; "linux";
   "html"; "css"; "pandas"; "numpy"; "machine learning"; "ai"; "devops"].

(** [s in t] on strings. *)
Fixpoint contains (s t : string) : bool :=
  String.prefix s t
  || match t with
     | EmptyString => false
     | String _ r => contains s r
     end.


Lemma prefix_iff (s t : string) :
  String.prefix s t = true <-> exists b, t = s ++ b.
Proof.
  revert t. induction s as [| c s IH]; intros t.
  - destruct t; cbn; split; eauto.
  - destruct t as [| d t]; cbn.
    + split; [discriminate | intros (b & Hb); discriminate].
    + destruct (ascii_dec c d) as [-> | Hne].
      * rewrite IH. split.
        -- intros (b & ->). eauto.
        -- intros (b & [= ->]). eauto.
      * split; [discriminate |]. intros (b & [= -> _]). congruence.
Qed.

Lemma contains_iff (s t : string) :
  contains s t = true <-> exists a b, t = a ++ s ++ b.
Proof.
  induction t as [| d t IH]; cbn [contains]; rewrite orb_true_iff, prefix_iff.
  - split.
    + intros [(b & Hb) | H]; [exists EmptyString, b; exact Hb | discriminate].
    + intros (a & b & H). left. destruct a; [eauto | discriminate].
  - rewrite IH. split.
    + intros [(b & Hb) | (a & b & ->)];
        [exists EmptyString, b; exact Hb | exists (String d a), b; reflexivity].
    + intros (a & b & H). destruct a as [| d' a]; [left; eauto |].
      injection H as -> ->. right. eauto.
Qed.

Lemma append_assoc (a b c : string) : (a ++ b) ++ c = a ++ b ++ c.
Proof. induction a as [| x a IH]; cbn; [| rewrite IH]; reflexivity. Qed.

Lemma contains_trans (s t u : string) :
  contains s t = true -> contains t u = true -> contains s u = true.
Proof.
  rewrite !contains_iff. intros (a & b & ->) (a' & b' & ->).
  exists (a' ++ a), (b ++ b'). rewrite !append_assoc. reflexivity.
Qed.

Lemma lower_app (a b : string) :
  PyStr.lower (a ++ b) = PyStr.lower a ++ PyStr.lower b.
Proof. induction a as [| x a IH]; cbn; [| rewrite IH]; reflexivity. Qed.

Section ExtractSkills.

(** [list(set(found))]: the distinct elements, in an order that Python
    leaves open. *)
Variable list_of_set : list string -> list string.
Hypothesis list_of_set_perm :
  forall l, Permutation (list_of_set l) (nodup string_dec l).

Definition extract_skills (text : string) : list string :=
  if negb (PyStr.truthy text) then []
  else
    let text_lower := PyStr.lower text in
    let found := filter (fun s => contains s text_lower) COMMON_SKILLS in
    list_of_set found.

Lemma extract_skills_In (text s : string) :
  In s (extract_skills text)
  <-> In s COMMON_SKILLS /\ contains s (PyStr.lower text) = true.
Proof.
  unfold extract_skills. destruct text as [| c text]; cbn [PyStr.truthy negb].
  - split; [intros [] |]. intros [Hin Hc]. cbn in Hc.
    rewrite orb_false_r in Hc. destruct s; [| discriminate].
    cbn in Hin. repeat (destruct Hin as [Hin | Hin]; [discriminate |]).
    exact Hin.
  - cbv zeta. split.
    + intros H. apply (Permutation_in _ (list_of_set_perm _)) in H.
      apply nodup_In, filter_In in H. exact H.
    + intros H.
      apply (Permutation_in _ (Permutation_sym (list_of_set_perm _))).
      apply nodup_In, filter_In. exact H.
Qed.

Lemma extract_skills_NoDup (text : string) : NoDup (extract_skills text).
Proof.
  unfold extract_skills. destruct (negb _); [constructor |]. cbv zeta.
  apply (Permutation_NoDup (Permutation_sym (list_of_set_perm _))).
  apply NoDup_nodup.
Qed.

(** X18. [extract_skills] returns, without repetition, exactly the
    entries of [COMMON_SKILLS] that occur somewhere in the text put in
    lower case, as parts of words or not; nothing for an empty text.
    What it returns is in lower case, and at most 28 skills. *)
Theorem extract_skills_spec (text : string) :
  NoDup (extract_skills text)
  /\ (forall s, In s (extract_skills text)
                <-> In s COMMON_SKILLS
                    /\ exists a b, PyStr.lower text = a ++ s ++ b)
  /\ (forall s, In s (extract_skills text) -> PyStr.lower s = s)
  /\ (List.length (extract_skills text) <= 28)%nat
  /\ (text = EmptyString -> extract_skills text = []).
Proof.
  split; [apply extract_skills_NoDup |].
  split; [intros s; rewrite extract_skills_In, contains_iff; reflexivity |].
  split; [| split].
  - intros s Hs. apply extract_skills_In in Hs. destruct Hs as [Hin _].
    cbn in Hin.
    repeat (destruct Hin as [<- | Hin]; [reflexivity |]). destruct Hin.
  - change 28%nat with (List.length COMMON_SKILLS).
    apply NoDup_incl_length; [apply extract_skills_NoDup |].
    intros s Hs. apply extract_skills_In in Hs. apply Hs.
  - intros ->. reflexivity.
Qed.

(** X19. A text that contains another has all its skills.  A skill of
    the list that is part of another comes with it: what is tagged
    [javascript] is tagged [java], and what is tagged [mysql] or
    [postgresql] is tagged [sql]. *)
Theorem extract_skills_monotone :
  (forall text a b : string,
     incl (extract_skills text) (extract_skills (a ++ text ++ b)))
  /\ (forall text s s' : string,
        In s COMMON_SKILLS -> contains s s' = true ->
        In s' (extract_skills text) -> In s (extract_skills text))
  /\ (forall text : string,
        (In "javascript" (extract_skills text) -> In "java" (extract_skills text))
        /\ (In "mysql" (extract_skills text) -> In "sql" (extract_skills text))
        /\ (In "postgresql" (extract_skills text)
            -> In "sql" (extract_skills text))).
Proof.
  assert (Hpart : forall text s s' : string,
            In s COMMON_SKILLS -> contains s s' = true ->
            In s' (extract_skills text) -> In s (extract_skills text)).
  { intros text s s' Hs Hc Hs'. apply extract_skills_In in Hs'.
    apply extract_skills_In. split; [exact Hs |].
    apply (contains_trans _ _ _ Hc), Hs'. }
  split; [| split; [exact Hpart |]].
  - intros text a b s Hs. apply extract_skills_In in Hs.
    destruct Hs as [Hin Hc]. apply extract_skills_In. split; [exact Hin |].
    apply (contains_trans _ _ _ Hc). apply contains_iff.
    exists (PyStr.lower a), (PyStr.lower b). rewrite !lower_app. reflexivity.
  - intros text. split; [| split]; apply Hpart;
      first [reflexivity | cbn; tauto].
Qed.


End ExtractSkills.

(** A description that mentions JavaScript and MySQL. *)
Lemma extract_skills_witness :
  NoDup (extract_skills (nodup string_dec) "JavaScript and MySQL").
Proof.
  apply (extract_skills_spec (nodup string_dec)).
  intros l. apply Permutation_refl.
Defined.

Lemma extract_skills_monotone_witness :
  In "java" (extract_skills (nodup string_dec) "JavaScript and MySQL").
Proof.
  apply (extract_skills_monotone (nodup string_dec)).
  - intros l. apply Permutation_refl.
  - vm_compute. tauto.
Defined.


End JobFetcher.

(* ------------------------------------------------------------------ *)
(** ** Order and proportion *)
(* ------------------------------------------------------------------ *)

Lemma round_half_even_mono (x y : R) :
  x <= y -> (PyNum.round_half_even x <= PyNum.round_half_even y)%Z.
Proof.
  intros Hxy. destruct (Req_dec x y) as [-> | Hne]; [lia |].
  set (n := PyNum.round_half_even y).
  destruct (Rle_dec x (IZR n)) as [Hle | Hgt];
    [apply round_half_even_le; exact Hle |].
  pose proof (round_half_even_near y) as Hnear. fold n in Hnear.
  assert (Hy : y - IZR n <= 1 / 2).
  { unfold Rabs in Hnear. destruct (Rcase_abs (IZR n - y)); lra. }
  assert (Hint : Int_part x = n).
  { symmetry. apply Int_part_spec. lra. }
  unfold PyNum.round_half_even at 1. rewrite Hint.
  destruct (Rlt_dec (x - IZR n) (1 / 2)); [lia | lra].
Qed.

Lemma py_round_mono (x y : R) (n : nat) :
  x <= y -> PyNum.py_round x n <= PyNum.py_round y n.
Proof.
  intros Hxy. unfold PyNum.py_round.
  pose proof (pow10_pos n) as Hp.
  apply Rmult_le_compat_r; [left; apply Rinv_0_lt_compat, Hp |].
  apply IZR_le, round_half_even_mono. nra.
Qed.



Lemma filter_partition_length {A} (p : A -> bool) (l : list A) :
  (List.length (filter p l) + List.length (filter (fun x => negb (p x)) l)
   = List.length l)%nat.
Proof.
  induction l as [| x l IH]; [reflexivity |].
  cbn. destruct (p x); cbn; lia.
Qed.

(** X22. In a gap report the matching and the missing skills share the
    required skills between them: no skill is in both and their numbers
    add up to [total_required].  The percentage is between 0 and 100; it
    is 100 when nothing is missing and 0 when nothing matches.  There is
    one recommendation for each missing skill, five at most. *)
Theorem gap_report_partition (c : Candidate) (j : Job) :
  let report := gap_report c j in
  (List.length (matching_skills report) + List.length (missing_skills report)
   = total_required report)%nat
  /\ (forall s, In s (matching_skills report) ->
                ~ In s (missing_skills report))
  /\ 0 <= match_percentage report <= 100
  /\ (missing_skills report = [] -> total_required report <> 0%nat ->
      match_percentage report = 100)
  /\ (matching_skills report = [] -> match_percentage report = 0)
  /\ List.length (recommendations report)
     = Nat.min 5 (List.length (missing_skills report)).
Proof.
  intros report.
  set (required := py_set (map PyStr.lower (j_required_skills j))).
  set (possessed :=
         py_set (map (fun s => PyStr.lower (s_name s)) (c_skills c))).
  assert (Hmatch : List.length (matching_skills report)
                   = List.length (filter (fun s => mem s possessed) required)).
  { apply Permutation_length, sorted_perm. }
  assert (Hmiss : List.length (missing_skills report)
                  = List.length (filter (fun s => negb (mem s possessed))
                                   required)).
  { apply Permutation_length, sorted_perm. }
  assert (Htotal : total_required report = List.length required)
    by reflexivity.
  assert (Hsum : (List.length (matching_skills report)
                  + List.length (missing_skills report)
                  = total_required report)%nat).
  { rewrite Hmatch, Hmiss, Htotal. apply filter_partition_length. }
  assert (Hpct : match_percentage report
                 = if Nat.ltb 0 (total_required report)
                   then PyNum.py_round
                          (INR (List.length (matching_skills report))
                           / INR (total_required report) * 100) 1
                   else 0) by reflexivity.
  split; [exact Hsum |]. split.
  { intros s Hin Hout.
    destruct (gap_report_sets c j s) as [H1 H2].
    apply H1 in Hin. apply H2 in Hout. tauto. }
  split.
  { rewrite Hpct. destruct (Nat.ltb_spec 0 (total_required report));
      [| lra].
    assert (Ht : 0 < INR (total_required report)) by (apply lt_0_INR; lia).
    assert (Hm : 0 <= INR (List.length (matching_skills report))
                 <= INR (total_required report)).
    { split; [apply pos_INR | apply le_INR; lia]. }
    set (q := INR (List.length (matching_skills report))
              / INR (total_required report)) in *.
    assert (Hq : 0 <= q <= 1).
    { subst q. split.
      - apply Rmult_le_pos; [lra | left; apply Rinv_0_lt_compat, Ht].
      - apply Rmult_le_reg_r with (INR (total_required report)); [exact Ht |].
        unfold Rdiv. rewrite Rmult_assoc, Rinv_l by lra. lra. }
    assert (H10 : IZR 1000 / 10 ^ 1 = 100) by (cbn; lra).
    split.
    - rewrite <- (py_round_0 1). apply py_round_mono. lra.
    - apply Rle_trans with (PyNum.py_round (IZR 1000 / 10 ^ 1) 1).
      + apply py_round_mono. rewrite H10. lra.
      + rewrite py_round_IZR_div, H10. lra. }
  split.
  { intros Hnil Hne. rewrite Hpct. rewrite Hnil in Hsum. cbn [List.length] in Hsum.
    destruct (Nat.ltb_spec 0 (total_required report)); [| lia].
    rewrite Nat.add_0_r in Hsum. rewrite Hsum.
    assert (Ht : 0 < INR (total_required report)) by (apply lt_0_INR; lia).
    assert (H10 : IZR 1000 / 10 ^ 1 = 100) by (cbn; lra).
    replace (INR (total_required report) / INR (total_required report) * 100)
      with (IZR 1000 / 10 ^ 1) by (rewrite H10; field; lra).
    rewrite py_round_IZR_div. exact H10. }
  split.
  { intros Hnil. rewrite Hpct, Hnil. cbn [List.length INR].
    destruct (Nat.ltb 0 (total_required report)); [| reflexivity].
    unfold Rdiv. rewrite !Rmult_0_l. apply py_round_0. }
  unfold report, gap_report. cbn [recommendations missing_skills].
  unfold _generate_recommendations. rewrite length_map.
  apply (slice_to_length_min 5). lia.
Qed.

(** A candidate without skills. *)
Lemma gap_report_partition_witness :
  match_percentage (gap_report Sample.stranger Sample.backend_job) = 0.
Proof.
  destruct (gap_report_partition Sample.stranger Sample.backend_job)
    as (_ & _ & _ & _ & H & _).
  apply H. reflexivity.
Defined.

(* ------------------------------------------------------------------ *)
(** ** Searching a store that is embedded already *)
(* ------------------------------------------------------------------ *)

(** Every record has an identity and an embedding that counts. *)
Definition warm (w : World) : Prop :=
  Forall (fun c => truthy_emb (c_embedding c) = true /\ c_id c <> None)
    (candidates w)
  /\ Forall (fun j => truthy_emb (j_embedding j) = true /\ j_id j <> None)
       (jobs w).

(** Nothing was sent to the model and no record changed. *)
Definition quiet (w w' : World) : Prop :=
  encoded w' = encoded w /\ candidates w' = candidates w /\ jobs w' = jobs w.

Lemma quiet_refl w : quiet w w.
Proof. repeat split. Qed.

Lemma quiet_trans w1 w2 w3 : quiet w1 w2 -> quiet w2 w3 -> quiet w1 w3.
Proof. intros (H1 & H2 & H3) (H4 & H5 & H6). repeat split; congruence. Qed.

Lemma quiet_warm w w' : quiet w w' -> warm w -> warm w'.
Proof. intros (_ & Hc & Hj) [H1 H2]. split; congruence. Qed.

Lemma find_candidate_present (l : list Candidate) (c : Candidate) (i : oid) :
  In c l -> c_id c = Some i ->
  exists d, find (fun x => id_is i (c_id x)) l = Some d.
Proof.
  intros Hin Hid. destruct (find _ l) as [d |] eqn:Hf; [eauto |].
  apply (find_none _ _ Hf) in Hin. rewrite Hid in Hin. cbn in Hin.
  rewrite N.eqb_refl in Hin. discriminate.
Qed.

Lemma find_job_present (l : list Job) (j : Job) (i : oid) :
  In j l -> j_id j = Some i ->
  exists d, find (fun x => id_is i (j_id x)) l = Some d.
Proof.
  intros Hin Hid. destruct (find _ l) as [d |] eqn:Hf; [eauto |].
  apply (find_none _ _ Hf) in Hin. rewrite Hid in Hin. cbn in Hin.
  rewrite N.eqb_refl in Hin. discriminate.
Qed.

Section WarmSearch.

Variable env : Env.
Hypothesis Hstore : store_total env.

Lemma calculate_match_score_quiet (c : Candidate) (j : Job) (ci ji : oid)
    (w : World) :
  warm w ->
  c_id c = Some ci -> (exists d, In d (candidates w) /\ c_id d = Some ci) ->
  j_id j = Some ji -> (exists d, In d (jobs w) /\ j_id d = Some ji) ->
  quiet w (snd (calculate_match_score env c j w)).
Proof.
  intros [Hwc Hwj] Hci (c1 & Hc1 & Hc1id) Hji (j1 & Hj1 & Hj1id).
  destruct (find_candidate_present _ c1 ci Hc1 Hc1id) as (dc & Hfc).
  destruct (find_job_present _ j1 ji Hj1 Hj1id) as (dj & Hfj).
  rewrite Forall_forall in Hwc, Hwj.
  destruct (Hwc dc (proj1 (find_some _ _ Hfc))) as [Hec _].
  destruct (Hwj dj (proj1 (find_some _ _ Hfj))) as [Hej _].
  apply truthy_emb_inv in Hec, Hej.
  destruct Hec as (vc & Hec & Hvc). destruct Hej as (vj & Hej & Hvj).
  unfold calculate_match_score.
  destruct (negb _ || negb _); [apply quiet_refl |].
  unfold bind at 1.
  rewrite (resolve_candidate_embedding_hit env c dc _ ci vc w
             (Hstore _) Hci Hfc Hec Hvc).
  unfold bind at 1.
  rewrite (resolve_job_embedding_hit env j dj _ ji vj (tick w)
             (Hstore _) Hji Hfj Hej Hvj).
  unfold bind, lift, ret.
  destruct (_cosine_similarity _ _); repeat split.
Qed.

Lemma find_matching_jobs_quiet (email : string) (top_n : Z)
    (source : option string) (w : World) :
  warm w ->
  post (find_matching_jobs_for_candidate env email top_n source) w
    (fun _ w' => quiet w w').
Proof.
  intros Hwarm.
  unfold find_matching_jobs_for_candidate, find_candidate_by_email, read.
  apply post_bind, post_store_call; simpl_world; intros _;
    [| repeat split].
  destruct (find _ (candidates w)) as [c0 |] eqn:Hf;
    [| apply post_ret; repeat split].
  apply find_some in Hf. destruct Hf as [Hin _].
  pose proof Hwarm as [Hwc Hwj]. rewrite Forall_forall in Hwc, Hwj.
  destruct (Hwc c0 Hin) as [Hemb Hid].
  destruct (c_id c0) as [ci |] eqn:Hci; [| congruence].
  unfold ensure_candidate_embedding. rewrite Hemb. cbn [negb].
  apply post_bind, post_ret. unfold find_jobs, read.
  apply post_bind, post_store_call; simpl_world; intros _;
    [| repeat split].
  apply post_bind.
  assert (Hbody : forall job w0,
    In job (filter (source_query source) (jobs w)) -> quiet w w0 ->
    post (score <- score_fetched env (Some c0) (Some job) ;;
          scored_copy env job (j_id job) score)%py w0
      (fun r w1 => quiet w w1 /\ forall y, r = Ok y -> True)).
  { intros job w0 Hjob Hq. apply filter_In in Hjob. destruct Hjob as [Hjob _].
    destruct (Hwj job Hjob) as [_ Hjid].
    destruct (j_id job) as [ji |] eqn:Hji; [| congruence].
    apply post_bind, post_intro. intros r w1 Hrun. cbn [score_fetched] in Hrun.
    pose proof (calculate_match_score_quiet c0 job ci ji w0
                  (quiet_warm _ _ Hq Hwarm) Hci) as Hcalc.
    rewrite Hrun in Hcalc. cbn [snd] in Hcalc.
    destruct Hq as (Hq1 & Hq2 & Hq3).
    assert (Hq1' : quiet w w1).
    { apply (quiet_trans w w0 w1); [repeat split; assumption |].
      apply Hcalc; [rewrite Hq2; eauto | exact Hji | rewrite Hq3; eauto]. }
    destruct r as [score | e]; [| split; [exact Hq1' | discriminate]].
    unfold scored_copy. apply post_ret. split; [exact Hq1' | trivial]. }
  apply (post_weaken
           (post_mapM _ (quiet w) (fun _ _ => True) _ (tick (tick w))
              ltac:(repeat split) Hbody)).
  intros [scored | e] w2 [Hq _]; [apply post_ret |]; exact Hq.
Qed.

Lemma find_matching_candidates_quiet (job_id : string) (top_n : Z)
    (w : World) :
  warm w ->
  post (find_matching_candidates_for_job env job_id top_n) w
    (fun _ w' => quiet w w').
Proof.
  intros Hwarm. unfold find_matching_candidates_for_job.
  apply post_bind, post_try.
  destruct (ObjectId env job_id) as [i |];
    [| apply post_raise, post_ret, post_ret; repeat split].
  unfold find_job_by_id, read.
  apply post_bind, post_store_call; simpl_world; intros _;
    [| apply post_ret, post_ret; repeat split].
  apply post_ret.
  destruct (find _ (jobs w)) as [job0 |] eqn:Hf;
    [| apply post_ret; repeat split].
  apply find_some in Hf. destruct Hf as [Hjin _].
  pose proof Hwarm as [Hwc Hwj]. rewrite Forall_forall in Hwc, Hwj.
  destruct (Hwj job0 Hjin) as [Hjemb Hjid].
  destruct (j_id job0) as [ji |] eqn:Hji; [| congruence].
  unfold ensure_job_embedding. rewrite Hjemb. cbn [negb].
  apply post_bind, post_ret. unfold find_candidates, read.
  apply post_bind, post_store_call; simpl_world; intros _;
    [| repeat split].
  apply post_bind.
  assert (Hbody : forall s w0,
    In s (map without_password (candidates w)) -> quiet w w0 ->
    post (score_candidate env (Some job0) s) w0
      (fun r w1 => quiet w w1 /\ forall y, r = Ok y -> True)).
  { intros s w0 Hs Hq. apply in_map_iff in Hs. destruct Hs as (c & <- & Hc).
    destruct (Hwc c Hc) as [Hemb Hid].
    destruct (c_id c) as [ci |] eqn:Hci; [| congruence].
    unfold score_candidate, ensure_candidate_embedding.
    change (c_embedding (without_password c)) with (c_embedding c).
    rewrite Hemb. cbn [negb].
    apply post_bind, post_ret.
    apply post_bind, post_intro. intros r w1 Hrun. cbn [score_fetched] in Hrun.
    pose proof (calculate_match_score_quiet (without_password c) job0 ci ji w0
                  (quiet_warm _ _ Hq Hwarm) Hci) as Hcalc.
    rewrite Hrun in Hcalc. cbn [snd] in Hcalc.
    destruct Hq as (Hq1 & Hq2 & Hq3).
    assert (Hq1' : quiet w w1).
    { apply (quiet_trans w w0 w1); [repeat split; assumption |].
      apply Hcalc; [rewrite Hq2; eauto | exact Hji | rewrite Hq3; eauto]. }
    destruct r as [score | e]; [| split; [exact Hq1' | discriminate]].
    unfold scored_copy. change (c_id (without_password c)) with (c_id c).
    rewrite Hci. apply post_ret. split; [exact Hq1' | trivial]. }
  apply (post_weaken
           (post_mapM _ (quiet w) (fun _ _ => True) _ (tick (tick w))
              ltac:(repeat split) Hbody)).
  intros [scored | e] w2 [Hq _]; [apply post_ret |]; exact Hq.
Qed.

End WarmSearch.

(** X23. Over a store that answers and in which every record has an
    identity and an embedding that counts, either search sends nothing
    to the model and changes no record, whatever it returns: the stored
    vectors are all it uses. *)
Theorem warm_search_is_quiet (env : Env) (w : World) :
  store_total env -> warm w ->
  (forall email top_n source,
     quiet w
       (snd (find_matching_jobs_for_candidate env email top_n source w)))
  /\ (forall job_id top_n,
        quiet w (snd (find_matching_candidates_for_job env job_id top_n w))).
Proof.
  intros Hstore Hwarm. split.
  - intros email top_n source.
    apply (find_matching_jobs_quiet env Hstore email top_n source w Hwarm).
  - intros job_id top_n.
    apply (find_matching_candidates_quiet env Hstore job_id top_n w Hwarm).
Qed.

(** The sample store with both embeddings in place. *)
Lemma warm_search_is_quiet_witness :
  quiet
    (mkWorld [set_c_embedding [1; 0] Sample.alice]
       [set_j_embedding [1; 0] Sample.backend_job] [] 0)
    (snd (find_matching_jobs_for_candidate Sample.env "alice@example.org" 10
            None
            (mkWorld [set_c_embedding [1; 0] Sample.alice]
               [set_j_embedding [1; 0] Sample.backend_job] [] 0))).
Proof.
  apply (warm_search_is_quiet Sample.env).
  - intros k. reflexivity.
  - split; repeat constructor; discriminate.
Defined.

(* ------------------------------------------------------------------ *)
(** ** Embeddings that count are kept *)
(* ------------------------------------------------------------------ *)

(** The record is as it was, or it is one of [P] whose embedding did not
    count and has been given one. *)
Definition kept_or_filled_c (P : Candidate -> Prop) (c c' : Candidate)
    : Prop :=
  c' = c
  \/ (P c /\ truthy_emb (c_embedding c) = false
      /\ exists v, c' = set_c_embedding v c).

Definition kept_or_filled_j (P : Job -> Prop) (j j' : Job) : Prop :=
  j' = j
  \/ (P j /\ truthy_emb (j_embedding j) = false
      /\ exists v, j' = set_j_embedding v j).

Definition fills (Pc : Candidate -> Prop) (Pj : Job -> Prop) (w w' : World)
    : Prop :=
  Forall2 (kept_or_filled_c Pc) (candidates w) (candidates w')
  /\ Forall2 (kept_or_filled_j Pj) (jobs w) (jobs w').

Lemma Forall2_same {A} (R0 : A -> A -> Prop) (l : list A) :
  (forall x, R0 x x) -> Forall2 R0 l l.
Proof. intros H. induction l; constructor; auto. Qed.

Lemma Forall2_compose {A} (R0 : A -> A -> Prop) (l1 l2 l3 : list A) :
  (forall x y z, R0 x y -> R0 y z -> R0 x z) ->
  Forall2 R0 l1 l2 -> Forall2 R0 l2 l3 -> Forall2 R0 l1 l3.
Proof.
  intros Ht H12. revert l3.
  induction H12 as [| a b l1 l2 Hab _ IH]; intros l3 H23;
    inversion H23; subst; constructor; eauto.
Qed.

Lemma kept_or_filled_c_trans P x y z :
  kept_or_filled_c P x y -> kept_or_filled_c P y z -> kept_or_filled_c P x z.
Proof.
  intros H1 H2. destruct H1 as [-> | (HP & Hx & v & ->)]; [exact H2 |].
  destruct H2 as [-> | (_ & _ & v' & ->)]; right;
    (split; [exact HP |]); (split; [exact Hx |]);
    [exists v | exists v']; reflexivity.
Qed.

Lemma kept_or_filled_j_trans P x y z :
  kept_or_filled_j P x y -> kept_or_filled_j P y z -> kept_or_filled_j P x z.
Proof.
  intros H1 H2. destruct H1 as [-> | (HP & Hx & v & ->)]; [exact H2 |].
  destruct H2 as [-> | (_ & _ & v' & ->)]; right;
    (split; [exact HP |]); (split; [exact Hx |]);
    [exists v | exists v']; reflexivity.
Qed.

Lemma fills_refl Pc Pj w : fills Pc Pj w w.
Proof. split; apply Forall2_same; left; reflexivity. Qed.

Lemma fills_trans Pc Pj w1 w2 w3 :
  fills Pc Pj w1 w2 -> fills Pc Pj w2 w3 -> fills Pc Pj w1 w3.
Proof.
  intros [H1 H2] [H3 H4]. split.
  - apply (Forall2_compose _ _ _ _ (kept_or_filled_c_trans Pc) H1 H3).
  - apply (Forall2_compose _ _ _ _ (kept_or_filled_j_trans Pj) H2 H4).
Qed.

Lemma fills_weaken (Pc Pc' : Candidate -> Prop) (Pj Pj' : Job -> Prop) w w' :
  (forall c, Pc c -> Pc' c) -> (forall j, Pj j -> Pj' j) ->
  fills Pc Pj w w' -> fills Pc' Pj' w w'.
Proof.
  intros Hc Hj [H1 H2]. split.
  - apply (Forall2_impl_In _ _ _ _ H1).
    intros a b _ _ [-> | (HP & H)]; [left | right]; auto.
  - apply (Forall2_impl_In _ _ _ _ H2).
    intros a b _ _ [-> | (HP & H)]; [left | right]; auto.
Qed.

Lemma fills_same_store Pc Pj w w' :
  candidates w' = candidates w -> jobs w' = jobs w -> fills Pc Pj w w'.
Proof.
  intros Hc Hj. unfold fills. rewrite Hc, Hj.
  split; apply Forall2_same; left; reflexivity.
Qed.

(** [update_one] changes the record that [find_one] finds. *)
Lemma update_first_found {A} (R0 : A -> A -> Prop) (p : A -> bool)
    (f : A -> A) (l : list A) :
  (forall x, R0 x x) ->
  (forall d, find p l = Some d -> R0 d (f d)) ->
  Forall2 R0 l (update_first p f l).
Proof.
  intros Hr. induction l as [| x l IH]; intros Hd; cbn; [constructor |].
  cbn in Hd. destruct (p x).
  - constructor; [apply Hd; reflexivity | apply Forall2_same, Hr].
  - constructor; [apply Hr | apply IH, Hd].
Qed.

(** The records a call on [c] or [j] may fill: those of its identity. *)
Definition of_candidate (c x : Candidate) : Prop :=
  c_id c <> None /\ c_id x = c_id c.

Definition of_job (j x : Job) : Prop :=
  j_id j <> None /\ j_id x = j_id j.

Definition nothing {A} (_ : A) : Prop := False.

Section Fills.

Variable env : Env.

Lemma fills_encode_text Pc Pj text w :
  fills Pc Pj w (snd (encode_text env text w)).
Proof.
  apply fills_same_store; unfold encode_text, bind, model_call, ret;
    destruct (negb _); try reflexivity;
    destruct (model_encode env _ text); reflexivity.
Qed.

Lemma embed_and_store_candidate_fills (c : Candidate) (w : World) :
  (forall i d, c_id c = Some i ->
     find (fun x => id_is i (c_id x)) (candidates w) = Some d ->
     truthy_emb (c_embedding d) = false) ->
  fills (of_candidate c) nothing w (snd (embed_and_store_candidate env c w)).
Proof.
  intros Hfaith. unfold embed_and_store_candidate.
  destruct (negb _); [apply fills_refl |].
  unfold bind at 1.
  pose proof (fills_encode_text (of_candidate c) nothing
                (_extract_candidate_text c) w) as H1.
  assert (Hsame : candidates (snd (encode_text env (_extract_candidate_text c) w))
                  = candidates w).
  { unfold encode_text, bind, model_call, ret.
    destruct (negb _); [reflexivity |].
    destruct (model_encode env _ _); reflexivity. }
  destruct (encode_text env _ w) as [[[v |] | e] w1]; cbn [snd] in *;
    try exact H1.
  destruct (c_id c) as [i |] eqn:Hid; [| exact H1].
  unfold update_candidate_embedding, bind, store_call, ret.
  destruct (store_up env (store_ops w1)); simpl_world;
    (eapply fills_trans; [exact H1 |]);
    [| apply fills_same_store; reflexivity].
  split; simpl_world; [| apply Forall2_same; left; reflexivity].
  apply update_first_found; [left; reflexivity |].
  intros d Hd. right. rewrite Hsame in Hd.
  split; [| split; [apply (Hfaith i d eq_refl Hd) | eauto]].
  apply find_some in Hd. destruct Hd as [_ Hd]. apply id_is_true in Hd.
  split; congruence.
Qed.

Lemma embed_and_store_job_fills (j : Job) (w : World) :
  (forall i d, j_id j = Some i ->
     find (fun x => id_is i (j_id x)) (jobs w) = Some d ->
     truthy_emb (j_embedding d) = false) ->
  fills nothing (of_job j) w (snd (embed_and_store_job env j w)).
Proof.
  intros Hfaith. unfold embed_and_store_job.
  destruct (negb _); [apply fills_refl |].
  unfold bind at 1.
  pose proof (fills_encode_text nothing (of_job j)
                (_extract_job_text j) w) as H1.
  assert (Hsame : jobs (snd (encode_text env (_extract_job_text j) w))
                  = jobs w).
  { unfold encode_text, bind, model_call, ret.
    destruct (negb _); [reflexivity |].
    destruct (model_encode env _ _); reflexivity. }
  destruct (encode_text env _ w) as [[[v |] | e] w1]; cbn [snd] in *;
    try exact H1.
  destruct (j_id j) as [i |] eqn:Hid; [| exact H1].
  unfold update_job_embedding, bind, store_call, ret.
  destruct (store_up env (store_ops w1)); simpl_world;
    (eapply fills_trans; [exact H1 |]);
    [| apply fills_same_store; reflexivity].
  split; simpl_world; [apply Forall2_same; left; reflexivity |].
  apply update_first_found; [left; reflexivity |].
  intros d Hd. right. rewrite Hsame in Hd.
  split; [| split; [apply (Hfaith i d eq_refl Hd) | eauto]].
  apply find_some in Hd. destruct Hd as [_ Hd]. apply id_is_true in Hd.
  split; congruence.
Qed.

Lemma resolve_candidate_fills (c : Candidate) (text : string) (w : World) :
  fills (of_candidate c) nothing w
    (snd (resolve_candidate_embedding env c text w)).
Proof.
  assert (Hembed : forall w0,
    (forall i d, c_id c = Some i ->
       find (fun x => id_is i (c_id x)) (candidates w0) = Some d ->
       truthy_emb (c_embedding d) = false) ->
    fills (of_candidate c) nothing w0
      (snd (match embed_and_store_candidate env c w0 with
            | (Ok a, w1) => (Ok a, w1)
            | (Raise _, w1) => encode_text env text w1
            end))).
  { intros w0 Hfaith.
    pose proof (embed_and_store_candidate_fills c w0 Hfaith) as H.
    destruct (embed_and_store_candidate env c w0) as [[a | e] w1];
      cbn [snd] in *; [exact H |].
    eapply fills_trans; [exact H | apply fills_encode_text]. }
  unfold resolve_candidate_embedding, try_except.
  destruct (c_id c) as [i |] eqn:Hid.
  2:{ pose proof (fills_encode_text (of_candidate c) nothing text w) as H.
      destruct (encode_text env text w) as [[a | e] w1]; cbn [snd] in *;
        [exact H |].
      eapply fills_trans; [exact H | apply fills_encode_text]. }
  unfold bind, find_candidate_by_id, store_call, read.
  destruct (store_up env (store_ops w)); simpl_world.
  2:{ apply (fills_trans _ _ w (tick w));
        [apply fills_same_store; reflexivity | apply fills_encode_text]. }
  apply (fills_trans _ _ w (tick w)); [apply fills_same_store; reflexivity |].
  destruct (find _ (candidates w)) as [d |] eqn:Hf.
  - destruct (truthy_emb (c_embedding d)) eqn:Ht; [apply fills_refl |].
    apply Hembed. intros i' d' Hi' Hd'. simpl_world in Hd'.
    assert (i' = i) by congruence. subst i'. congruence.
  - apply Hembed. intros i' d' Hi' Hd'. simpl_world in Hd'.
    assert (i' = i) by congruence. subst i'. congruence.
Qed.

Lemma resolve_job_fills (j : Job) (text : string) (w : World) :
  fills nothing (of_job j) w (snd (resolve_job_embedding env j text w)).
Proof.
  assert (Hembed : forall w0,
    (forall i d, j_id j = Some i ->
       find (fun x => id_is i (j_id x)) (jobs w0) = Some d ->
       truthy_emb (j_embedding d) = false) ->
    fills nothing (of_job j) w0
      (snd (match embed_and_store_job env j w0 with
            | (Ok a, w1) => (Ok a, w1)
            | (Raise _, w1) => encode_text env text w1
            end))).
  { intros w0 Hfaith.
    pose proof (embed_and_store_job_fills j w0 Hfaith) as H.
    destruct (embed_and_store_job env j w0) as [[a | e] w1];
      cbn [snd] in *; [exact H |].
    eapply fills_trans; [exact H | apply fills_encode_text]. }
  unfold resolve_job_embedding, try_except.
  destruct (j_id j) as [i |] eqn:Hid.
  2:{ pose proof (fills_encode_text nothing (of_job j) text w) as H.
      destruct (encode_text env text w) as [[a | e] w1]; cbn [snd] in *;
        [exact H |].
      eapply fills_trans; [exact H | apply fills_encode_text]. }
  unfold bind, find_job_by_id, store_call, read.
  destruct (store_up env (store_ops w)); simpl_world.
  2:{ apply (fills_trans _ _ w (tick w));
        [apply fills_same_store; reflexivity | apply fills_encode_text]. }
  apply (fills_trans _ _ w (tick w)); [apply fills_same_store; reflexivity |].
  destruct (find _ (jobs w)) as [d |] eqn:Hf.
  - destruct (truthy_emb (j_embedding d)) eqn:Ht; [apply fills_refl |].
    apply Hembed. intros i' d' Hi' Hd'. simpl_world in Hd'.
    assert (i' = i) by congruence. subst i'. congruence.
  - apply Hembed. intros i' d' Hi' Hd'. simpl_world in Hd'.
    assert (i' = i) by congruence. subst i'. congruence.
Qed.

Lemma calculate_match_score_fills (c : Candidate) (j : Job) (w : World) :
  fills (of_candidate c) (of_job j) w (snd (calculate_match_score env c j w)).
Proof.
  unfold calculate_match_score.
  destruct (negb _ || negb _); [apply fills_refl |].
  unfold bind at 1.
  pose proof (resolve_candidate_fills c (_extract_candidate_text c) w) as H1.
  apply (fills_weaken _ (of_candidate c) _ (of_job j)) in H1;
    [| auto | intros ? []].
  destruct (resolve_candidate_embedding env c _ w) as [[ec | e] w1];
    cbn [snd] in *; [| exact H1].
  unfold bind at 1.
  pose proof (resolve_job_fills j (_extract_job_text j) w1) as H2.
  apply (fills_weaken _ (of_candidate c) _ (of_job j)) in H2;
    [| intros ? [] | auto].
  destruct (resolve_job_embedding env j _ w1) as [[ej | e] w2];
    cbn [snd] in *; [| eapply fills_trans; eassumption].
  unfold bind, lift, ret.
  destruct (_cosine_similarity ec ej); cbn [snd];
    eapply fills_trans; eassumption.
Qed.

End Fills.

Definition anyone {A} (_ : A) : Prop := True.

Lemma fills_ids Pc Pj w w' :
  fills Pc Pj w w' ->
  map c_id (candidates w') = map c_id (candidates w)
  /\ map j_id (jobs w') = map j_id (jobs w).
Proof.
  intros [Hc Hj]. split.
  - induction Hc as [| x y l l' Hxy _ IH]; cbn; [reflexivity |].
    rewrite IH. destruct Hxy as [-> | (_ & _ & v & ->)]; reflexivity.
  - induction Hj as [| x y l l' Hxy _ IH]; cbn; [reflexivity |].
    rewrite IH. destruct Hxy as [-> | (_ & _ & v & ->)]; reflexivity.
Qed.

Section FillsSearch.

Variable env : Env.

Lemma fills_read Pc Pj {A} (q : World -> A) (w : World) :
  fills Pc Pj w (snd (store_call env (read q) w)).
Proof.
  unfold store_call, read.
  destruct (store_up env (store_ops w)); apply fills_same_store; reflexivity.
Qed.

(** The [if not candidate.get("embedding")] block fills the record of
    the candidate only, provided the copy in hand shows what the store
    holds; what it hands on has the identity of the candidate. *)
Lemma ensure_candidate_fills (c0 : Candidate) (w : World) :
  (truthy_emb (c_embedding c0) = false ->
   forall i d, c_id c0 = Some i ->
     find (fun x => id_is i (c_id x)) (candidates w) = Some d ->
     truthy_emb (c_embedding d) = false) ->
  post (ensure_candidate_embedding env c0) w
    (fun r w' => fills (of_candidate c0) nothing w w'
                 /\ forall c1, r = Ok (Some c1) -> c_id c1 = c_id c0).
Proof.
  intros Hfaith. unfold ensure_candidate_embedding.
  destruct (truthy_emb (c_embedding c0)) eqn:Ht; cbn [negb].
  { apply post_ret. split; [apply fills_refl |]. intros c1 [= <-]. reflexivity. }
  apply post_bind, post_intro. intros r w1 Hrun.
  pose proof (embed_and_store_candidate_fills env c0 w (Hfaith eq_refl)) as H1.
  rewrite Hrun in H1. cbn [snd] in H1.
  destruct r as [a | e]; [| split; [exact H1 | discriminate]].
  unfold refetch_candidate.
  destruct (c_id c0) as [i |] eqn:Hid;
    [| apply post_raise; split; [exact H1 | discriminate]].
  unfold find_candidate_by_id. apply post_intro. intros r w2 Hrun2.
  pose proof (fills_read (of_candidate c0) nothing
                (fun w0 => find (fun c => id_is i (c_id c)) (candidates w0))
                w1) as H2.
  rewrite Hrun2 in H2. cbn [snd] in H2.
  split; [eapply fills_trans; eassumption |].
  intros c1 ->. revert Hrun2. unfold store_call, read.
  destruct (store_up env (store_ops w1)); [| discriminate].
  intros [= Hf _]. apply find_some in Hf. destruct Hf as [_ Hf].
  apply id_is_true in Hf. congruence.
Qed.

Lemma ensure_job_fills (j0 : Job) (w : World) :
  (truthy_emb (j_embedding j0) = false ->
   forall i d, j_id j0 = Some i ->
     find (fun x => id_is i (j_id x)) (jobs w) = Some d ->
     truthy_emb (j_embedding d) = false) ->
  fills nothing (of_job j0) w (snd (ensure_job_embedding env j0 w)).
Proof.
  intros Hfaith. unfold ensure_job_embedding.
  destruct (truthy_emb (j_embedding j0)) eqn:Ht; cbn [negb];
    [apply fills_refl |].
  unfold bind.
  pose proof (embed_and_store_job_fills env j0 w (Hfaith eq_refl)) as H1.
  destruct (embed_and_store_job env j0 w) as [[a | e] w1]; cbn [snd] in *;
    [| exact H1].
  unfold refetch_job.
  destruct (j_id j0) as [i |]; [| exact H1].
  eapply fills_trans; [exact H1 | apply fills_read].
Qed.

Lemma score_fetched_fills (c : option Candidate) (j : option Job)
    (w : World) :
  fills (fun x => exists c1, c = Some c1 /\ of_candidate c1 x) anyone w
    (snd (score_fetched env c j w)).
Proof.
  unfold score_fetched. destruct c as [c1 |], j as [j1 |];
    try apply fills_refl.
  apply (fills_weaken (of_candidate c1) _ (of_job j1) _);
    [eauto | intros; exact I | apply calculate_match_score_fills].
Qed.

(** One turn of the loop over the candidates fills the record of that
    candidate only. *)
Lemma score_candidate_fills (job : option Job) (s : Candidate) (w : World) :
  (truthy_emb (c_embedding s) = false ->
   forall i d, c_id s = Some i ->
     find (fun x => id_is i (c_id x)) (candidates w) = Some d ->
     truthy_emb (c_embedding d) = false) ->
  fills (of_candidate s) anyone w (snd (score_candidate env job s w)).
Proof.
  intros Hfaith. unfold score_candidate, bind at 1.
  pose proof (ensure_candidate_fills s w Hfaith) as H1. unfold post in H1.
  destruct (ensure_candidate_embedding env s w) as [r w1].
  cbn [fst snd] in *. destruct H1 as [H1 Hid].
  apply (fills_weaken _ (of_candidate s) _ anyone) in H1;
    [| auto | intros ? []].
  destruct r as [c1 | e]; [| exact H1].
  unfold bind at 1.
  pose proof (score_fetched_fills c1 job w1) as H2.
  assert (H2' : fills (of_candidate s) anyone w1
                  (snd (score_fetched env c1 job w1))).
  { eapply fills_weaken; [| | exact H2].
    - intros x (c2 & -> & Hne & Hx). unfold of_candidate.
      rewrite <- (Hid c2 eq_refl). split; assumption.
    - auto. }
  destruct (score_fetched env c1 job w1) as [[score | e] w2];
    cbn [snd] in *; [| eapply fills_trans; eassumption].
  destruct c1 as [c2 |]; [| eapply fills_trans; eassumption].
  unfold scored_copy. destruct (c_id c2); cbn [snd ret raise];
    eapply fills_trans; eassumption.
Qed.

Lemma score_all_fills (job : option Job) (cs : list Candidate) (w : World) :
  NoDup (map c_id (candidates w)) -> NoDup (map c_id cs) ->
  (forall c, In c cs -> In c (candidates w)) ->
  fills anyone anyone w
    (snd (mapM (score_candidate env job) (map without_password cs) w)).
Proof.
  revert w. induction cs as [| c cs IH]; intros w Hw Hcs Hin;
    [apply fills_refl |].
  cbn [map mapM]. unfold bind at 1.
  assert (H1 : fills (of_candidate (without_password c)) anyone w
                 (snd (score_candidate env job (without_password c) w))).
  { apply score_candidate_fills. intros Ht i d Hi Hf.
    apply find_some in Hf. destruct Hf as [Hd Hdi]. apply id_is_true in Hdi.
    assert (d = c).
    { apply (NoDup_map_eq c_id _ _ _ Hw Hd (Hin c (or_introl eq_refl))).
      cbn in Hi. congruence. }
    subst d. exact Ht. }
  destruct (score_candidate env job (without_password c) w) as [r w1].
  cbn [snd] in H1.
  assert (H1' : fills anyone anyone w w1).
  { eapply fills_weaken; [| | exact H1]; intros; exact I. }
  destruct r as [y | e]; [| exact H1'].
  unfold bind at 1.
  inversion Hcs as [| ? ? Hc Hcs']; subst.
  assert (H2 : fills anyone anyone w1
                 (snd (mapM (score_candidate env job)
                         (map without_password cs) w1))).
  { apply IH.
    - rewrite (proj1 (fills_ids _ _ _ _ H1)). exact Hw.
    - exact Hcs'.
    - intros c' Hc'. destruct H1 as [H1 _].
      destruct (Forall2_In_l _ _ _ _ H1 (Hin c' (or_intror Hc')))
        as (y' & Hy' & [-> | ((_ & Hsame) & _)]); [exact Hy' |].
      exfalso. apply Hc. cbn in Hsame. rewrite <- Hsame.
      apply in_map, Hc'. }
  destruct (mapM _ _ w1) as [[ys | e] w2]; cbn [snd ret] in *;
    eapply fills_trans; eassumption.
Qed.

Lemma score_jobs_fills (c : option Candidate) (l : list Job) (w : World) :
  fills anyone anyone w
    (snd (mapM (fun job =>
                  (score <- score_fetched env c (Some job) ;;
                   scored_copy env job (j_id job) score)%py) l w)).
Proof.
  apply (keeps_mapM (fills anyone anyone) (fills_refl _ _) (fills_trans _ _)).
  intros job.
  apply (keeps_bind (fills anyone anyone) (fills_trans _ _)).
  - intros w0.
    eapply fills_weaken; [| | apply (score_fetched_fills c (Some job) w0)];
      intros; exact I.
  - intros score. apply (keeps_scored_copy (fills anyone anyone) (fills_refl _ _)).
Qed.

End FillsSearch.

(** X24. An embedding that counts is never replaced.  Whatever
    [calculate_match_score] writes, it writes into a record of the
    identity of its candidate or of its job whose stored embedding did
    not count; and when the candidates have distinct identities the same
    holds for every record either search touches. *)
Theorem counting_embeddings_are_kept (env : Env) (w : World) :
  (forall c j,
     fills (of_candidate c) (of_job j) w
       (snd (calculate_match_score env c j w)))
  /\ (NoDup (map c_id (candidates w)) ->
      (forall email top_n source,
         fills anyone anyone w
           (snd (find_matching_jobs_for_candidate env email top_n source w)))
      /\ (forall job_id top_n,
            fills anyone anyone w
              (snd (find_matching_candidates_for_job env job_id top_n w)))).
Proof.
  split; [intros c j; apply calculate_match_score_fills |].
  intros Hnd.
  assert (Hstart : forall Pc Pj w1, candidates w1 = candidates w ->
            jobs w1 = jobs w -> fills Pc Pj w w1).
  { intros Pc Pj w1. apply fills_same_store. }
  split.
  - intros email top_n source.
    change (post (find_matching_jobs_for_candidate env email top_n source) w
              (fun _ w' => fills anyone anyone w w')).
    unfold find_matching_jobs_for_candidate, find_candidate_by_email, read.
    apply post_bind, post_store_call; simpl_world; intros _;
      [| apply Hstart; reflexivity].
    destruct (find _ (candidates w)) as [c0 |] eqn:Hf;
      [| apply post_ret, Hstart; reflexivity].
    apply find_some in Hf. destruct Hf as [Hin _].
    assert (H1 : post (ensure_candidate_embedding env c0) (tick w)
                   (fun r w' => fills (of_candidate c0) nothing (tick w) w'
                      /\ forall c1, r = Ok (Some c1) -> c_id c1 = c_id c0)).
    { apply ensure_candidate_fills. intros Ht i d Hi Hd. simpl_world in Hd.
      apply find_some in Hd. destruct Hd as [Hd Hdi]. apply id_is_true in Hdi.
      assert (d = c0) by (apply (NoDup_map_eq c_id _ _ _ Hnd Hd Hin);
                          congruence).
      subst d. exact Ht. }
    apply post_bind. apply (post_weaken H1). clear H1.
    intros r w1 [H1 _].
    assert (H1' : fills anyone anyone w w1).
    { apply (fills_trans _ _ w (tick w)); [apply Hstart; reflexivity |].
      eapply fills_weaken; [| | exact H1]; intros; exact I. }
    destruct r as [c | e]; [| exact H1'].
    unfold find_jobs, read.
    apply post_bind, post_store_call; simpl_world; intros _;
      [| eapply fills_trans;
         [exact H1' | apply fills_same_store; reflexivity]].
    apply post_bind, post_intro. intros r w3 Hrun.
    pose proof (score_jobs_fills env c
                  (filter (source_query source) (jobs w1)) (tick w1)) as H3.
    rewrite Hrun in H3. cbn [snd] in H3.
    assert (H3' : fills anyone anyone w w3).
    { eapply fills_trans; [exact H1' |].
      eapply fills_trans; [| exact H3]. apply fills_same_store; reflexivity. }
    destruct r; [apply post_ret |]; exact H3'.
  - intros job_id top_n.
    change (post (find_matching_candidates_for_job env job_id top_n) w
              (fun _ w' => fills anyone anyone w w')).
    unfold find_matching_candidates_for_job.
    apply post_bind, post_try.
    destruct (ObjectId env job_id) as [i |];
      [| apply post_raise, post_ret, post_ret, Hstart; reflexivity].
    unfold find_job_by_id, read.
    apply post_bind, post_store_call; simpl_world; intros _;
      [| apply post_ret, post_ret, Hstart; reflexivity].
    apply post_ret.
    destruct (find _ (jobs w)) as [job0 |] eqn:Hf;
      [| apply post_ret, Hstart; reflexivity].
    apply post_bind, post_intro. intros r w1 Hrun.
    assert (H1 : fills nothing (of_job job0) (tick w)
                   (snd (ensure_job_embedding env job0 (tick w)))).
    { apply ensure_job_fills. intros Ht i' d Hi' Hd. simpl_world in Hd.
      pose proof (find_some _ _ Hf) as [_ Hi0]. apply id_is_true in Hi0.
      assert (i' = i) by congruence. subst i'. congruence. }
    pose proof (ensure_job_embedding_candidates env job0 (tick w)) as Hc1.
    rewrite Hrun in H1, Hc1. cbn [snd] in H1, Hc1. simpl_world in Hc1.
    assert (H1' : fills anyone anyone w w1).
    { apply (fills_trans _ _ w (tick w)); [apply Hstart; reflexivity |].
      eapply fills_weaken; [| | exact H1]; intros; exact I. }
    destruct r as [job | e]; [| exact H1'].
    unfold find_candidates, read.
    apply post_bind, post_store_call; simpl_world; intros _;
      [| eapply fills_trans;
         [exact H1' | apply fills_same_store; reflexivity]].
    apply post_bind, post_intro. intros r w3 Hrun3.
    assert (H3 : fills anyone anyone (tick w1)
                   (snd (mapM (score_candidate env job)
                           (map without_password (candidates w1))
                           (tick w1)))).
    { apply score_all_fills; simpl_world; rewrite ?Hc1; auto. }
    rewrite Hrun3 in H3. cbn [snd] in H3.
    assert (H3' : fills anyone anyone w w3).
    { eapply fills_trans; [exact H1' |].
      eapply fills_trans; [| exact H3]. apply fills_same_store; reflexivity. }
    destruct r; [apply post_ret |]; exact H3'.
Qed.

(** The sample store holds one candidate. *)
Lemma counting_embeddings_are_kept_witness :
  fills anyone anyone Sample.world
    (snd (find_matching_candidates_for_job Sample.env (Sample.print_oid 10%N)
            20 Sample.world)).
Proof.
  apply (counting_embeddings_are_kept Sample.env Sample.world).
  repeat constructor. intros [].
Defined.
